(** * Numbers MCP server: the table query, mutation and colour-inference core

    A shallow embedding of [src/lib/numbers.ts] and of the in-memory parts of
    [src/lib/applescript.ts], with the properties of the specification stated
    and proved over it.

    Modelling conventions.
    - A JavaScript number is a binary64 float ([PrimFloat.float]); comparisons,
      division and multiplication are the IEEE operations the engine runs.
    - A JavaScript string is a [string] holding well-formed UTF-8 text;
      [toLowerCase] is the default case conversion of Unicode and white space
      is the white space [Number] trims.
    - A cell, an operand and a [set] value is a primitive: the tool schema
      admits string, number, boolean and null.  Reading a key an object does
      not have yields [undefined], or the member of [Object.prototype] of
      that name ([VBuiltin]).
    - A plain object used as a record ([TableRow], [WhereCondition], [set]) is
      the list of its own properties in the order [Object.keys] reports them:
      array-index keys in ascending numeric order, then the other keys in
      insertion order; its prototype is [Object.prototype].  An assignment
      to [__proto__] makes no property; the change of prototype it causes
      when the value assigned is [null] is not followed.
    - The header names of a sheet are column names of the data model: a
      loaded row has an own property for each of them, so no header is
      [__proto__].
    - A [Map] and a [Set] are insertion-ordered association lists and lists.
    - An exception is a [Throw] result; file and AppleScript I/O is outside
      the embedding: functions take the sheet contents (and the colours read
      back from the application) as arguments and return what they would
      write. *)

From Stdlib Require Import List String Ascii ZArith NArith Lia Bool Arith.
From Stdlib Require Import Floats DecimalString Permutation Sorted.
Import ListNotations.

Set Warnings "-inexact-float".

Local Open Scope list_scope.
Local Open Scope string_scope.

(** ** JavaScript primitives *)

Module Js.

Inductive Value : Type :=
| VUndefined
| VNull
| VBool (b : bool)
| VNum (x : float)
| VStr (s : string)
| VBuiltin (name : string).

(** [VBuiltin k] is the object [Object.prototype] holds under the name [k]:
    a native function, and [Object.prototype] itself under [__proto__]. *)

(** *** Numbers *)

Definition Z2float (n : Z) : float :=
  SF2Prim (binary_normalize prec emax n 0 false).

Definition nat2float (n : nat) : float := Z2float (Z.of_nat n).

(** The binary64 value nearest to [p / q] (ties to even), negated when [neg]. *)
Definition round_ratio (neg : bool) (p q : positive) : float :=
  SF2Prim (let '(mz, ez, lz) := SFdiv_core_binary prec emax (Zpos p) 0 (Zpos q) 0 in
           binary_round_aux prec emax neg mz ez lz).

(** The binary64 value of the decimal [m * 10 ^ e], [m >= 0]. *)
Definition decimal_to_float (neg : bool) (m e : Z) : float :=
  match m with
  | Zpos p =>
      match e with
      | Zneg k => round_ratio neg p (Pos.pow 10 k)
      | Z0 => round_ratio neg p 1
      | Zpos k => round_ratio neg (p * Pos.pow 10 k) 1
      end
  | _ => if neg then neg_zero else zero
  end.

(** [Math.round]: the nearest integer, a tie going towards +infinity. *)
Definition Math_round (x : float) : float :=
  match Prim2SF x with
  | S754_finite s m e =>
      if (0 <=? e)%Z then x
      else
        let d := Z.pow 2 (- e) in
        let v := if s then Zneg m else Zpos m in
        match ((2 * v + d) / (2 * d))%Z with
        | Z0 => if s then neg_zero else zero
        | n => Z2float n
        end
  | _ => x
  end.

(** *** Strings *)

(** A string is UTF-8 text.  [decode] reads it into code points; a byte that
    starts no well-formed sequence is kept as it is. *)
Inductive Unit : Type :=
| Point (cp : N)
| Stray (c : ascii).

Definition continuation (c : ascii) : bool :=
  let n := N_of_ascii c in ((128 <=? n) && (n <=? 191))%N.

Definition payload (c : ascii) : N := (N_of_ascii c mod 64)%N.

(** The character a sequence starts with, and how many bytes follow its
    first one. *)
Definition decodeOne (c : ascii) (r : list ascii) : Unit * nat :=
  let n := N_of_ascii c in
  if (n <? 128)%N then (Point n, 0)
  else
    match r with
    | c1 :: r1 =>
        if negb (continuation c1) then (Stray c, 0)
        else if ((194 <=? n) && (n <=? 223))%N
        then (Point ((n - 192) * 64 + payload c1)%N, 1)
        else
          match r1 with
          | c2 :: r2 =>
              if negb (continuation c2) then (Stray c, 0)
              else if ((224 <=? n) && (n <=? 239))%N
              then
                let cp := ((n - 224) * 4096 + payload c1 * 64 + payload c2)%N in
                if ((2048 <=? cp) && negb ((55296 <=? cp) && (cp <=? 57343)))%N
                then (Point cp, 2) else (Stray c, 0)
              else
                match r2 with
                | c3 :: _ =>
                    let cp := ((n - 240) * 262144 + payload c1 * 4096
                               + payload c2 * 64 + payload c3)%N in
                    if (continuation c3 && (240 <=? n) && (n <=? 244)
                        && (65536 <=? cp) && (cp <=? 1114111))%N
                    then (Point cp, 3) else (Stray c, 0)
                | [] => (Stray c, 0)
                end
          | [] => (Stray c, 0)
          end
    | [] => (Stray c, 0)
    end.

Fixpoint decode (l : list ascii) : list Unit :=
  match l with
  | [] => []
  | c :: r =>
      match decodeOne c r, r with
      | (u, 1), _ :: r1 => u :: decode r1
      | (u, 2), _ :: _ :: r2 => u :: decode r2
      | (u, 3), _ :: _ :: _ :: r3 => u :: decode r3
      | (u, _), _ => u :: decode r
      end
  end.

Definition encodeUnit (u : Unit) : list ascii :=
  match u with
  | Stray c => [c]
  | Point cp =>
      let tail (k : N) := ascii_of_N (128 + (cp / k) mod 64) in
      if (cp <? 128)%N then [ascii_of_N cp]
      else if (cp <? 2048)%N then [ascii_of_N (192 + cp / 64); tail 1%N]
      else if (cp <? 65536)%N then [ascii_of_N (224 + cp / 4096); tail 64%N; tail 1%N]
      else [ascii_of_N (240 + cp / 262144); tail 4096%N; tail 64%N; tail 1%N]
  end.

Definition encode (l : list Unit) : list ascii := flat_map encodeUnit l.

(** The case tables of the Unicode Character Database (version 14): the
    single-character lower-case mappings as runs [(first, last, step, image
    of first)], and the ranges of the cased and of the case-ignorable
    characters (a character that is both is listed as case-ignorable). *)
Definition lowerRuns : list (N * N * N * N) :=
  [
   (65, 90, 1, 97); (192, 214, 1, 224); (216, 222, 1, 248); (256, 302, 2, 257);
   (306, 310, 2, 307); (313, 327, 2, 314); (330, 374, 2, 331); (376, 376, 1, 255);
   (377, 381, 2, 378); (385, 385, 1, 595); (386, 388, 2, 387); (390, 390, 1, 596);
   (391, 391, 1, 392); (393, 394, 1, 598); (395, 395, 1, 396); (398, 398, 1, 477);
   (399, 399, 1, 601); (400, 400, 1, 603); (401, 401, 1, 402); (403, 403, 1, 608);
   (404, 404, 1, 611); (406, 406, 1, 617); (407, 407, 1, 616); (408, 408, 1, 409);
   (412, 412, 1, 623); (413, 413, 1, 626); (415, 415, 1, 629); (416, 420, 2, 417);
   (422, 422, 1, 640); (423, 423, 1, 424); (425, 425, 1, 643); (428, 428, 1, 429);
   (430, 430, 1, 648); (431, 431, 1, 432); (433, 434, 1, 650); (435, 437, 2, 436);
   (439, 439, 1, 658); (440, 440, 1, 441); (444, 444, 1, 445); (452, 452, 1, 454);
   (453, 453, 1, 454); (455, 455, 1, 457); (456, 456, 1, 457); (458, 458, 1, 460);
   (459, 475, 2, 460); (478, 494, 2, 479); (497, 497, 1, 499); (498, 500, 2, 499);
   (502, 502, 1, 405); (503, 503, 1, 447); (504, 542, 2, 505); (544, 544, 1, 414);
   (546, 562, 2, 547); (570, 570, 1, 11365); (571, 571, 1, 572); (573, 573, 1, 410);
   (574, 574, 1, 11366); (577, 577, 1, 578); (579, 579, 1, 384); (580, 580, 1, 649);
   (581, 581, 1, 652); (582, 590, 2, 583); (880, 882, 2, 881); (886, 886, 1, 887);
   (895, 895, 1, 1011); (902, 902, 1, 940); (904, 906, 1, 941); (908, 908, 1, 972);
   (910, 911, 1, 973); (913, 929, 1, 945); (931, 939, 1, 963); (975, 975, 1, 983);
   (984, 1006, 2, 985); (1012, 1012, 1, 952); (1015, 1015, 1, 1016); (1017, 1017, 1, 1010);
   (1018, 1018, 1, 1019); (1021, 1023, 1, 891); (1024, 1039, 1, 1104); (1040, 1071, 1, 1072);
   (1120, 1152, 2, 1121); (1162, 1214, 2, 1163); (1216, 1216, 1, 1231); (1217, 1229, 2, 1218);
   (1232, 1326, 2, 1233); (1329, 1366, 1, 1377); (4256, 4293, 1, 11520); (4295, 4295, 1, 11559);
   (4301, 4301, 1, 11565); (5024, 5103, 1, 43888); (5104, 5109, 1, 5112); (7312, 7354, 1, 4304);
   (7357, 7359, 1, 4349); (7680, 7828, 2, 7681); (7838, 7838, 1, 223); (7840, 7934, 2, 7841);
   (7944, 7951, 1, 7936); (7960, 7965, 1, 7952); (7976, 7983, 1, 7968); (7992, 7999, 1, 7984);
   (8008, 8013, 1, 8000); (8025, 8031, 2, 8017); (8040, 8047, 1, 8032); (8072, 8079, 1, 8064);
   (8088, 8095, 1, 8080); (8104, 8111, 1, 8096); (8120, 8121, 1, 8112); (8122, 8123, 1, 8048);
   (8124, 8124, 1, 8115); (8136, 8139, 1, 8050); (8140, 8140, 1, 8131); (8152, 8153, 1, 8144);
   (8154, 8155, 1, 8054); (8168, 8169, 1, 8160); (8170, 8171, 1, 8058); (8172, 8172, 1, 8165);
   (8184, 8185, 1, 8056); (8186, 8187, 1, 8060); (8188, 8188, 1, 8179); (8486, 8486, 1, 969);
   (8490, 8490, 1, 107); (8491, 8491, 1, 229); (8498, 8498, 1, 8526); (8544, 8559, 1, 8560);
   (8579, 8579, 1, 8580); (9398, 9423, 1, 9424); (11264, 11311, 1, 11312); (11360, 11360, 1, 11361);
   (11362, 11362, 1, 619); (11363, 11363, 1, 7549); (11364, 11364, 1, 637); (11367, 11371, 2, 11368);
   (11373, 11373, 1, 593); (11374, 11374, 1, 625); (11375, 11375, 1, 592); (11376, 11376, 1, 594);
   (11378, 11378, 1, 11379); (11381, 11381, 1, 11382); (11390, 11391, 1, 575); (11392, 11490, 2, 11393);
   (11499, 11501, 2, 11500); (11506, 11506, 1, 11507); (42560, 42604, 2, 42561); (42624, 42650, 2, 42625);
   (42786, 42798, 2, 42787); (42802, 42862, 2, 42803); (42873, 42875, 2, 42874); (42877, 42877, 1, 7545);
   (42878, 42886, 2, 42879); (42891, 42891, 1, 42892); (42893, 42893, 1, 613); (42896, 42898, 2, 42897);
   (42902, 42920, 2, 42903); (42922, 42922, 1, 614); (42923, 42923, 1, 604); (42924, 42924, 1, 609);
   (42925, 42925, 1, 620); (42926, 42926, 1, 618); (42928, 42928, 1, 670); (42929, 42929, 1, 647);
   (42930, 42930, 1, 669); (42931, 42931, 1, 43859); (42932, 42946, 2, 42933); (42948, 42948, 1, 42900);
   (42949, 42949, 1, 642); (42950, 42950, 1, 7566); (42951, 42953, 2, 42952); (42960, 42960, 1, 42961);
   (42966, 42968, 2, 42967); (42997, 42997, 1, 42998); (65313, 65338, 1, 65345); (66560, 66599, 1, 66600);
   (66736, 66771, 1, 66776); (66928, 66964, 2, 66967); (66929, 66937, 2, 66968); (66941, 66953, 2, 66980);
   (66957, 66961, 2, 66996); (66965, 66965, 1, 67004); (68736, 68786, 1, 68800); (71840, 71871, 1, 71872);
   (93760, 93791, 1, 93792); (125184, 125217, 1, 125218)
  ]%N.

Definition casedRanges : list (N * N) :=
  [
   (65, 90); (97, 122); (170, 170); (181, 181); (186, 186); (192, 214);
   (216, 246); (248, 442); (444, 447); (452, 659); (661, 687); (880, 883);
   (886, 887); (891, 893); (895, 895); (902, 902); (904, 906); (908, 908);
   (910, 929); (931, 1013); (1015, 1153); (1162, 1327); (1329, 1366); (1376, 1416);
   (4256, 4293); (4295, 4295); (4301, 4301); (4304, 4346); (4349, 4351); (5024, 5109);
   (5112, 5117); (7296, 7304); (7312, 7354); (7357, 7359); (7424, 7467); (7531, 7543);
   (7545, 7578); (7680, 7957); (7960, 7965); (7968, 8005); (8008, 8013); (8016, 8023);
   (8025, 8025); (8027, 8027); (8029, 8029); (8031, 8061); (8064, 8116); (8118, 8124);
   (8126, 8126); (8130, 8132); (8134, 8140); (8144, 8147); (8150, 8155); (8160, 8172);
   (8178, 8180); (8182, 8188); (8450, 8450); (8455, 8455); (8458, 8467); (8469, 8469);
   (8473, 8477); (8484, 8484); (8486, 8486); (8488, 8488); (8490, 8493); (8495, 8500);
   (8505, 8505); (8508, 8511); (8517, 8521); (8526, 8526); (8544, 8575); (8579, 8580);
   (9398, 9449); (11264, 11387); (11390, 11492); (11499, 11502); (11506, 11507); (11520, 11557);
   (11559, 11559); (11565, 11565); (42560, 42605); (42624, 42651); (42786, 42863); (42865, 42887);
   (42891, 42894); (42896, 42954); (42960, 42961); (42963, 42963); (42965, 42969); (42997, 42998);
   (43002, 43002); (43824, 43866); (43872, 43880); (43888, 43967); (64256, 64262); (64275, 64279);
   (65313, 65338); (65345, 65370); (66560, 66639); (66736, 66771); (66776, 66811); (66928, 66938);
   (66940, 66954); (66956, 66962); (66964, 66965); (66967, 66977); (66979, 66993); (66995, 67001);
   (67003, 67004); (68736, 68786); (68800, 68850); (71840, 71903); (93760, 93823); (119808, 119892);
   (119894, 119964); (119966, 119967); (119970, 119970); (119973, 119974); (119977, 119980); (119982, 119993);
   (119995, 119995); (119997, 120003); (120005, 120069); (120071, 120074); (120077, 120084); (120086, 120092);
   (120094, 120121); (120123, 120126); (120128, 120132); (120134, 120134); (120138, 120144); (120146, 120485);
   (120488, 120512); (120514, 120538); (120540, 120570); (120572, 120596); (120598, 120628); (120630, 120654);
   (120656, 120686); (120688, 120712); (120714, 120744); (120746, 120770); (120772, 120779); (122624, 122633);
   (122635, 122654); (125184, 125251); (127280, 127305); (127312, 127337); (127344, 127369)
  ]%N.

Definition caseIgnorableRanges : list (N * N) :=
  [
   (39, 39); (46, 46); (58, 58); (94, 94); (96, 96); (168, 168);
   (173, 173); (175, 175); (180, 180); (183, 184); (688, 879); (884, 885);
   (890, 890); (900, 901); (903, 903); (1155, 1161); (1369, 1369); (1375, 1375);
   (1425, 1469); (1471, 1471); (1473, 1474); (1476, 1477); (1479, 1479); (1524, 1524);
   (1536, 1541); (1552, 1562); (1564, 1564); (1600, 1600); (1611, 1631); (1648, 1648);
   (1750, 1757); (1759, 1768); (1770, 1773); (1807, 1807); (1809, 1809); (1840, 1866);
   (1958, 1968); (2027, 2037); (2042, 2042); (2045, 2045); (2070, 2093); (2137, 2139);
   (2184, 2184); (2192, 2193); (2200, 2207); (2249, 2306); (2362, 2362); (2364, 2364);
   (2369, 2376); (2381, 2381); (2385, 2391); (2402, 2403); (2417, 2417); (2433, 2433);
   (2492, 2492); (2497, 2500); (2509, 2509); (2530, 2531); (2558, 2558); (2561, 2562);
   (2620, 2620); (2625, 2626); (2631, 2632); (2635, 2637); (2641, 2641); (2672, 2673);
   (2677, 2677); (2689, 2690); (2748, 2748); (2753, 2757); (2759, 2760); (2765, 2765);
   (2786, 2787); (2810, 2815); (2817, 2817); (2876, 2876); (2879, 2879); (2881, 2884);
   (2893, 2893); (2901, 2902); (2914, 2915); (2946, 2946); (3008, 3008); (3021, 3021);
   (3072, 3072); (3076, 3076); (3132, 3132); (3134, 3136); (3142, 3144); (3146, 3149);
   (3157, 3158); (3170, 3171); (3201, 3201); (3260, 3260); (3263, 3263); (3270, 3270);
   (3276, 3277); (3298, 3299); (3328, 3329); (3387, 3388); (3393, 3396); (3405, 3405);
   (3426, 3427); (3457, 3457); (3530, 3530); (3538, 3540); (3542, 3542); (3633, 3633);
   (3636, 3642); (3654, 3662); (3761, 3761); (3764, 3772); (3782, 3782); (3784, 3789);
   (3864, 3865); (3893, 3893); (3895, 3895); (3897, 3897); (3953, 3966); (3968, 3972);
   (3974, 3975); (3981, 3991); (3993, 4028); (4038, 4038); (4141, 4144); (4146, 4151);
   (4153, 4154); (4157, 4158); (4184, 4185); (4190, 4192); (4209, 4212); (4226, 4226);
   (4229, 4230); (4237, 4237); (4253, 4253); (4348, 4348); (4957, 4959); (5906, 5908);
   (5938, 5939); (5970, 5971); (6002, 6003); (6068, 6069); (6071, 6077); (6086, 6086);
   (6089, 6099); (6103, 6103); (6109, 6109); (6155, 6159); (6211, 6211); (6277, 6278);
   (6313, 6313); (6432, 6434); (6439, 6440); (6450, 6450); (6457, 6459); (6679, 6680);
   (6683, 6683); (6742, 6742); (6744, 6750); (6752, 6752); (6754, 6754); (6757, 6764);
   (6771, 6780); (6783, 6783); (6823, 6823); (6832, 6862); (6912, 6915); (6964, 6964);
   (6966, 6970); (6972, 6972); (6978, 6978); (7019, 7027); (7040, 7041); (7074, 7077);
   (7080, 7081); (7083, 7085); (7142, 7142); (7144, 7145); (7149, 7149); (7151, 7153);
   (7212, 7219); (7222, 7223); (7288, 7293); (7376, 7378); (7380, 7392); (7394, 7400);
   (7405, 7405); (7412, 7412); (7416, 7417); (7468, 7530); (7544, 7544); (7579, 7679);
   (8125, 8125); (8127, 8129); (8141, 8143); (8157, 8159); (8173, 8175); (8189, 8190);
   (8203, 8207); (8216, 8217); (8228, 8228); (8231, 8231); (8234, 8238); (8288, 8292);
   (8294, 8303); (8305, 8305); (8319, 8319); (8336, 8348); (8400, 8432); (11388, 11389);
   (11503, 11505); (11631, 11631); (11647, 11647); (11744, 11775); (11823, 11823); (12293, 12293);
   (12330, 12333); (12337, 12341); (12347, 12347); (12441, 12446); (12540, 12542); (40981, 40981);
   (42232, 42237); (42508, 42508); (42607, 42610); (42612, 42621); (42623, 42623); (42652, 42655);
   (42736, 42737); (42752, 42785); (42864, 42864); (42888, 42890); (42994, 42996); (43000, 43001);
   (43010, 43010); (43014, 43014); (43019, 43019); (43045, 43046); (43052, 43052); (43204, 43205);
   (43232, 43249); (43263, 43263); (43302, 43309); (43335, 43345); (43392, 43394); (43443, 43443);
   (43446, 43449); (43452, 43453); (43471, 43471); (43493, 43494); (43561, 43566); (43569, 43570);
   (43573, 43574); (43587, 43587); (43596, 43596); (43632, 43632); (43644, 43644); (43696, 43696);
   (43698, 43700); (43703, 43704); (43710, 43711); (43713, 43713); (43741, 43741); (43756, 43757);
   (43763, 43764); (43766, 43766); (43867, 43871); (43881, 43883); (44005, 44005); (44008, 44008);
   (44013, 44013); (64286, 64286); (64434, 64450); (65024, 65039); (65043, 65043); (65056, 65071);
   (65106, 65106); (65109, 65109); (65279, 65279); (65287, 65287); (65294, 65294); (65306, 65306);
   (65342, 65342); (65344, 65344); (65392, 65392); (65438, 65439); (65507, 65507); (65529, 65531);
   (66045, 66045); (66272, 66272); (66422, 66426); (67456, 67461); (67463, 67504); (67506, 67514);
   (68097, 68099); (68101, 68102); (68108, 68111); (68152, 68154); (68159, 68159); (68325, 68326);
   (68900, 68903); (69291, 69292); (69446, 69456); (69506, 69509); (69633, 69633); (69688, 69702);
   (69744, 69744); (69747, 69748); (69759, 69761); (69811, 69814); (69817, 69818); (69821, 69821);
   (69826, 69826); (69837, 69837); (69888, 69890); (69927, 69931); (69933, 69940); (70003, 70003);
   (70016, 70017); (70070, 70078); (70089, 70092); (70095, 70095); (70191, 70193); (70196, 70196);
   (70198, 70199); (70206, 70206); (70367, 70367); (70371, 70378); (70400, 70401); (70459, 70460);
   (70464, 70464); (70502, 70508); (70512, 70516); (70712, 70719); (70722, 70724); (70726, 70726);
   (70750, 70750); (70835, 70840); (70842, 70842); (70847, 70848); (70850, 70851); (71090, 71093);
   (71100, 71101); (71103, 71104); (71132, 71133); (71219, 71226); (71229, 71229); (71231, 71232);
   (71339, 71339); (71341, 71341); (71344, 71349); (71351, 71351); (71453, 71455); (71458, 71461);
   (71463, 71467); (71727, 71735); (71737, 71738); (71995, 71996); (71998, 71998); (72003, 72003);
   (72148, 72151); (72154, 72155); (72160, 72160); (72193, 72202); (72243, 72248); (72251, 72254);
   (72263, 72263); (72273, 72278); (72281, 72283); (72330, 72342); (72344, 72345); (72752, 72758);
   (72760, 72765); (72767, 72767); (72850, 72871); (72874, 72880); (72882, 72883); (72885, 72886);
   (73009, 73014); (73018, 73018); (73020, 73021); (73023, 73029); (73031, 73031); (73104, 73105);
   (73109, 73109); (73111, 73111); (73459, 73460); (78896, 78904); (92912, 92916); (92976, 92982);
   (92992, 92995); (94031, 94031); (94095, 94111); (94176, 94177); (94179, 94180); (110576, 110579);
   (110581, 110587); (110589, 110590); (113821, 113822); (113824, 113827); (118528, 118573); (118576, 118598);
   (119143, 119145); (119155, 119170); (119173, 119179); (119210, 119213); (119362, 119364); (121344, 121398);
   (121403, 121452); (121461, 121461); (121476, 121476); (121499, 121503); (121505, 121519); (122880, 122886);
   (122888, 122904); (122907, 122913); (122915, 122916); (122918, 122922); (123184, 123197); (123566, 123566);
   (123628, 123631); (125136, 125142); (125252, 125259); (127995, 127999); (917505, 917505); (917536, 917631);
   (917760, 917999)
  ]%N.

Definition inRanges (l : list (N * N)) (cp : N) : bool :=
  existsb (fun p => ((fst p <=? cp) && (cp <=? snd p))%N) l.

Definition cased : N -> bool := inRanges casedRanges.
Definition caseIgnorable : N -> bool := inRanges caseIgnorableRanges.

Definition simpleLower (cp : N) : N :=
  match find (fun q => let '(first, last, step, _) := q in
                       ((first <=? cp) && (cp <=? last)
                        && ((cp - first) mod step =? 0))%N) lowerRuns with
  | Some (first, _, _, image) => (image + (cp - first))%N
  | None => cp
  end.

(** No cased letter follows, case-ignorable characters apart. *)
Fixpoint endsWord (rest : list Unit) : bool :=
  match rest with
  | Point cp :: r => if caseIgnorable cp then endsWord r else negb (cased cp)
  | _ => true
  end.

(** The default case conversion: [afterCased] tells whether the last
    character before, case-ignorable ones apart, is a cased letter.  Capital
    sigma becomes the final sigma at the end of a word, and the dotted
    capital I two characters. *)
Fixpoint lowerUnits (afterCased : bool) (l : list Unit) : list Unit :=
  match l with
  | [] => []
  | Stray c :: r => Stray c :: lowerUnits false r
  | Point cp :: r =>
      let out :=
        if (cp <? 128)%N
        then [Point (if ((65 <=? cp) && (cp <=? 90))%N then cp + 32 else cp)%N]
        else if (cp =? 304)%N then [Point 105%N; Point 775%N]
        else if (cp =? 931)%N
        then [Point (if afterCased && endsWord r then 962 else 963)%N]
        else [Point (simpleLower cp)] in
      (out ++ lowerUnits (if caseIgnorable cp then afterCased else cased cp) r)%list
  end.

(** [s.toLowerCase()] *)
Definition toLowerCase (s : string) : string :=
  string_of_list_ascii (encode (lowerUnits false (decode (list_ascii_of_string s)))).

(** [haystack.includes(needle)] *)
Fixpoint includes (haystack needle : string) : bool :=
  if prefix needle haystack then true
  else match haystack with
       | EmptyString => false
       | String _ r => includes r needle
       end.

Definition string_of_pos (p : positive) : string :=
  NilEmpty.string_of_uint (Pos.to_uint p).

Definition string_of_N (n : N) : string :=
  match n with
  | N0 => "0"
  | Npos p => string_of_pos p
  end.

Definition string_of_nat (n : nat) : string := string_of_N (N.of_nat n).

Fixpoint repeat_char (c : ascii) (n : nat) : string :=
  match n with
  | O => EmptyString
  | S k => String c (repeat_char c k)
  end.

(** *** Number::toString (radix 10) *)

(** [n] with [10^(n-1) <= p/q < 10^n]. *)
Fixpoint scale_up (fuel : nat) (p q : positive) (j : Z) : Z :=
  match fuel with
  | O => j
  | S f => if (q <=? p)%positive then j else scale_up f (p * 10) q (j - 1)
  end.

Definition decimal_exponent (p q : positive) : Z :=
  if (q <=? p)%positive
  then Z.of_nat (String.length (string_of_pos (Z.to_pos (Zpos p / Zpos q))))
  else scale_up 400 p q 1.

(** The shortest digit string [s] (of [k] digits) and exponent [n] with
    [s * 10^(n-k)] rounding to [x = p/q]. *)
Fixpoint shortest_digits (fuel : nat) (x : float) (p q : positive) (n0 : Z) (k : Z)
  : Z * Z :=
  let num := if (0 <=? k - n0)%Z then (Zpos p * 10 ^ (k - n0))%Z else Zpos p in
  let den := if (0 <=? k - n0)%Z then Zpos q else (Zpos q * 10 ^ (n0 - k))%Z in
  let lo := (num / den)%Z in
  let hi := (lo + 1)%Z in
  let ok_lo := PrimFloat.eqb (decimal_to_float false lo (n0 - k)) x in
  let ok_hi := PrimFloat.eqb (decimal_to_float false hi (n0 - k)) x in
  let rem2 := (2 * (num - lo * den))%Z in
  let pick_hi :=
    ok_hi && (negb ok_lo || (den <? rem2)%Z || ((den =? rem2)%Z && Z.odd lo)) in
  let fix_carry (s : Z) := if (s =? 10 ^ k)%Z then (10 ^ (k - 1), n0 + 1)%Z else (s, n0) in
  match fuel with
  | O => fix_carry lo
  | S f =>
      if pick_hi then fix_carry hi
      else if ok_lo then fix_carry lo
      else shortest_digits f x p q n0 (k + 1)
  end.

Definition string_of_Z_digits (s : Z) : string :=
  match s with
  | Zpos p => string_of_pos p
  | _ => "0"
  end.

Definition format_number (s n : Z) : string :=
  let digits := string_of_Z_digits s in
  let k := Z.of_nat (String.length digits) in
  if ((-5 <=? n) && (n <=? 21))%Z then
    if (k <=? n)%Z then digits ++ repeat_char "0" (Z.to_nat (n - k))
    else if (0 <? n)%Z then
      substring 0 (Z.to_nat n) digits ++ "." ++
      substring (Z.to_nat n) (Z.to_nat (k - n)) digits
    else "0." ++ repeat_char "0" (Z.to_nat (- n)) ++ digits
  else
    let e := (n - 1)%Z in
    let exp := (if (e <? 0)%Z then "-" else "+") ++ string_of_Z_digits (Z.abs e) in
    if (k =? 1)%Z then digits ++ "e" ++ exp
    else substring 0 1 digits ++ "." ++
         substring 1 (Z.to_nat (k - 1)) digits ++ "e" ++ exp.

Definition Number_toString (x : float) : string :=
  match Prim2SF x with
  | S754_nan => "NaN"
  | S754_zero _ => "0"
  | S754_infinity s => if s then "-Infinity" else "Infinity"
  | S754_finite s m e =>
      let p := match e with Zpos k => (m * Pos.pow 2 k)%positive | _ => m end in
      let q := match e with Zneg k => Pos.pow 2 k | _ => 1%positive end in
      let '(d, n) := shortest_digits 17 (abs x) p q (decimal_exponent p q) 1 in
      (if s then "-" else "") ++ format_number d n
  end.

(** *** StringToNumber *)

(** White space and line terminators: tab, line feed, vertical tab, form
    feed, carriage return, the space separators, the line and paragraph
    separators and the byte order mark. *)
Definition is_ws (u : Unit) : bool :=
  match u with
  | Point cp =>
      existsb (N.eqb cp)
        [9; 10; 11; 12; 13; 32; 160; 5760; 8232; 8233; 8239; 8287; 12288; 65279]%N
      || ((8192 <=? cp) && (cp <=? 8202))%N
  | Stray _ => false
  end.

Fixpoint trim_start (l : list Unit) : list Unit :=
  match l with
  | u :: r => if is_ws u then trim_start r else l
  | [] => []
  end.

Definition trim (l : list ascii) : list ascii :=
  encode (rev (trim_start (rev (trim_start (decode l))))).

Definition digit_in (radix : nat) (c : ascii) : option Z :=
  let n := nat_of_ascii c in
  let v :=
    if ((48 <=? n) && (n <=? 57))%nat then Some (n - 48)%nat
    else if ((97 <=? n) && (n <=? 102))%nat then Some (n - 87)%nat
    else if ((65 <=? n) && (n <=? 70))%nat then Some (n - 55)%nat
    else None in
  match v with
  | Some d => if (d <? radix)%nat then Some (Z.of_nat d) else None
  | None => None
  end.

(** Reads the longest run of digits: its value, its length and what follows. *)
Fixpoint read_digits (radix : nat) (l : list ascii) (acc : Z) (len : nat)
  : Z * nat * list ascii :=
  match l with
  | c :: r =>
      match digit_in radix c with
      | Some d => read_digits radix r (acc * Z.of_nat radix + d)%Z (S len)
      | None => (acc, len, l)
      end
  | [] => (acc, len, [])
  end.

Definition read_sign (l : list ascii) : bool * list ascii :=
  match l with
  | "-"%char :: r => (true, r)
  | "+"%char :: r => (false, r)
  | _ => (false, l)
  end.

Definition read_exponent (l : list ascii) : option Z :=
  match l with
  | [] => Some 0%Z
  | c :: r =>
      if (Ascii.eqb c "e" || Ascii.eqb c "E")%bool then
        let '(neg, r1) := read_sign r in
        match read_digits 10 r1 0 0 with
        | (_, O, _) => None
        | (v, _, []) => Some (if neg then - v else v)%Z
        | _ => None
        end
      else None
  end.

Definition unsigned_decimal (neg : bool) (l : list ascii) : float :=
  if list_eq_dec ascii_dec l (list_ascii_of_string "Infinity")
  then (if neg then neg_infinity else infinity)
  else
    let '(ip, ilen, r1) := read_digits 10 l 0 0 in
    let '(fp, flen, r2) :=
      match r1 with
      | "."%char :: r => read_digits 10 r ip 0
      | _ => (ip, O, r1)
      end in
    let dotted := match r1 with "."%char :: _ => true | _ => false end in
    if ((ilen + flen =? 0)%nat || (negb dotted && (ilen =? 0)%nat))%bool then nan
    else
      match read_exponent r2 with
      | Some e => decimal_to_float neg fp (e - Z.of_nat flen)
      | None => nan
      end.

Definition radix_literal (radix : nat) (l : list ascii) : float :=
  match read_digits radix l 0 0 with
  | (_, O, _) => nan
  | (v, _, []) => Z2float v
  | _ => nan
  end.

Definition StringToNumber (s : string) : float :=
  match trim (list_ascii_of_string s) with
  | [] => zero
  | "0"%char :: c :: r =>
      if (Ascii.eqb c "x" || Ascii.eqb c "X")%bool then radix_literal 16 r
      else if (Ascii.eqb c "o" || Ascii.eqb c "O")%bool then radix_literal 8 r
      else if (Ascii.eqb c "b" || Ascii.eqb c "B")%bool then radix_literal 2 r
      else unsigned_decimal false ("0"%char :: c :: r)
  | l => let '(neg, r) := read_sign l in unsigned_decimal neg r
  end.

(** *** Conversions and operators *)

(** [Number(v)] *)
Definition ToNumber (v : Value) : float :=
  match v with
  | VUndefined => nan
  | VNull => zero
  | VBool b => if b then one else zero
  | VNum x => x
  | VStr s => StringToNumber s
  | VBuiltin _ => nan
  end.

(** [String(v)] *)
Definition ToString (v : Value) : string :=
  match v with
  | VUndefined => "undefined"
  | VNull => "null"
  | VBool b => if b then "true" else "false"
  | VNum x => Number_toString x
  | VStr s => s
  | VBuiltin name =>
      if String.eqb name "__proto__" then "[object Object]"
      else "function " ++ (if String.eqb name "constructor" then "Object" else name)
           ++ "() { [native code] }"
  end.

(** [a === b] *)
Definition strict_eq (a b : Value) : bool :=
  match a, b with
  | VUndefined, VUndefined => true
  | VNull, VNull => true
  | VBool x, VBool y => Bool.eqb x y
  | VNum x, VNum y => PrimFloat.eqb x y
  | VStr x, VStr y => String.eqb x y
  | VBuiltin x, VBuiltin y => String.eqb x y
  | _, _ => false
  end.

(** [a ?? b] *)
Definition nullish (a b : Value) : Value :=
  match a with
  | VUndefined | VNull => b
  | _ => a
  end.

End Js.

Import Js.

(** ** Plain objects as ordered records *)

Module Obj.

Section Properties.
Context {V : Type}.

Definition t : Type := list (string * V).

Fixpoint lookup (o : t) (k : string) : option V :=
  match o with
  | [] => None
  | (k', v) :: r => if String.eqb k' k then Some v else lookup r k
  end.

(** [k in o], for own properties *)
Definition has (o : t) (k : string) : bool :=
  match lookup o k with
  | Some _ => true
  | None => false
  end.

(** [Object.keys(o)] and [Object.entries(o)] *)
Definition keys (o : t) : list string := map fst o.
Definition entries (o : t) : list (string * V) := o.

(** An array index is the canonical decimal form of an integer below
    [2^32 - 1]; such keys are enumerated first, in numeric order. *)
Definition array_index (k : string) : option N :=
  match read_digits 10 (list_ascii_of_string k) 0 0 with
  | (v, S _, []) =>
      if (String.eqb (string_of_N (Z.to_N v)) k && (v <=? 4294967294)%Z)%bool
      then Some (Z.to_N v) else None
  | _ => None
  end.

Fixpoint replace (o : t) (k : string) (v : V) : t :=
  match o with
  | [] => []
  | (k', v') :: r =>
      if String.eqb k' k then (k, v) :: r else (k', v') :: replace r k v
  end.

Fixpoint insert_index (o : t) (i : N) (k : string) (v : V) : t :=
  match o with
  | [] => [(k, v)]
  | (k', v') :: r =>
      match array_index k' with
      | Some j => if (j <? i)%N then (k', v') :: insert_index r i k v
                  else (k, v) :: o
      | None => (k, v) :: o
      end
  end.

(** The own property [k] written, whatever its name: [o[k] = v] for a name
    the prototype has no accessor for. *)
Definition put (o : t) (k : string) (v : V) : t :=
  match lookup o k with
  | Some _ => replace o k v
  | None =>
      match array_index k with
      | Some i => insert_index o i k v
      | None => (o ++ [(k, v)])%list
      end
  end.

(** [o[k] = v].  An own property is overwritten.  Otherwise [__proto__] is
    the accessor of [Object.prototype], which makes no property; any other
    name becomes an own property. *)
Definition set (o : t) (k : string) (v : V) : t :=
  if negb (has o k) && String.eqb k "__proto__" then o else put o k v.

End Properties.

Arguments t V : clear implicits.

(** The names [Object.prototype] has a member for. *)
Definition prototypeNames : list string :=
  ["constructor"; "__defineGetter__"; "__defineSetter__"; "hasOwnProperty";
   "__lookupGetter__"; "__lookupSetter__"; "isPrototypeOf"; "propertyIsEnumerable";
   "toString"; "valueOf"; "__proto__"; "toLocaleString"].

Definition inPrototype (k : string) : bool := existsb (String.eqb k) prototypeNames.

(** What an object without the own property [k] reads under [k]. *)
Definition inherited (k : string) : Value :=
  if inPrototype k then VBuiltin k else VUndefined.

(** [o[k]]: the own property, or what the prototype holds. *)
Definition get (o : t Value) (k : string) : Value :=
  match lookup o k with
  | Some v => v
  | None => inherited k
  end.

End Obj.

(** ** Exceptions *)

Inductive Error : Type :=
| UnknownOperator (op : string)
| ColumnNotFound (column : string) (available : list string).

Inductive result (A : Type) : Type :=
| Ok (a : A)
| Throw (e : Error).

Arguments Ok {A} a.
Arguments Throw {A} e.

Definition bind {A B} (r : result A) (k : A -> result B) : result B :=
  match r with
  | Ok a => k a
  | Throw e => Throw e
  end.

Notation "x <- r ;; k" := (bind r (fun x => k))
  (at level 61, r at next level, right associativity).

(** [Error.message] *)
Definition message (e : Error) : string :=
  match e with
  | UnknownOperator op => "Unknown operator: " ++ op
  | ColumnNotFound c available =>
      "Column '" ++ c ++ "' not found. Available: " ++ String.concat ", " available
  end.

(** ** [src/lib/numbers.ts] *)

Definition TableRow : Type := Obj.t Value.

(** A [where] entry: a literal compared with [===], or [{ op, value }]. *)
Inductive Condition : Type :=
| Literal (v : Value)
| Operator (op : string) (value : Value).

Definition WhereCondition : Type := list (string * Condition).

Record Table : Type := mkTable {
  headers : list string;
  rows : list TableRow
}.

(** The array of arrays [sheet_to_json(ws, { header: 1, defval: null })]
    yields and [aoa_to_sheet] consumes. *)
Definition Aoa : Type := list (list Value).

Fixpoint mapi_from {A B} (f : A -> nat -> B) (i : nat) (l : list A) : list B :=
  match l with
  | [] => []
  | a :: r => f a i :: mapi_from f (S i) r
  end.

Definition headerName (h : Value) (i : nat) : string :=
  match h with
  | VUndefined | VNull => "Column" ++ string_of_nat (i + 1)
  | _ => ToString h
  end.

(** The inner loop of [sheetToTable]: [row[headers[j]] = aoa[i]?.[j] ?? null],
    the header names being column names. *)
Fixpoint rowOfCells (hs : list string) (cells : list Value) (j : nat) (row : TableRow)
  : TableRow :=
  match hs with
  | [] => row
  | h :: r => rowOfCells r cells (S j) (Obj.put row h (nullish (nth j cells VUndefined) VNull))
  end.

Definition sheetToTable (aoa : Aoa) : Table :=
  match aoa with
  | [] => mkTable [] []
  | first :: rest =>
      let headers := mapi_from headerName 0 first in
      mkTable headers (map (fun cells => rowOfCells headers cells 0 []) rest)
  end.

Definition filterColumns (rows : list TableRow) (columns : list string) : list TableRow :=
  map (fun row =>
         fold_left (fun filtered col => Obj.set filtered col (Obj.get row col)) columns [])
      rows.

(** [items.slice(start, end)] for integral bounds. *)
Definition slice {A} (items : list A) (start end_ : Z) : list A :=
  let len := Z.of_nat (List.length items) in
  let k := if (start <? 0)%Z then Z.max (len + start) 0 else Z.min start len in
  let final := if (end_ <? 0)%Z then Z.max (len + end_) 0 else Z.min end_ len in
  firstn (Z.to_nat (Z.max (final - k) 0)) (skipn (Z.to_nat k) items).

(** [limit] and [offset] are integers when present; [0] is falsy. *)
Definition truthyZ (n : option Z) : option Z :=
  match n with
  | Some z => if (z =? 0)%Z then None else Some z
  | None => None
  end.

Record Page (A : Type) : Type := mkPage {
  items : list A;
  hasMore : bool
}.

Arguments mkPage {A} items hasMore.
Arguments items {A} p.
Arguments hasMore {A} p.

Definition paginate {A} (l : list A) (limit offset : option Z) : Page A :=
  let start := match truthyZ offset with Some o => o | None => 0%Z end in
  let end_ := match truthyZ limit with
              | Some n => (start + n)%Z
              | None => Z.of_nat (List.length l)
              end in
  mkPage (slice l start end_) (end_ <? Z.of_nat (List.length l))%Z.

Fixpoint matchesCondition (row : TableRow) (where_ : WhereCondition) : result bool :=
  match where_ with
  | [] => Ok true
  | (column, condition) :: rest =>
      let value := Obj.get row column in
      match condition with
      | Operator op condValue =>
          if String.eqb op "contains" then
            if negb (includes (toLowerCase (ToString value)) (toLowerCase (ToString condValue)))
            then Ok false else matchesCondition row rest
          else if String.eqb op "gt" then
            if negb (PrimFloat.ltb (ToNumber condValue) (ToNumber value))
            then Ok false else matchesCondition row rest
          else if String.eqb op "gte" then
            if negb (PrimFloat.leb (ToNumber condValue) (ToNumber value))
            then Ok false else matchesCondition row rest
          else if String.eqb op "lt" then
            if negb (PrimFloat.ltb (ToNumber value) (ToNumber condValue))
            then Ok false else matchesCondition row rest
          else if String.eqb op "lte" then
            if negb (PrimFloat.leb (ToNumber value) (ToNumber condValue))
            then Ok false else matchesCondition row rest
          else if String.eqb op "ne" then
            if strict_eq value condValue then Ok false else matchesCondition row rest
          else Throw (UnknownOperator op)
      | Literal c =>
          if negb (strict_eq value c) then Ok false else matchesCondition row rest
      end
  end.

(** [rows.filter((row) => matchesCondition(row, where))] *)
Fixpoint findRows (rows : list TableRow) (where_ : WhereCondition)
  : result (list TableRow) :=
  match rows with
  | [] => Ok []
  | row :: rest =>
      b <- matchesCondition row where_ ;;
      l <- findRows rest where_ ;;
      Ok (if b then row :: l else l)
  end.

Record Options : Type := mkOptions {
  columns : option (list string);
  limit : option Z;
  offset : option Z
}.

Definition columnsGiven (o : Options) : option (list string) :=
  match columns o with
  | Some (c :: cs) => Some (c :: cs)
  | _ => None
  end.

Record TableData : Type := mkTableData {
  td_headers : list string;
  td_rows : list TableRow;
  td_rowCount : nat;
  td_totalRows : nat;
  td_hasMore : bool
}.

Definition getTableData (aoa : Aoa) (options : Options) : TableData :=
  let t := sheetToTable aoa in
  let totalRows := List.length (rows t) in
  let '(headers, rows) :=
    match columnsGiven options with
    | Some cols =>
        (filter (fun c => existsb (String.eqb c) (headers t)) cols,
         filterColumns (rows t) cols)
    | None => (headers t, rows t)
    end in
  let p := paginate rows (limit options) (offset options) in
  mkTableData headers (items p) (List.length (items p)) totalRows (hasMore p).

Record FindResult : Type := mkFindResult {
  fr_rows : list TableRow;
  fr_count : nat;
  fr_totalMatches : nat;
  fr_hasMore : bool
}.

Definition findTableRows (aoa : Aoa) (where_ : WhereCondition) (options : Options)
  : result FindResult :=
  let t := sheetToTable aoa in
  matched <- findRows (rows t) where_ ;;
  let totalMatches := List.length matched in
  let filteredRows :=
    match columnsGiven options with
    | Some cols => filterColumns matched cols
    | None => matched
    end in
  let p := paginate filteredRows (limit options) (offset options) in
  Ok (mkFindResult (items p) (List.length (items p)) totalMatches (hasMore p)).

(** [for (const [col, val] of Object.entries(set)) row[col] = val] *)
Definition assign (row : TableRow) (set_ : Obj.t Value) : TableRow :=
  fold_left (fun r e => Obj.set r (fst e) (snd e)) (Obj.entries set_) row.

(** [[headers, ...rows.map((row) => headers.map((h) => row[h]))]] *)
Definition toAoa (hs : list string) (rs : list TableRow) : Aoa :=
  map VStr hs :: map (fun row => map (fun h => Obj.get row h) hs) rs.

(** The loop of [updateTableRows] over the rows, mutating them in place. *)
Fixpoint updateLoop (rs : list TableRow) (where_ : WhereCondition) (set_ : Obj.t Value)
  (updatedCount : nat) : result (list TableRow * nat) :=
  match rs with
  | [] => Ok ([], updatedCount)
  | row :: rest =>
      b <- matchesCondition row where_ ;;
      p <- updateLoop rest where_ set_ (if b then S updatedCount else updatedCount) ;;
      Ok ((if b then assign row set_ else row) :: fst p, snd p)
  end.

(** What a mutation leaves behind: the rows in memory, the sheet it writes. *)
Record UpdateResult : Type := mkUpdateResult {
  ur_table : Table;
  ur_newAoa : Aoa;
  updatedCount : nat
}.

Definition updateTableRows (aoa : Aoa) (where_ : WhereCondition) (set_ : Obj.t Value)
  : result UpdateResult :=
  let t := sheetToTable aoa in
  p <- updateLoop (rows t) where_ set_ 0 ;;
  Ok (mkUpdateResult (mkTable (headers t) (fst p)) (toAoa (headers t) (fst p)) (snd p)).

(** [new Set(...)] and [Set.prototype.add], in insertion order. *)
Definition set_add (s : list string) (k : string) : list string :=
  if existsb (String.eqb k) s then s else (s ++ [k])%list.

Definition Set_of (l : list string) : list string := fold_left set_add l [].

Record AddResult : Type := mkAddResult {
  ar_table : Table;
  ar_newAoa : Aoa;
  addedCount : nat;
  totalRows : nat
}.

Definition addTableRows (aoa : Aoa) (newRows : TableRow + list TableRow) : AddResult :=
  let t := sheetToTable aoa in
  let rowsToAdd := match newRows with inl row => [row] | inr l => l end in
  let allHeaders :=
    fold_left (fun all row => fold_left set_add (Obj.keys row) all)
              rowsToAdd (Set_of (headers t)) in
  let finalHeaders := allHeaders in
  let rows' := (rows t ++ rowsToAdd)%list in
  mkAddResult
    (mkTable finalHeaders rows')
    (map VStr finalHeaders
       :: map (fun row => map (fun h => nullish (Obj.get row h) VNull) finalHeaders) rows')
    (List.length rowsToAdd) (List.length rows').

(** [rows.filter((row) => !matchesCondition(row, where))] *)
Fixpoint remainingRows (rs : list TableRow) (where_ : WhereCondition)
  : result (list TableRow) :=
  match rs with
  | [] => Ok []
  | row :: rest =>
      b <- matchesCondition row where_ ;;
      l <- remainingRows rest where_ ;;
      Ok (if negb b then row :: l else l)
  end.

Record DeleteResult : Type := mkDeleteResult {
  dr_newAoa : Aoa;
  deletedCount : nat;
  dr_remainingRows : nat
}.

Definition deleteTableRows (aoa : Aoa) (where_ : WhereCondition) : result DeleteResult :=
  let t := sheetToTable aoa in
  remaining <- remainingRows (rows t) where_ ;;
  Ok (mkDeleteResult (toAoa (headers t) remaining)
        (List.length (rows t) - List.length remaining) (List.length remaining)).

Record Update : Type := mkUpdate {
  u_where : WhereCondition;
  u_set : Obj.t Value
}.

Record Detail : Type := mkDetail {
  d_where : WhereCondition;
  matched : nat
}.

(** The inner loop of [batchUpdateTableRows]: one pair over all the rows. *)
Fixpoint batchInner (rs : list TableRow) (where_ : WhereCondition) (set_ : Obj.t Value)
  (matched totalUpdated : nat) : result (list TableRow * (nat * nat)) :=
  match rs with
  | [] => Ok ([], (matched, totalUpdated))
  | row :: rest =>
      b <- matchesCondition row where_ ;;
      p <- batchInner rest where_ set_
             (if b then S matched else matched)
             (if b then S totalUpdated else totalUpdated) ;;
      Ok ((if b then assign row set_ else row) :: fst p, snd p)
  end.

(** The outer loop: the pairs in array order over the same row objects. *)
Fixpoint batchLoop (rs : list TableRow) (updates : list Update)
  (totalUpdated : nat) (details : list Detail)
  : result (list TableRow * (nat * list Detail)) :=
  match updates with
  | [] => Ok (rs, (totalUpdated, details))
  | u :: rest =>
      p <- batchInner rs (u_where u) (u_set u) 0 totalUpdated ;;
      batchLoop (fst p) rest (snd (snd p))
                (details ++ [mkDetail (u_where u) (fst (snd p))])%list
  end.

Record BatchResult : Type := mkBatchResult {
  br_table : Table;
  br_newAoa : Aoa;
  br_updatedCount : nat;
  br_details : list Detail
}.

Definition batchUpdateTableRows (aoa : Aoa) (updates : list Update) : result BatchResult :=
  let t := sheetToTable aoa in
  p <- batchLoop (rows t) updates 0 [] ;;
  Ok (mkBatchResult (mkTable (headers t) (fst p)) (toAoa (headers t) (fst p))
        (fst (snd p)) (snd (snd p))).

(** ** [src/lib/applescript.ts] *)

(** A [Map] keyed by strings: insertion order, [set] on a present key keeps
    its place. *)
Module JsMap.

Section Ops.
Context {V : Type}.

Definition t : Type := list (string * V).

Definition get (m : t) (k : string) : option V := Obj.lookup m k.
Definition has (m : t) (k : string) : bool := Obj.has m k.

Definition set (m : t) (k : string) (v : V) : t :=
  if Obj.has m k then Obj.replace m k v else (m ++ [(k, v)])%list.

Definition keys (m : t) : list string := map fst m.
Definition values (m : t) : list V := map snd m.

End Ops.

Arguments t V : clear implicits.

End JsMap.

Record RGBColor : Type := mkRGB {
  r : float;
  g : float;
  b : float
}.

Local Open Scope float_scope.

Definition toNumbersColor (color : RGBColor) : RGBColor :=
  mkRGB (Math_round ((r color / 255) * 65535))
        (Math_round ((g color / 255) * 65535))
        (Math_round ((b color / 255) * 65535)).

Definition fromNumbersColor (r g b : float) : RGBColor :=
  mkRGB (Math_round ((r / 65535) * 255))
        (Math_round ((g / 65535) * 255))
        (Math_round ((b / 65535) * 255)).

Definition isWhiteOrDefault (color : RGBColor) : bool :=
  (250 <=? r color) && (250 <=? g color) && (250 <=? b color).

(** One turn of the loop of [getRowColors] over the colour triples read back
    from the application: a near-white row counts as uncoloured. *)
Definition readColor (r g b : float) : option RGBColor :=
  let color := fromNumbersColor r g b in
  if isWhiteOrDefault color then None else Some color.

Definition colorKey (color : RGBColor) : string :=
  let r := Math_round (r color / 10) * 10 in
  let g := Math_round (g color / 10) * 10 in
  let b := Math_round (b color / 10) * 10 in
  (Number_toString r ++ "," ++ Number_toString g ++ "," ++ Number_toString b)%string.

Local Close Scope float_scope.

(** *** Cell values in a script *)

Definition dquote : ascii := ascii_of_nat 34.
Definition backslash : ascii := ascii_of_nat 92.

(** The [replace] of [formattedValue]: a backslash goes before each double
    quote of the string. *)
Fixpoint escapeQuotes (s : string) : string :=
  match s with
  | EmptyString => EmptyString
  | String c rest =>
      if Ascii.eqb c dquote then String backslash (String dquote (escapeQuotes rest))
      else String c (escapeQuotes rest)
  end.

(** [formattedValue] of [setCellValue] and [updateCellsBatch]: the text a
    cell value is written as in the script. *)
Definition formattedValue (value : Value) : string :=
  match value with
  | VNull | VUndefined => String dquote (String dquote EmptyString)
  | VNum n => Number_toString n
  | VBool bv => if bv then "true" else "false"
  | VStr s => String dquote (escapeQuotes s ++ String dquote EmptyString)
  | VBuiltin _ =>
      String dquote (escapeQuotes (ToString value) ++ String dquote EmptyString)
  end.

(** [headers.indexOf(col)] *)
Fixpoint indexOf (l : list string) (k : string) : option nat :=
  match l with
  | [] => None
  | x :: rest => if String.eqb x k then Some O
                 else option_map S (indexOf rest k)
  end.

Record CellUpdate : Type := mkCellUpdate {
  rowIndex : nat;
  colIndex : nat;
  cu_value : Value
}.

(** 1-based column numbers of the given columns, or the first one missing;
    a column that gets a number is a header name. *)
Fixpoint columnIndices (hs : list string) (cols : list string) (acc : Obj.t nat)
  : result (Obj.t nat) :=
  match cols with
  | [] => Ok acc
  | col :: rest =>
      match indexOf hs col with
      | None => Throw (ColumnNotFound col hs)
      | Some idx => columnIndices hs rest (Obj.put acc col (idx + 1))
      end
  end.

(** The cell commands one matching row receives; [colIndices[col]] is always
    defined once [columnIndices] has succeeded. *)
Definition cellsFor (colIndices : Obj.t nat) (i : nat) (set_ : Obj.t Value)
  : list CellUpdate :=
  map (fun e => mkCellUpdate (i + 2)
                  (match Obj.lookup colIndices (fst e) with Some n => n | None => 0 end)
                  (snd e))
      (Obj.entries set_).

Fixpoint transportLoop (rs : list TableRow) (i : nat) (where_ : WhereCondition)
  (set_ : Obj.t Value) (colIndices : Obj.t nat) (updates : list CellUpdate)
  (matched : nat) : result (list CellUpdate * nat) :=
  match rs with
  | [] => Ok (updates, matched)
  | row :: rest =>
      b <- matchesCondition row where_ ;;
      transportLoop rest (S i) where_ set_ colIndices
        (if b then updates ++ cellsFor colIndices i set_ else updates)%list
        (if b then S matched else matched)
  end.

Record TransportResult : Type := mkTransportResult {
  tr_cells : list CellUpdate;
  tr_updatedCount : nat
}.

Definition updateRowsViaAppleScript (aoa : Aoa) (where_ : WhereCondition)
  (set_ : Obj.t Value) : result TransportResult :=
  let t := sheetToTable aoa in
  colIndices <- columnIndices (headers t) (Obj.keys set_) [] ;;
  p <- transportLoop (rows t) 0 where_ set_ colIndices [] 0 ;;
  let updates := fst p in
  match updates with
  | [] => Ok (mkTransportResult [] 0)
  | _ => Ok (mkTransportResult updates
               (List.length updates / List.length (Obj.keys set_)))
  end.

Fixpoint batchTransportLoop (rs : list TableRow) (updatesList : list Update)
  (colIndices : Obj.t nat) (cellUpdates : list CellUpdate) (details : list Detail)
  (totalUpdated : nat) : result (list CellUpdate * (list Detail * nat)) :=
  match updatesList with
  | [] => Ok (cellUpdates, (details, totalUpdated))
  | u :: rest =>
      p <- transportLoop rs 0 (u_where u) (u_set u) colIndices cellUpdates 0 ;;
      batchTransportLoop rs rest colIndices (fst p)
        (details ++ [mkDetail (u_where u) (snd p)])%list (totalUpdated + snd p)
  end.

Record BatchTransportResult : Type := mkBatchTransportResult {
  btr_cells : list CellUpdate;
  btr_updatedCount : nat;
  btr_details : list Detail
}.

Definition batchUpdateRowsViaAppleScript (aoa : Aoa) (updatesList : list Update)
  : result BatchTransportResult :=
  let t := sheetToTable aoa in
  let allCols :=
    fold_left (fun all u => fold_left set_add (Obj.keys (u_set u)) all) updatesList [] in
  colIndices <- columnIndices (headers t) allCols [] ;;
  p <- batchTransportLoop (rows t) updatesList colIndices [] [] 0 ;;
  Ok (mkBatchTransportResult (fst p) (snd (snd p)) (fst (snd p))).

(** *** Colour inference *)

Record Tally : Type := mkTally {
  valueColors : JsMap.t (list RGBColor);
  valueNullCount : JsMap.t nat;
  coloredRows : nat
}.

Definition orEmpty (o : option (list RGBColor)) : list RGBColor :=
  match o with Some l => l | None => [] end.

Definition orZero (o : option nat) : nat :=
  match o with Some n => n | None => 0 end.

(** One turn of the first loop of [detectColorMapping]. *)
Definition tallyStep (st : Tally) (value : string) (color : option RGBColor) : Tally :=
  match color with
  | Some c =>
      let vc := if JsMap.has (valueColors st) value then valueColors st
                else JsMap.set (valueColors st) value [] in
      mkTally (JsMap.set vc value (orEmpty (JsMap.get vc value) ++ [c])%list)
              (valueNullCount st) (S (coloredRows st))
  | None =>
      mkTally (valueColors st)
              (JsMap.set (valueNullCount st) value
                 (orZero (JsMap.get (valueNullCount st) value) + 1))
              (coloredRows st)
  end.

Fixpoint tallyLoop (values : list string) (colors : list (option RGBColor)) (i : nat)
  (st : Tally) : Tally :=
  match values with
  | [] => st
  | value :: rest => tallyLoop rest colors (S i) (tallyStep st value (nth i colors None))
  end.

Record Bucket : Type := mkBucket {
  count : nat;
  color : RGBColor
}.

(** [colorCounts]: the histogram of one value's colours by [colorKey]. *)
Definition countStep (colorCounts : JsMap.t Bucket) (c : RGBColor) : JsMap.t Bucket :=
  let key := colorKey c in
  let cc := if JsMap.has colorCounts key then colorCounts
            else JsMap.set colorCounts key (mkBucket 0 c) in
  match JsMap.get cc key with
  | Some bk => JsMap.set cc key (mkBucket (S (count bk)) (color bk))
  | None => cc
  end.

Definition colorCountsOf (colors : list RGBColor) : JsMap.t Bucket :=
  fold_left countStep colors [].

(** The scan for the most common colour: a strictly larger count wins. *)
Definition dominantOf (buckets : list Bucket) : nat * option RGBColor :=
  fold_left (fun acc bk =>
               if (fst acc <? count bk)%nat then (count bk, Some (color bk)) else acc)
            buckets (0, None).

Record Mappings : Type := mkMappings {
  m_colorMap : Obj.t (option RGBColor);
  consistentMappings : nat;
  totalMappings : nat
}.

(** One turn of the second loop, for one distinct value. *)
Definition mappingStep (st : Tally) (acc : Mappings) (value : string) : Mappings :=
  let colors := orEmpty (JsMap.get (valueColors st) value) in
  let nullCount := orZero (JsMap.get (valueNullCount st) value) in
  match colors with
  | [] =>
      mkMappings (Obj.set (m_colorMap acc) value None)
                 (S (consistentMappings acc)) (S (totalMappings acc))
  | _ =>
      let '(maxCount, dominantColor) :=
        dominantOf (JsMap.values (colorCountsOf colors)) in
      let totalForValue := List.length colors + nullCount in
      let consistency := PrimFloat.div (nat2float maxCount) (nat2float totalForValue) in
      mkMappings (Obj.set (m_colorMap acc) value dominantColor)
                 (if PrimFloat.leb 0.8 consistency
                  then S (consistentMappings acc) else consistentMappings acc)
                 (S (totalMappings acc))
  end.

Record ColorMappingResult : Type := mkColorMappingResult {
  colorMap : Obj.t (option RGBColor);
  confidence : float;
  sampleSize : nat
}.

(** The body of [detectColorMapping] once the column's values (each
    [String(row[column] ?? "")]) and the row colours are at hand. *)
Definition colorMappingOf (values : list string) (colors : list (option RGBColor))
  : ColorMappingResult :=
  let st := tallyLoop values colors 0 (mkTally [] [] 0) in
  let allValues :=
    Set_of (JsMap.keys (valueColors st) ++ JsMap.keys (valueNullCount st))%list in
  let m := fold_left (mappingStep st) allValues (mkMappings [] 0 0) in
  let confidence :=
    if (0 <? totalMappings m)%nat
    then PrimFloat.div (nat2float (consistentMappings m)) (nat2float (totalMappings m))
    else zero in
  mkColorMappingResult (m_colorMap m)
    (PrimFloat.div (Math_round (PrimFloat.mul confidence 100)) 100)
    (coloredRows st).

(** [colors] stands for what [getRowColors] reads back from the application. *)
Definition detectColorMapping (aoa : Aoa) (column : string)
  (colors : list (option RGBColor)) : result ColorMappingResult :=
  let t := sheetToTable aoa in
  if negb (existsb (String.eqb column) (headers t))
  then Throw (ColumnNotFound column (headers t))
  else Ok (colorMappingOf
             (map (fun row => ToString (nullish (Obj.get row column) (VStr ""))) (rows t))
             colors).

(** *** Colouring rows by value, and the workbook overview *)

Record RowColor : Type := mkRowColor {
  rc_rowIndex : nat;
  rc_color : RGBColor
}.

(** What [colorMap[cellValue]] yields when it is truthy: the own entry, or
    the member of [Object.prototype] of that name, an object without
    channels, each of which reads [undefined] and is not-a-number in
    arithmetic. *)
Definition mappedColor (colorMap : Obj.t RGBColor) (cellValue : string)
  : option RGBColor :=
  match Obj.lookup colorMap cellValue with
  | Some c => Some c
  | None => if Obj.inPrototype cellValue then Some (mkRGB nan nan nan) else None
  end.

(** The loop of [colorRowsByValue] that gathers the rows to colour; a row
    counts when [colorMap[cellValue]] is truthy. *)
Fixpoint rowColorsLoop (rs : list TableRow) (i : nat) (column : string)
  (colorMap : Obj.t RGBColor) (rowColors : list RowColor) : list RowColor :=
  match rs with
  | [] => rowColors
  | row :: rest =>
      let cellValue := ToString (nullish (Obj.get row column) (VStr "")) in
      rowColorsLoop rest (S i) column colorMap
        (match mappedColor colorMap cellValue with
         | Some c => rowColors ++ [mkRowColor (i + 2) (toNumbersColor c)]
         | None => rowColors
         end)%list
  end.

Record ColorRowsResult : Type := mkColorRowsResult {
  cr_commands : list RowColor;
  coloredCount : nat
}.

Definition colorRowsByValue (aoa : Aoa) (column : string) (colorMap : Obj.t RGBColor)
  : result ColorRowsResult :=
  let t := sheetToTable aoa in
  match indexOf (headers t) column with
  | None => Throw (ColumnNotFound column (headers t))
  | Some _ =>
      let rowColors := rowColorsLoop (rows t) 0 column colorMap [] in
      Ok (mkColorRowsResult rowColors (List.length rowColors))
  end.

Record SheetInfo : Type := mkSheetInfo {
  si_name : option string;
  si_headers : list string;
  si_rowCount : nat;
  si_columnCount : nat
}.

Record WorkbookInfo : Type := mkWorkbookInfo {
  sheets : list string;
  activeSheet : SheetInfo;
  sampleRows : list TableRow
}.

(** [getWorkbookInfo] over the workbook's sheet names and the contents of its
    first sheet. *)
Definition getWorkbookInfo (sheetNames : list string) (aoa : Aoa) : WorkbookInfo :=
  let t := sheetToTable aoa in
  mkWorkbookInfo sheetNames
    (mkSheetInfo (nth_error sheetNames 0) (headers t)
       (List.length (rows t)) (List.length (headers t)))
    (slice (rows t) 0 3).

(** ** Vocabulary of the specification *)

(** The comparison an operator of [gt], [gte], [lt], [lte] stands for. *)
Definition numericCompare (op : string) (cell operand : float) : bool :=
  if String.eqb op "gt" then PrimFloat.ltb operand cell
  else if String.eqb op "gte" then PrimFloat.leb operand cell
  else if String.eqb op "lt" then PrimFloat.ltb cell operand
  else PrimFloat.leb cell operand.

Definition numericOps : list string := ["gt"; "gte"; "lt"; "lte"].

Definition knownOps : list string := ["contains"; "gt"; "gte"; "lt"; "lte"; "ne"].

(** Every operator clause of the condition names one of the six operators. *)
Definition wellFormedWhere (where_ : WhereCondition) : bool :=
  forallb (fun e => match snd e with
                    | Literal _ => true
                    | Operator op _ => existsb (String.eqb op) knownOps
                    end) where_.

(** The row matches: the matcher returns [true] (a throw is no match). *)
Definition matchesB (where_ : WhereCondition) (row : TableRow) : bool :=
  match matchesCondition row where_ with
  | Ok true => true
  | _ => false
  end.

(** The matcher's verdict on every row, or the first exception. *)
Fixpoint matchesAll (rs : list TableRow) (where_ : WhereCondition) : result (list bool) :=
  match rs with
  | [] => Ok []
  | row :: rest =>
      b <- matchesCondition row where_ ;;
      bs <- matchesAll rest where_ ;;
      Ok (b :: bs)
  end.

(** The rows after one [{where, set}] pair, given the verdicts. *)
Fixpoint assignWhere (bs : list bool) (rs : list TableRow) (set_ : Obj.t Value)
  : list TableRow :=
  match bs, rs with
  | b :: bs', row :: rest =>
      (if b then assign row set_ else row) :: assignWhere bs' rest set_
  | _, _ => rs
  end.

Definition countTrue (bs : list bool) : nat := List.length (filter (fun b => b) bs).

(** One pair applied to the current rows: the new rows and the matched count. *)
Definition applyPair (rs : list TableRow) (u : Update) : result (list TableRow * nat) :=
  bs <- matchesAll rs (u_where u) ;;
  Ok (assignWhere bs rs (u_set u), countTrue bs).

(** The batch as a fold: each pair sees the rows the earlier pairs left. *)
Fixpoint foldPairs (rs : list TableRow) (us : list Update)
  : result (list TableRow * list nat) :=
  match us with
  | [] => Ok (rs, [])
  | u :: rest =>
      p <- applyPair rs u ;;
      q <- foldPairs (fst p) rest ;;
      Ok (fst q, snd p :: snd q)
  end.

Fixpoint detailsOf (us : list Update) (counts : list nat) : list Detail :=
  match us, counts with
  | u :: us', n :: counts' => mkDetail (u_where u) n :: detailsOf us' counts'
  | _, _ => []
  end.

(** The cell commands of the rows with verdict [true], the first row of
    the verdicts being data row [i]. *)
Fixpoint cellsOf (bs : list bool) (i : nat) (colIndices : Obj.t nat)
  (set_ : Obj.t Value) : list CellUpdate :=
  match bs with
  | [] => []
  | b :: rest =>
      ((if b then cellsFor colIndices i set_ else []) ++
       cellsOf rest (S i) colIndices set_)%list
  end.

(** The string a row is grouped and coloured under: its cell in the column,
    an empty or missing cell counting as the empty string. *)
Definition cellString (column : string) (row : TableRow) : string :=
  ToString (nullish (Obj.get row column) (VStr "")).

(** The colour commands for the rows from data row [i] on. *)
Fixpoint rowColorsOf (rs : list TableRow) (i : nat) (column : string)
  (colorMap : Obj.t RGBColor) : list RowColor :=
  match rs with
  | [] => []
  | row :: rest =>
      match mappedColor colorMap (cellString column row) with
      | Some c => mkRowColor (i + 2) (toNumbersColor c)
                    :: rowColorsOf rest (S i) column colorMap
      | None => rowColorsOf rest (S i) column colorMap
      end
  end.

(** [100 * k / d] rounded to the nearest whole number, a tie going up. *)
Definition exactHundredths (k d : nat) : nat := (200 * k + d) / (2 * d).

(** Whether a row's colour observation is a colour. *)
Definition isColored (o : option RGBColor) : bool :=
  match o with Some _ => true | None => false end.

(** Each backslash followed by a double quote turned back into the quote. *)
Fixpoint unescapeQuotes (s : string) : string :=
  match s with
  | EmptyString => EmptyString
  | String c rest =>
      match rest with
      | String c' rest' =>
          if Ascii.eqb c backslash && Ascii.eqb c' dquote
          then String dquote (unescapeQuotes rest')
          else String c (unescapeQuotes rest)
      | EmptyString => String c EmptyString
      end
  end.

(** The number of double quotes of a string. *)
Fixpoint quoteCount (s : string) : nat :=
  match s with
  | EmptyString => 0
  | String c rest => (if Ascii.eqb c dquote then 1 else 0) + quoteCount rest
  end.

(** The keys not seen so far, each at its first occurrence. *)
Fixpoint firstSeen (seen : list string) (ks : list string) : list string :=
  match ks with
  | [] => []
  | k :: rest =>
      if existsb (String.eqb k) seen then firstSeen seen rest
      else k :: firstSeen (seen ++ [k]) rest
  end.

(** A batch whose second pair selects what its first pair sets. *)
Definition chainedSheet : Aoa :=
  [[VStr "id"; VStr "p"]; [VNum 1; VNull]; [VNum 2; VNull]].

Definition chainedUpdates : list Update :=
  [mkUpdate [("id", Literal (VNum 1))] [("p", VStr "P0")];
   mkUpdate [("p", Literal (VStr "P0"))] [("p", VStr "P1")]].

(** Forty distinct values: 23 each on one uncoloured row, 17 each on a
    coloured and on an uncoloured row. *)
Definition driftValues : list string :=
  (map string_of_nat (seq 0 23)
   ++ flat_map (fun n => [string_of_nat n; string_of_nat n]) (seq 23 17))%list.

Definition driftColors : list (option RGBColor) :=
  (repeat None 23 ++ flat_map (fun _ => [Some (mkRGB 255 0 0); None]) (seq 0 17))%list.

(** The name is not [__proto__]. *)
Definition notProto (c : string) : bool := negb (String.eqb c "__proto__").

(** The projection of one row onto the columns. *)
Definition projectRow (row : TableRow) (columns : list string) : TableRow :=
  fold_left (fun filtered col => Obj.set filtered col (Obj.get row col)) columns [].

(** Row [i]'s value paired with its colour observation, [colors[i]]. *)
Fixpoint observeFrom (values : list string) (colors : list (option RGBColor)) (i : nat)
  : list (string * option RGBColor) :=
  match values with
  | [] => []
  | value :: rest => (value, nth i colors None) :: observeFrom rest colors (S i)
  end.

Definition observe (values : list string) (colors : list (option RGBColor))
  : list (string * option RGBColor) := observeFrom values colors 0.

(** The colours of the coloured positions of value [v], in row order. *)
Fixpoint coloredOf (v : string) (obs : list (string * option RGBColor))
  : list RGBColor :=
  match obs with
  | [] => []
  | (x, Some c) :: rest =>
      if String.eqb x v then c :: coloredOf v rest else coloredOf v rest
  | (_, None) :: rest => coloredOf v rest
  end.

(** The number of uncoloured positions of value [v]. *)
Fixpoint uncoloredOf (v : string) (obs : list (string * option RGBColor)) : nat :=
  match obs with
  | [] => 0
  | (x, None) :: rest =>
      if String.eqb x v then S (uncoloredOf v rest) else uncoloredOf v rest
  | (_, Some _) :: rest => uncoloredOf v rest
  end.

(** Buckets of colours under a key function; the code's key is [colorKey]. *)
Section Buckets.
Variable key : RGBColor -> string.

(** The size of the bucket [k] among the colours [cs]. *)
Definition bucketSizeBy (cs : list RGBColor) (k : string) : nat :=
  List.length (filter (fun c => String.eqb (key c) k) cs).

Definition maxBucketBy (cs : list RGBColor) : nat :=
  list_max (map (fun c => bucketSizeBy cs (key c)) cs).

(** The first colour seen whose bucket is a largest one. *)
Definition dominantBy (cs : list RGBColor) : option RGBColor :=
  find (fun c => (bucketSizeBy cs (key c) =? maxBucketBy cs)%nat) cs.

(** The colours that open a new bucket, in order of appearance. *)
Fixpoint bucketHeadsBy (seen : list string) (cs : list RGBColor) : list RGBColor :=
  match cs with
  | [] => []
  | c :: rest =>
      if existsb (String.eqb (key c)) seen then bucketHeadsBy seen rest
      else c :: bucketHeadsBy (seen ++ [key c]) rest
  end.

(** The histogram of [cs]: one bucket per key, in order of first appearance,
    with its size and the colour that opened it. *)
Definition histogramBy (cs : list RGBColor) : JsMap.t Bucket :=
  map (fun c => (key c, mkBucket (bucketSizeBy cs (key c)) c)) (bucketHeadsBy [] cs).

(** [countStep] with the key function taken as a parameter. *)
Definition countStepBy (colorCounts : JsMap.t Bucket) (c : RGBColor) : JsMap.t Bucket :=
  let k := key c in
  let cc := if JsMap.has colorCounts k then colorCounts
            else JsMap.set colorCounts k (mkBucket 0 c) in
  match JsMap.get cc k with
  | Some bk => JsMap.set cc k (mkBucket (S (count bk)) (color bk))
  | None => cc
  end.

End Buckets.

(** The size of the quantized bucket [key] among the colours [cs]. *)
Definition bucketSize (cs : list RGBColor) (key : string) : nat :=
  bucketSizeBy colorKey cs key.

Definition maxBucket (cs : list RGBColor) : nat := maxBucketBy colorKey cs.

(** The dominant colour: the first colour seen whose quantized bucket is a
    largest one. *)
Definition dominantColor (cs : list RGBColor) : option RGBColor :=
  dominantBy colorKey cs.

(** A value is consistent when it has no coloured position, or when its
    dominant bucket holds at least 0.8 of all its positions. *)
Definition consistent (obs : list (string * option RGBColor)) (v : string) : bool :=
  match coloredOf v obs with
  | [] => true
  | cs => PrimFloat.leb 0.8
            (PrimFloat.div (nat2float (maxBucket cs))
                           (nat2float (List.length cs + uncoloredOf v obs)))
  end.

(** [consistentCount / distinctCount] rounded to two decimals, [0] for none. *)
Definition confidenceOf (consistentCount distinctCount : nat) : float :=
  PrimFloat.div
    (Math_round
       (PrimFloat.mul
          (if (0 <? distinctCount)%nat
           then PrimFloat.div (nat2float consistentCount) (nat2float distinctCount)
           else zero)
          100))
    100.

(** The nearest multiple of ten of a channel [0..255], a tie going up. *)
Definition quantize (n : nat) : nat := 10 * ((n + 5) / 10).

(** What the first loop of [detectColorMapping] has gathered after the
    observations [obs]. *)
Definition tallyOf (st : Tally) (obs : list (string * option RGBColor)) : Prop :=
  (forall v, JsMap.get (valueColors st) v =
             match coloredOf v obs with [] => None | cs => Some cs end)
  /\ (forall v, JsMap.get (valueNullCount st) v =
                match uncoloredOf v obs with 0 => None | n => Some n end)
  /\ coloredRows st =
       List.length (filter (fun o => match snd o with Some _ => true | None => false end)
                           obs).

(** * Proofs *)

(** ** Records *)

Section ObjFacts.
Context {V : Type}.
Implicit Types (o : Obj.t V) (k : string) (v : V).

Lemma lookup_app o1 o2 k :
  Obj.lookup (o1 ++ o2)%list k =
  match Obj.lookup o1 k with Some v => Some v | None => Obj.lookup o2 k end.
Proof.
  induction o1 as [|[k' v'] o1 IH]; simpl; [reflexivity|].
  destruct (String.eqb k' k); [reflexivity|apply IH].
Qed.

Lemma lookup_replace_same o k v :
  Obj.lookup o k <> None -> Obj.lookup (Obj.replace o k v) k = Some v.
Proof.
  induction o as [|[k' v'] o IH]; simpl; [congruence|].
  destruct (String.eqb k' k) eqn:E; simpl.
  - now rewrite String.eqb_refl.
  - rewrite E. exact IH.
Qed.

Lemma lookup_replace_other o k v k' :
  k' <> k -> Obj.lookup (Obj.replace o k v) k' = Obj.lookup o k'.
Proof.
  intros Hne. induction o as [|[k0 v0] o IH]; simpl; [reflexivity|].
  destruct (String.eqb k0 k) eqn:E; simpl.
  - apply String.eqb_eq in E. subst k0.
    destruct (String.eqb k k') eqn:E'; [|reflexivity].
    apply String.eqb_eq in E'. congruence.
  - destruct (String.eqb k0 k'); [reflexivity|apply IH].
Qed.

Lemma keys_replace o k v :
  Obj.keys (Obj.replace o k v) = Obj.keys o.
Proof.
  induction o as [|[k' v'] o IH]; simpl; [reflexivity|].
  destruct (String.eqb k' k) eqn:E; simpl.
  - apply String.eqb_eq in E. now subst.
  - f_equal. exact IH.
Qed.

Lemma lookup_insert_index_same o i k v :
  Obj.lookup o k = None -> Obj.lookup (Obj.insert_index o i k v) k = Some v.
Proof.
  induction o as [|[k' v'] o IH]; simpl; intros H.
  - now rewrite String.eqb_refl.
  - destruct (String.eqb k' k) eqn:E; [discriminate|].
    destruct (Obj.array_index k') as [j|]; [destruct (j <? i)%N|]; simpl;
      rewrite ?E, ?String.eqb_refl; auto.
Qed.

Lemma lookup_insert_index_other o i k v k' :
  k' <> k -> Obj.lookup (Obj.insert_index o i k v) k' = Obj.lookup o k'.
Proof.
  intros Hne. apply String.eqb_neq in Hne. rewrite String.eqb_sym in Hne.
  induction o as [|[k0 v0] o IH]; simpl.
  - now rewrite Hne.
  - destruct (Obj.array_index k0) as [j|]; [destruct (j <? i)%N|]; simpl;
      rewrite ?Hne; try reflexivity.
    destruct (String.eqb k0 k'); [reflexivity|apply IH].
Qed.

Lemma keys_insert_index o i k v k' :
  In k' (Obj.keys (Obj.insert_index o i k v)) <-> k' = k \/ In k' (Obj.keys o).
Proof.
  induction o as [|[k0 v0] o IH]; simpl.
  - intuition.
  - destruct (Obj.array_index k0) as [j|]; [destruct (j <? i)%N|]; simpl;
      try rewrite IH; intuition.
Qed.

Lemma lookup_put_same o k v : Obj.lookup (Obj.put o k v) k = Some v.
Proof.
  unfold Obj.put. destruct (Obj.lookup o k) eqn:E.
  - apply lookup_replace_same. congruence.
  - destruct (Obj.array_index k).
    + now apply lookup_insert_index_same.
    + rewrite lookup_app, E. simpl. now rewrite String.eqb_refl.
Qed.

Lemma lookup_put_other o k v k' :
  k' <> k -> Obj.lookup (Obj.put o k v) k' = Obj.lookup o k'.
Proof.
  intros Hne. unfold Obj.put. destruct (Obj.lookup o k) eqn:E.
  - now apply lookup_replace_other.
  - destruct (Obj.array_index k).
    + now apply lookup_insert_index_other.
    + rewrite lookup_app. destruct (Obj.lookup o k'); [reflexivity|].
      simpl. apply String.eqb_neq in Hne. rewrite String.eqb_sym in Hne.
      now rewrite Hne.
Qed.

Lemma lookup_None_keys o k : Obj.lookup o k = None <-> ~ In k (Obj.keys o).
Proof.
  induction o as [|[k' v'] o IH]; simpl; [intuition|].
  destruct (String.eqb k' k) eqn:E.
  - apply String.eqb_eq in E. subst. split; [discriminate|intuition].
  - apply String.eqb_neq in E. rewrite IH. intuition.
Qed.

Lemma has_keys o k : Obj.has o k = true <-> In k (Obj.keys o).
Proof.
  unfold Obj.has. destruct (Obj.lookup o k) eqn:E.
  - split; [intros _|reflexivity].
    destruct (in_dec string_dec k (Obj.keys o)) as [Hin|Hn]; [exact Hin|].
    apply lookup_None_keys in Hn. congruence.
  - split; [discriminate|]. intros Hin. apply lookup_None_keys in E. contradiction.
Qed.

Lemma keys_put o k v k' :
  In k' (Obj.keys (Obj.put o k v)) <-> k' = k \/ In k' (Obj.keys o).
Proof.
  unfold Obj.put. destruct (Obj.lookup o k) eqn:E.
  - rewrite keys_replace. split; [auto|]. intros [->|H]; [|exact H].
    apply has_keys. unfold Obj.has. now rewrite E.
  - destruct (Obj.array_index k).
    + apply keys_insert_index.
    + unfold Obj.keys. rewrite map_app, in_app_iff. simpl. intuition.
Qed.

(** Writing a key that is no array index and not yet present appends it. *)
Lemma keys_put_fresh o k v :
  Obj.array_index k = None -> ~ In k (Obj.keys o) ->
  Obj.keys (Obj.put o k v) = (Obj.keys o ++ [k])%list.
Proof.
  intros Hidx Hn. apply lookup_None_keys in Hn. unfold Obj.put.
  rewrite Hn, Hidx. unfold Obj.keys. now rewrite map_app.
Qed.

(** An assignment writes the property unless the name is [__proto__] and the
    object has no such property of its own. *)
Lemma set_put o k v :
  k <> "__proto__" \/ In k (Obj.keys o) -> Obj.set o k v = Obj.put o k v.
Proof.
  intros H. unfold Obj.set. destruct (Obj.has o k) eqn:Eh; [reflexivity|].
  destruct (String.eqb k "__proto__") eqn:Ek; [|reflexivity].
  apply String.eqb_eq in Ek. destruct H as [H|H]; [contradiction|].
  apply has_keys in H. congruence.
Qed.

Lemma set_proto o v :
  ~ In "__proto__" (Obj.keys o) -> Obj.set o "__proto__" v = o.
Proof.
  intros H. unfold Obj.set.
  destruct (Obj.has o "__proto__") eqn:Eh; [|reflexivity].
  apply has_keys in Eh. contradiction.
Qed.

Lemma set_cases o k v :
  (Obj.set o k v = o /\ k = "__proto__" /\ ~ In k (Obj.keys o))
  \/ (Obj.set o k v = Obj.put o k v /\ (k <> "__proto__" \/ In k (Obj.keys o))).
Proof.
  destruct (string_dec k "__proto__") as [->|Hne].
  - destruct (in_dec string_dec "__proto__" (Obj.keys o)) as [Hin|Hn].
    + right. split; [apply set_put|]; auto.
    + left. split; [now apply set_proto|]. auto.
  - right. split; [apply set_put|]; auto.
Qed.

Lemma lookup_set_same o k v :
  k <> "__proto__" \/ In k (Obj.keys o) -> Obj.lookup (Obj.set o k v) k = Some v.
Proof. intros H. rewrite set_put by exact H. apply lookup_put_same. Qed.

Lemma lookup_set_other o k v k' :
  k' <> k -> Obj.lookup (Obj.set o k v) k' = Obj.lookup o k'.
Proof.
  intros Hne. destruct (set_cases o k v) as [(-> & _)|(-> & _)]; [reflexivity|].
  now apply lookup_put_other.
Qed.

Lemma keys_set o k v k' :
  In k' (Obj.keys (Obj.set o k v)) <->
  (k' = k /\ k <> "__proto__") \/ In k' (Obj.keys o).
Proof.
  destruct (set_cases o k v) as [(-> & -> & Hn)|(-> & H)].
  - split; [auto|]. intros [[_ H]|H]; [congruence|exact H].
  - rewrite keys_put. split.
    + intros [->|Hin]; [|auto]. destruct H as [H|H]; auto.
    + intros [[-> _]|Hin]; auto.
Qed.

(** Assigning a key that is no array index, not [__proto__] and not yet
    present appends it. *)
Lemma keys_set_fresh o k v :
  Obj.array_index k = None -> k <> "__proto__" -> ~ In k (Obj.keys o) ->
  Obj.keys (Obj.set o k v) = (Obj.keys o ++ [k])%list.
Proof.
  intros Hidx Hk Hn. rewrite set_put by auto. now apply keys_put_fresh.
Qed.

End ObjFacts.

(** ** Numbers: comparisons with not-a-number *)

Lemma SFcompare_refl (f : spec_float) :
  f <> S754_nan -> SFcompare f f = Some Eq.
Proof.
  destruct f as [s|s| |s m e]; simpl; try congruence; intros _.
  - now destruct s.
  - rewrite Z.compare_refl, Pos.compare_cont_refl. now destruct s.
Qed.

Lemma is_nan_Prim2SF (x : float) :
  PrimFloat.is_nan x = true -> Prim2SF x = S754_nan.
Proof.
  unfold PrimFloat.is_nan. rewrite FloatAxioms.eqb_spec. unfold SFeqb.
  destruct (Prim2SF x) eqn:E; try reflexivity;
    rewrite SFcompare_refl by congruence; discriminate.
Qed.

Lemma SFcompare_nan_r (f : spec_float) : SFcompare f S754_nan = None.
Proof. now destruct f. Qed.

Lemma ltb_nan (x y : float) :
  PrimFloat.is_nan x = true \/ PrimFloat.is_nan y = true -> PrimFloat.ltb x y = false.
Proof.
  intros H. rewrite ltb_spec. unfold SFltb.
  destruct H as [H|H]; apply is_nan_Prim2SF in H; rewrite H.
  - reflexivity.
  - now rewrite SFcompare_nan_r.
Qed.

Lemma leb_nan (x y : float) :
  PrimFloat.is_nan x = true \/ PrimFloat.is_nan y = true -> PrimFloat.leb x y = false.
Proof.
  intros H. rewrite leb_spec. unfold SFleb.
  destruct H as [H|H]; apply is_nan_Prim2SF in H; rewrite H.
  - reflexivity.
  - now rewrite SFcompare_nan_r.
Qed.

Lemma numericCompare_nan (op : string) (x y : float) :
  PrimFloat.is_nan x = true \/ PrimFloat.is_nan y = true ->
  numericCompare op x y = false.
Proof.
  intros H. unfold numericCompare.
  repeat match goal with |- context [if ?c then _ else _] => destruct c end;
    (apply ltb_nan || apply leb_nan); tauto.
Qed.

(** ** The condition matcher *)

Lemma matchesCondition_numeric (row : TableRow) (c op : string) (operand : Value)
  (rest : WhereCondition) :
  In op numericOps ->
  matchesCondition row ((c, Operator op operand) :: rest) =
  if numericCompare op (ToNumber (Obj.get row c)) (ToNumber operand)
  then matchesCondition row rest else Ok false.
Proof.
  intros Hop. simpl in Hop.
  destruct Hop as [<-|[<-|[<-|[<-|[]]]]]; simpl; unfold numericCompare; simpl;
    match goal with |- context [negb ?t] => destruct t end; reflexivity.
Qed.





(** ** Reading a record *)


Lemma get_absent (o : Obj.t Value) (k : string) :
  Obj.lookup o k = None -> Obj.get o k = Obj.inherited k.
Proof. intros H. unfold Obj.get. now rewrite H. Qed.

(** What the prototype holds under a name is no number. *)
Lemma inherited_nan (k : string) :
  PrimFloat.is_nan (ToNumber (Obj.inherited k)) = true.
Proof. unfold Obj.inherited. now destruct (Obj.inPrototype k). Qed.

Lemma inherited_plain (k : string) :
  Obj.inPrototype k = false -> Obj.inherited k = VUndefined.
Proof. intros H. unfold Obj.inherited. now rewrite H. Qed.

Lemma inherited_member (k : string) :
  Obj.inPrototype k = true -> Obj.inherited k = VBuiltin k.
Proof. intros H. unfold Obj.inherited. now rewrite H. Qed.

(** ** Loading a sheet *)



Lemma rowOfCells_keys (hs : list string) (cells : list Value) (j : nat)
  (row : TableRow) (k : string) :
  In k (Obj.keys (rowOfCells hs cells j row)) <-> In k hs \/ In k (Obj.keys row).
Proof.
  revert j row. induction hs as [|h hs IH]; intros j row; simpl; [tauto|].
  rewrite IH, keys_put. intuition.
Qed.




Lemma nullish_null_defined (v : Value) : nullish v VNull <> VUndefined.
Proof. destruct v; discriminate. Qed.


(** ** Claims about the condition matcher *)

(** C7.  For each of the operators [gt], [gte], [lt], [lte] the matcher is
    total on the clause: both sides are coerced with [Number], the clause
    passes exactly when the IEEE comparison holds, and it is [false] (the row
    is excluded) as soon as either coercion is not-a-number.  The clause
    never throws, whatever the cell and the operand are. *)
Theorem comparison_clause_total :
  forall (row : TableRow) (c op : string) (operand : Value),
    In op numericOps ->
    matchesCondition row [(c, Operator op operand)] =
      Ok (numericCompare op (ToNumber (Obj.get row c)) (ToNumber operand))
    /\ (forall rest,
          matchesCondition row ((c, Operator op operand) :: rest) =
          if numericCompare op (ToNumber (Obj.get row c)) (ToNumber operand)
          then matchesCondition row rest else Ok false)
    /\ (PrimFloat.is_nan (ToNumber (Obj.get row c)) = true \/
        PrimFloat.is_nan (ToNumber operand) = true ->
        forall rest, matchesCondition row ((c, Operator op operand) :: rest) = Ok false).
Proof.
  intros row c op operand Hop. repeat split.
  - rewrite matchesCondition_numeric by exact Hop.
    now destruct (numericCompare op _ _).
  - intros rest. now apply matchesCondition_numeric.
  - intros Hnan rest. rewrite matchesCondition_numeric by exact Hop.
    now rewrite numericCompare_nan.
Qed.

Lemma comparison_clause_total_witness :
  matchesCondition [("qty", VStr "abc")] [("qty", Operator "gt" (VNum 1))] = Ok false
  /\ matchesCondition [("qty", VNum 3)]
       [("qty", Operator "lte" (VStr "n/a")); ("id", Operator "like" VNull)] = Ok false
  /\ matchesCondition [("qty", VStr " 12 ")] [("qty", Operator "gte" (VStr "0xC"))] = Ok true.
Proof.
  split; [|split].
  - apply (proj2 (proj2 (comparison_clause_total
             [("qty", VStr "abc")] "qty" "gt" (VNum 1) (or_introl eq_refl)))).
    left. vm_compute. reflexivity.
  - apply (proj2 (proj2 (comparison_clause_total
             [("qty", VNum 3)] "qty" "lte" (VStr "n/a")
             (or_intror (or_intror (or_intror (or_introl eq_refl))))))).
    right. vm_compute. reflexivity.
  - rewrite (proj1 (comparison_clause_total
               [("qty", VStr " 12 ")] "qty" "gte" (VStr "0xC")
               (or_intror (or_introl eq_refl)))).
    vm_compute. reflexivity.
Defined.



(** C3, as the code has it.  The literal condition [{c: null}] matches a row
    exactly when the row holds an explicit [null] at [c]; a column absent from
    the row reads as [undefined], which [===] tells apart from [null], so the
    row is not matched. *)
Theorem null_literal_needs_explicit_null :
  forall (row : TableRow) (c : string),
    matchesCondition row [(c, Literal VNull)] =
    Ok (match Obj.lookup row c with Some VNull => true | _ => false end).
Proof.
  intros row c. simpl. unfold Obj.get, Obj.inherited.
  destruct (Obj.lookup row c) as [[]|]; try reflexivity.
  now destruct (Obj.inPrototype c).
Qed.

(** C3 fails as stated: an absent column does not match [{c: null}]. *)
Lemma null_literal_absent_counterexample :
  matchesCondition [("c", VNull)] [("c", Literal VNull)] = Ok true
  /\ matchesCondition [("id", VNum 1)] [("c", Literal VNull)] = Ok false.
Proof. split; reflexivity. Qed.




(** ** Pagination *)

Lemma firstn_min_length {A} (n : nat) (l : list A) :
  firstn (Nat.min n (List.length l)) l = firstn n l.
Proof.
  destruct (Nat.le_ge_cases n (List.length l)) as [H|H].
  - now rewrite Nat.min_l.
  - rewrite Nat.min_r by exact H. rewrite firstn_all.
    symmetry. now apply firstn_all2.
Qed.

Lemma slice_window {A} (l : list A) (o e : Z) :
  (0 <= o <= e)%Z ->
  slice l o e = firstn (Z.to_nat (e - o)) (skipn (Z.to_nat o) l).
Proof.
  intros [Ho He]. unfold slice.
  destruct (Z.ltb_spec o 0) as [?|_]; [lia|].
  destruct (Z.ltb_spec e 0) as [?|_]; [lia|].
  destruct (Z.le_gt_cases (Z.of_nat (List.length l)) o) as [Hbig|Hsmall].
  - rewrite (Z.min_r o) by exact Hbig.
    rewrite !skipn_all2 by lia. now rewrite !firstn_nil.
  - rewrite (Z.min_l o) by lia.
    rewrite <- (firstn_min_length (Z.to_nat (e - o))).
    f_equal. rewrite length_skipn. lia.
Qed.

Lemma slice_past_end {A} (l : list A) (o e : Z) :
  (Z.of_nat (List.length l) <= o)%Z -> slice l o e = [].
Proof.
  intros Ho. unfold slice.
  destruct (Z.ltb_spec o 0) as [?|_]; [lia|].
  rewrite (Z.min_r o) by exact Ho. rewrite skipn_all2 by lia. apply firstn_nil.
Qed.

Lemma slice_tail {A} (l : list A) (k : Z) :
  (0 < k <= Z.of_nat (List.length l))%Z ->
  slice l (- k) (Z.of_nat (List.length l)) = skipn (List.length l - Z.to_nat k) l.
Proof.
  intros Hk. unfold slice.
  destruct (Z.ltb_spec (- k) 0) as [_|?]; [|lia].
  destruct (Z.ltb_spec (Z.of_nat (List.length l)) 0) as [?|_]; [lia|].
  replace (Z.to_nat (Z.max (Z.of_nat (List.length l) + - k) 0))
    with (List.length l - Z.to_nat k) by lia.
  apply firstn_all2. rewrite length_skipn. lia.
Qed.

(** C4, as the code has it.  Pagination never fails.  An offset at or past
    the end of the list yields no rows, whatever the limit; with an offset
    [o >= 0] and a limit [n > 0] the page is the at most [n] items that
    follow the first [o], and [hasMore] is [o + n < length].  A negative
    bound is not clamped: it goes to [slice], which counts it from the end of
    the list, so the offset [-k] with no limit returns the last [k] items. *)
Theorem paginate_bounds :
  forall (A : Type) (l : list A),
    (forall limit o,
        (Z.of_nat (List.length l) <= o)%Z ->
        items (paginate l limit (Some o)) = [])
    /\ (forall n o,
          (0 < n)%Z -> (0 <= o)%Z ->
          items (paginate l (Some n) (Some o)) =
            firstn (Z.to_nat n) (skipn (Z.to_nat o) l)
          /\ hasMore (paginate l (Some n) (Some o)) =
               (o + n <? Z.of_nat (List.length l))%Z)
    /\ (forall k,
          (0 < k <= Z.of_nat (List.length l))%Z ->
          items (paginate l None (Some (- k)%Z)) =
            skipn (List.length l - Z.to_nat k) l
          /\ hasMore (paginate l None (Some (- k)%Z)) = false).
Proof.
  intros A l. repeat split.
  - intros lim o Ho. unfold paginate. simpl.
    apply slice_past_end.
    destruct (Z.eqb_spec o 0); lia.
  - unfold paginate. simpl.
    destruct (Z.eqb_spec n 0) as [?|_]; [lia|].
    destruct (Z.eqb_spec o 0) as [->|_]; simpl;
      rewrite slice_window by lia; do 2 f_equal; lia.
  - unfold paginate. simpl.
    destruct (Z.eqb_spec n 0) as [?|_]; [lia|].
    destruct (Z.eqb_spec o 0) as [->|_]; reflexivity.
  - unfold paginate. simpl.
    destruct (Z.eqb_spec (- k) 0) as [?|_]; [lia|]. simpl.
    now apply slice_tail.
  - unfold paginate. simpl.
    destruct (Z.eqb_spec (- k) 0) as [?|_]; [lia|]. simpl.
    apply Z.ltb_irrefl.
Qed.

Lemma paginate_bounds_witness :
  items (paginate [10; 20; 30] (Some 2%Z) (Some 3%Z)) = []
  /\ items (paginate [10; 20; 30] (Some 2%Z) (Some 1%Z)) = [20; 30]
  /\ items (paginate [10; 20; 30] None (Some (-2)%Z)) = [20; 30].
Proof.
  destruct (paginate_bounds nat [10; 20; 30]) as (Hpast & Hwindow & Htail).
  split; [|split].
  - apply Hpast. simpl. lia.
  - destruct (Hwindow 2%Z 1%Z) as [E _]; [lia|lia|]. exact E.
  - destruct (Htail 2%Z) as [E _]; [simpl; lia|]. exact E.
Defined.

(** C4 fails as stated: a limit of [0] returns every row, a negative offset
    does not behave as offset [0], and a negative limit is not clamped. *)
Lemma paginate_clamp_counterexample :
  items (paginate [10; 20; 30] (Some 0%Z) None) = [10; 20; 30]
  /\ items (paginate [10; 20; 30] None (Some (-1)%Z)) = [30]
  /\ items (paginate [10; 20; 30] None (Some 0%Z)) = [10; 20; 30]
  /\ items (paginate [10; 20; 30] (Some (-1)%Z) None) = [10; 20].
Proof. repeat split. Qed.

(** ** Projection *)

Lemma notProto_true (c : string) : notProto c = true <-> c <> "__proto__".
Proof.
  unfold notProto. rewrite Bool.negb_true_iff. apply String.eqb_neq.
Qed.

Lemma project_keys_in (row : TableRow) (cols : list string) (acc : TableRow) (c : string) :
  In c (Obj.keys
          (fold_left (fun filtered col => Obj.set filtered col (Obj.get row col)) cols acc))
  <-> (In c cols /\ c <> "__proto__") \/ In c (Obj.keys acc).
Proof.
  revert acc. induction cols as [|col cols IH]; intros acc; simpl; [tauto|].
  rewrite IH, keys_set. split.
  - intros [[H1 H2]|[[-> H]|H]]; auto.
  - intros [[[->|H1] H2]|H]; auto.
Qed.

Lemma project_lookup (row : TableRow) (cols : list string) (acc : TableRow) (c : string) :
  c <> "__proto__" ->
  Obj.lookup
    (fold_left (fun filtered col => Obj.set filtered col (Obj.get row col)) cols acc) c =
  if in_dec string_dec c cols then Some (Obj.get row c) else Obj.lookup acc c.
Proof.
  intros Hc. revert acc. induction cols as [|col cols IH]; intros acc; simpl;
    [reflexivity|].
  rewrite IH. destruct (in_dec string_dec c cols) as [Hin|Hn].
  - destruct (string_dec col c); reflexivity.
  - destruct (string_dec col c) as [->|Hne].
    + apply lookup_set_same. now left.
    + apply lookup_set_other. congruence.
Qed.

Lemma project_keys_order (row : TableRow) (cols : list string) (acc : TableRow) :
  NoDup cols -> Forall (fun c => Obj.array_index c = None) cols ->
  (forall c, In c cols -> ~ In c (Obj.keys acc)) ->
  Obj.keys
    (fold_left (fun filtered col => Obj.set filtered col (Obj.get row col)) cols acc) =
  (Obj.keys acc ++ filter notProto cols)%list.
Proof.
  revert acc. induction cols as [|col cols IH]; intros acc Hnd Hidx Hfresh; simpl.
  - now rewrite app_nil_r.
  - inversion Hnd as [|? ? Hcol Hnd']; subst. inversion Hidx as [|? ? Hi Hidx']; subst.
    assert (Hacc : ~ In col (Obj.keys acc)) by (apply Hfresh; now left).
    rewrite IH; try assumption.
    + destruct (notProto col) eqn:Ep.
      * apply notProto_true in Ep. rewrite keys_set_fresh by assumption.
        now rewrite <- app_assoc.
      * unfold notProto in Ep. apply Bool.negb_false_iff, String.eqb_eq in Ep.
        subst col. now rewrite set_proto.
    + intros c Hc. rewrite keys_set. intros [[-> _]|Hin]; [contradiction|].
      apply (Hfresh c); [now right|exact Hin].
Qed.

(** C6, as the code has it.  Projection returns one row per source row; the
    keys of a projected row are the given columns, [__proto__] left out (the
    assignment to it makes no property), each mapped to what the source row
    reads there.  A column absent from the source row is present in the
    result with the value [undefined] (not [null]), or with the member of
    [Object.prototype] it names.  The keys come in the given order when the
    columns are distinct and none is an array index. *)
Theorem filterColumns_projects :
  forall (rs : list TableRow) (cols : list string),
    filterColumns rs cols = map (fun row => projectRow row cols) rs
    /\ forall row,
        (forall c, In c (Obj.keys (projectRow row cols)) <->
                   In c cols /\ c <> "__proto__")
        /\ (forall c, In c cols -> c <> "__proto__" ->
              Obj.lookup (projectRow row cols) c = Some (Obj.get row c))
        /\ (forall c, In c cols -> Obj.lookup row c = None ->
              Obj.inPrototype c = false ->
              Obj.lookup (projectRow row cols) c = Some VUndefined)
        /\ (forall c, In c cols -> c <> "__proto__" -> Obj.lookup row c = None ->
              Obj.inPrototype c = true ->
              Obj.lookup (projectRow row cols) c = Some (VBuiltin c))
        /\ (NoDup cols -> Forall (fun c => Obj.array_index c = None) cols ->
            Obj.keys (projectRow row cols) = filter notProto cols).
Proof.
  intros rs cols. split; [reflexivity|]. intros row. unfold projectRow.
  assert (Hl : forall c, In c cols -> c <> "__proto__" ->
                 Obj.lookup
                   (fold_left (fun filtered col => Obj.set filtered col (Obj.get row col))
                              cols []) c = Some (Obj.get row c)).
  { intros c Hc Hp. rewrite project_lookup by exact Hp.
    destruct (in_dec string_dec c cols); [reflexivity|contradiction]. }
  split; [|split; [|split; [|split]]].
  - intros c. rewrite project_keys_in. simpl. tauto.
  - exact Hl.
  - intros c Hc Habs Hp.
    assert (Hne : c <> "__proto__") by (intros ->; discriminate).
    now rewrite (Hl c Hc Hne), (get_absent _ _ Habs), (inherited_plain _ Hp).
  - intros c Hc Hne Habs Hp.
    now rewrite (Hl c Hc Hne), (get_absent _ _ Habs), (inherited_member _ Hp).
  - intros Hnd Hidx. now rewrite project_keys_order.
Qed.

Lemma filterColumns_projects_witness :
  Obj.lookup (projectRow [("id", VNum 1); ("status", VStr "Done")] ["status"; "owner"])
             "owner" = Some VUndefined
  /\ Obj.keys (projectRow [("id", VNum 1); ("status", VStr "Done")]
                          ["status"; "__proto__"; "constructor"])
     = ["status"; "constructor"]
  /\ Obj.lookup (projectRow [("id", VNum 1); ("status", VStr "Done")]
                            ["status"; "__proto__"; "constructor"])
                "constructor" = Some (VBuiltin "constructor").
Proof.
  destruct (proj2 (filterColumns_projects [] ["status"; "owner"])
              [("id", VNum 1); ("status", VStr "Done")]) as (_ & _ & Habs & _).
  destruct (proj2 (filterColumns_projects [] ["status"; "__proto__"; "constructor"])
              [("id", VNum 1); ("status", VStr "Done")]) as (_ & _ & _ & Hmem & Hord).
  split; [|split].
  - apply Habs; [simpl; tauto|reflexivity|reflexivity].
  - rewrite Hord; [reflexivity| |repeat constructor].
    repeat constructor; simpl; intuition discriminate.
  - apply Hmem; [simpl; tauto|discriminate|reflexivity|reflexivity].
Defined.

(** C6 fails as stated: a column missing from the source row is projected to
    [undefined], not to [null]; and array-index names come first. *)
Lemma filterColumns_null_counterexample :
  filterColumns [[("id", VNum 1); ("status", VStr "Done")]] ["status"; "owner"]
  = [[("status", VStr "Done"); ("owner", VUndefined)]]
  /\ Obj.keys (projectRow [("2024", VStr "x"); ("id", VNum 1)] ["id"; "2024"])
     = ["2024"; "id"].
Proof. split; reflexivity. Qed.

(** ** Insert *)

Lemma fold_set_add (ks s : list string) :
  fold_left set_add ks s = (s ++ firstSeen s ks)%list.
Proof.
  revert s. induction ks as [|k ks IH]; intros s; simpl.
  - now rewrite app_nil_r.
  - rewrite IH. unfold set_add. destruct (existsb (String.eqb k) s); [reflexivity|].
    now rewrite <- app_assoc.
Qed.

Lemma fold_rows_set_add (rs : list TableRow) (s : list string) :
  fold_left (fun all row => fold_left set_add (Obj.keys row) all) rs s =
  fold_left set_add (flat_map Obj.keys rs) s.
Proof.
  revert s. induction rs as [|row rs IH]; intros s; simpl; [reflexivity|].
  now rewrite IH, fold_left_app.
Qed.

Lemma existsb_eqb_In (k : string) (l : list string) :
  existsb (String.eqb k) l = true <-> In k l.
Proof.
  rewrite existsb_exists. split.
  - intros (x & Hx & E). apply String.eqb_eq in E. now subst.
  - intros H. exists k. split; [exact H|apply String.eqb_refl].
Qed.

Lemma firstSeen_fresh (seen l : list string) :
  NoDup l -> (forall k, In k l -> ~ In k seen) -> firstSeen seen l = l.
Proof.
  revert seen. induction l as [|k l IH]; intros seen Hnd Hfresh; simpl; [reflexivity|].
  inversion Hnd as [|? ? Hk Hnd']; subst.
  destruct (existsb (String.eqb k) seen) eqn:E.
  - apply existsb_eqb_In in E. exfalso. apply (Hfresh k); [now left|exact E].
  - f_equal. apply IH; [exact Hnd'|].
    intros x Hx Hin. apply in_app_iff in Hin. destruct Hin as [Hin|[->|[]]].
    + apply (Hfresh x); [now right|exact Hin].
    + contradiction.
Qed.

Lemma firstSeen_In (seen l : list string) (k : string) :
  In k (firstSeen seen l) <-> In k l /\ ~ In k seen.
Proof.
  revert seen. induction l as [|x l IH]; intros seen; simpl; [tauto|].
  destruct (existsb (String.eqb x) seen) eqn:E.
  - apply existsb_eqb_In in E. rewrite IH. split.
    + tauto.
    + intros [[->|H] Hn]; [contradiction|tauto].
  - assert (Hx : ~ In x seen) by (rewrite <- existsb_eqb_In; congruence).
    simpl. rewrite IH, in_app_iff. simpl. split.
    + intros [->|[H Hn]]; [tauto|]. tauto.
    + intros [[->|H] Hn]; [now left|].
      destruct (string_dec x k) as [->|Hne]; [now left|]. right. intuition.
Qed.

Lemma firstSeen_NoDup (seen l : list string) : NoDup (firstSeen seen l).
Proof.
  revert seen. induction l as [|x l IH]; intros seen; simpl; [constructor|].
  destruct (existsb (String.eqb x) seen); [apply IH|].
  constructor; [|apply IH].
  rewrite firstSeen_In, in_app_iff. simpl. tauto.
Qed.

Lemma Set_of_NoDup_id (l : list string) : NoDup l -> Set_of l = l.
Proof.
  intros H. unfold Set_of. rewrite fold_set_add. simpl.
  apply firstSeen_fresh; auto.
Qed.

Lemma Set_of_In (l : list string) (k : string) : In k (Set_of l) <-> In k l.
Proof.
  unfold Set_of. rewrite fold_set_add. simpl. rewrite firstSeen_In. simpl. tauto.
Qed.

Lemma Set_of_NoDup (l : list string) : NoDup (Set_of l).
Proof. unfold Set_of. rewrite fold_set_add. simpl. apply firstSeen_NoDup. Qed.

(** The headers [addTableRows] writes, for any loaded sheet. *)
Lemma addTableRows_allHeaders (aoa : Aoa) (newRows : TableRow + list TableRow) :
  headers (ar_table (addTableRows aoa newRows)) =
  (Set_of (headers (sheetToTable aoa)) ++
   firstSeen (Set_of (headers (sheetToTable aoa)))
     (flat_map Obj.keys (match newRows with inl row => [row] | inr l => l end)))%list.
Proof.
  unfold addTableRows. simpl. now rewrite fold_rows_set_add, fold_set_add.
Qed.

(** C9.  On a table with distinct headers, [Insert] writes as header list the
    existing headers in their order followed by the keys of the inserted rows
    that are new, each once, in the order they are first met across the
    inserted rows: the union of both.  [addedCount] is the number of inserted
    rows and [totalRows] the original row count plus [addedCount]. *)
Theorem addTableRows_headers_union :
  forall (aoa : Aoa) (newRows : TableRow + list TableRow),
    let t := sheetToTable aoa in
    let rowsToAdd := match newRows with inl row => [row] | inr l => l end in
    let res := addTableRows aoa newRows in
    NoDup (headers t) ->
    headers (ar_table res) =
      (headers t ++ firstSeen (headers t) (flat_map Obj.keys rowsToAdd))%list
    /\ (forall k, In k (headers (ar_table res)) <->
                  In k (headers t) \/
                  exists row, In row rowsToAdd /\ In k (Obj.keys row))
    /\ NoDup (headers (ar_table res))
    /\ hd [] (ar_newAoa res) = map VStr (headers (ar_table res))
    /\ rows (ar_table res) = (rows t ++ rowsToAdd)%list
    /\ addedCount res = List.length rowsToAdd
    /\ totalRows res = List.length (rows t) + addedCount res.
Proof.
  intros aoa newRows t rowsToAdd res Hnd.
  assert (E : headers (ar_table res) =
              (headers t ++ firstSeen (headers t) (flat_map Obj.keys rowsToAdd))%list).
  { unfold res. rewrite addTableRows_allHeaders. fold t. fold rowsToAdd.
    now rewrite Set_of_NoDup_id. }
  split; [exact E|]. split; [|split; [|split; [|split; [|split]]]].
  - intros k. rewrite E, in_app_iff, firstSeen_In, in_flat_map.
    destruct (in_dec string_dec k (headers t)); tauto.
  - rewrite E. apply NoDup_app; [exact Hnd|apply firstSeen_NoDup|].
    intros k Hk Hin. apply firstSeen_In in Hin. tauto.
  - reflexivity.
  - reflexivity.
  - reflexivity.
  - unfold res, addTableRows. simpl. now rewrite length_app.
Qed.

Lemma addTableRows_headers_union_witness :
  headers (ar_table (addTableRows
      [[VStr "id"; VStr "status"]; [VNum 1; VStr "Done"]]
      (inr [[("owner", VStr "ann"); ("id", VNum 2)];
            [("due", VNull); ("owner", VStr "bob")]])))
  = ["id"; "status"; "owner"; "due"]
  /\ totalRows (addTableRows
      [[VStr "id"; VStr "status"]; [VNum 1; VStr "Done"]]
      (inr [[("owner", VStr "ann"); ("id", VNum 2)];
            [("due", VNull); ("owner", VStr "bob")]])) = 3.
Proof.
  destruct (addTableRows_headers_union
              [[VStr "id"; VStr "status"]; [VNum 1; VStr "Done"]]
              (inr [[("owner", VStr "ann"); ("id", VNum 2)];
                    [("due", VNull); ("owner", VStr "bob")]]))
    as (Hh & _ & _ & _ & _ & _ & Ht).
  - simpl. repeat constructor; simpl; intuition discriminate.
  - split; [exact Hh|exact Ht].
Defined.

(** ** Update and batch update *)

Lemma matchesCondition_throws (row : TableRow) (where_ : WhereCondition) (e : Error) :
  matchesCondition row where_ = Throw e -> exists op, e = UnknownOperator op.
Proof.
  induction where_ as [|[column condition] rest IH]; simpl; [discriminate|].
  destruct condition as [lit|op operand].
  - destruct (negb _); [discriminate|exact IH].
  - repeat match goal with
           | |- context [if String.eqb op ?s then _ else _] =>
               destruct (String.eqb op s)
           | |- context [if negb ?t then _ else _] => destruct (negb t)
           | |- context [if strict_eq ?a ?b then _ else _] => destruct (strict_eq a b)
           end; try discriminate; try exact IH.
    intros H. injection H as <-. eauto.
Qed.

Lemma matchesCondition_wellFormed (row : TableRow) (where_ : WhereCondition) :
  wellFormedWhere where_ = true -> exists b, matchesCondition row where_ = Ok b.
Proof.
  induction where_ as [|[column condition] rest IH]; simpl; [eauto|].
  intros H. apply andb_prop in H. destruct H as [Hc Hrest].
  destruct condition as [lit|op operand].
  - destruct (negb _); eauto.
  - simpl in Hc.
    repeat match goal with
           | |- context [if String.eqb op ?s then _ else _] =>
               destruct (String.eqb op s)
           | |- context [if negb ?t then _ else _] => destruct (negb t)
           | |- context [if strict_eq ?a ?b then _ else _] => destruct (strict_eq a b)
           end; eauto; discriminate.
Qed.

Lemma matchesAll_throws (rs : list TableRow) (where_ : WhereCondition) (e : Error) :
  matchesAll rs where_ = Throw e -> exists op, e = UnknownOperator op.
Proof.
  induction rs as [|row rs IH]; simpl; [discriminate|].
  destruct (matchesCondition row where_) as [b|e'] eqn:E; simpl.
  - destruct (matchesAll rs where_); simpl; [discriminate|].
    intros H. injection H as <-. now apply IH.
  - intros H. injection H as <-. eapply matchesCondition_throws; eauto.
Qed.

Lemma matchesAll_wellFormed (rs : list TableRow) (where_ : WhereCondition) :
  wellFormedWhere where_ = true -> exists bs, matchesAll rs where_ = Ok bs.
Proof.
  intros H. induction rs as [|row rs [bs IH]]; simpl; [eauto|].
  destruct (matchesCondition_wellFormed row where_ H) as [b ->]. rewrite IH.
  simpl. eauto.
Qed.

(** The verdicts, once all rows were judged, are those of [matchesB]. *)
Lemma matchesAll_Ok (rs : list TableRow) (where_ : WhereCondition) (bs : list bool) :
  matchesAll rs where_ = Ok bs -> bs = map (matchesB where_) rs.
Proof.
  revert bs. induction rs as [|row rs IH]; simpl; intros bs H.
  - now injection H as <-.
  - unfold matchesB at 1.
    destruct (matchesCondition row where_) as [b|e]; simpl in H; [|discriminate].
    destruct (matchesAll rs where_) as [bs'|e]; simpl in H; [|discriminate].
    injection H as <-. rewrite (IH bs' eq_refl). now destruct b.
Qed.

Lemma assignWhere_map (rs : list TableRow) (f : TableRow -> bool) (set_ : Obj.t Value) :
  assignWhere (map f rs) rs set_ =
  map (fun row => if f row then assign row set_ else row) rs.
Proof. induction rs as [|row rs IH]; simpl; [reflexivity|]. now rewrite IH. Qed.

Lemma countTrue_map (rs : list TableRow) (f : TableRow -> bool) :
  countTrue (map f rs) = List.length (filter f rs).
Proof.
  unfold countTrue. induction rs as [|row rs IH]; simpl; [reflexivity|].
  destruct (f row); simpl; now rewrite IH.
Qed.

Lemma countTrue_cons (b : bool) (bs : list bool) :
  countTrue (b :: bs) = (if b then 1 else 0) + countTrue bs.
Proof. unfold countTrue. simpl. now destruct b. Qed.

Lemma updateLoop_matchesAll (rs : list TableRow) (where_ : WhereCondition)
  (set_ : Obj.t Value) (n : nat) :
  updateLoop rs where_ set_ n =
  (bs <- matchesAll rs where_ ;; Ok (assignWhere bs rs set_, n + countTrue bs)).
Proof.
  revert n. induction rs as [|row rs IH]; intros n; simpl.
  - now rewrite Nat.add_0_r.
  - destruct (matchesCondition row where_) as [b|e]; simpl; [|reflexivity].
    rewrite IH. destruct (matchesAll rs where_) as [bs|e]; simpl; [|reflexivity].
    rewrite countTrue_cons. destruct b; simpl; do 2 f_equal; lia.
Qed.

Lemma batchInner_matchesAll (rs : list TableRow) (where_ : WhereCondition)
  (set_ : Obj.t Value) (m t : nat) :
  batchInner rs where_ set_ m t =
  (bs <- matchesAll rs where_ ;;
   Ok (assignWhere bs rs set_, (m + countTrue bs, t + countTrue bs))).
Proof.
  revert m t. induction rs as [|row rs IH]; intros m t; simpl.
  - now rewrite !Nat.add_0_r.
  - destruct (matchesCondition row where_) as [b|e]; simpl; [|reflexivity].
    rewrite IH. destruct (matchesAll rs where_) as [bs|e]; simpl; [|reflexivity].
    rewrite countTrue_cons. destruct b; simpl; do 3 f_equal; lia.
Qed.

Lemma batchLoop_foldPairs (rs : list TableRow) (us : list Update) (t : nat)
  (ds : list Detail) :
  batchLoop rs us t ds =
  (q <- foldPairs rs us ;;
   Ok (fst q, (t + list_sum (snd q), ds ++ detailsOf us (snd q))%list)).
Proof.
  revert rs t ds. induction us as [|u us IH]; intros rs t ds; simpl.
  - now rewrite Nat.add_0_r, app_nil_r.
  - rewrite batchInner_matchesAll. unfold applyPair.
    destruct (matchesAll rs (u_where u)) as [bs|e]; simpl; [|reflexivity].
    rewrite IH. destruct (foldPairs _ us) as [q|e]; simpl; [|reflexivity].
    rewrite <- app_assoc. simpl. do 3 f_equal. lia.
Qed.

Lemma foldPairs_snoc (rs : list TableRow) (us : list Update) (u : Update) :
  foldPairs rs (us ++ [u]) =
  (q <- foldPairs rs us ;;
   p <- applyPair (fst q) u ;;
   Ok (fst p, snd q ++ [snd p])%list).
Proof.
  revert rs. induction us as [|u0 us IH]; intros rs; simpl.
  - destruct (applyPair rs u) as [p|e]; reflexivity.
  - destruct (applyPair rs u0) as [p0|e]; simpl; [|reflexivity].
    rewrite IH. destruct (foldPairs (fst p0) us) as [q|e]; simpl; [|reflexivity].
    destruct (applyPair (fst q) u) as [p|e]; reflexivity.
Qed.

Lemma foldPairs_counts (rs : list TableRow) (us : list Update)
  (q : list TableRow * list nat) :
  foldPairs rs us = Ok q -> List.length (snd q) = List.length us.
Proof.
  revert rs q. induction us as [|u us IH]; intros rs q; simpl.
  - intros H. now injection H as <-.
  - destruct (applyPair rs u) as [p|e]; simpl; [|discriminate].
    destruct (foldPairs (fst p) us) as [q'|e] eqn:E; simpl; [|discriminate].
    intros H. injection H as <-. simpl. f_equal. eapply IH; eauto.
Qed.

Lemma detailsOf_where (us : list Update) (counts : list nat) :
  List.length counts = List.length us ->
  map d_where (detailsOf us counts) = map u_where us
  /\ map matched (detailsOf us counts) = counts.
Proof.
  revert counts. induction us as [|u us IH]; intros [|n counts]; simpl;
    try discriminate; [tauto|].
  intros H. injection H as H. destruct (IH counts H) as [-> ->]. tauto.
Qed.

Lemma assign_other (row : TableRow) (set_ : Obj.t Value) (c : string) :
  ~ In c (Obj.keys set_) -> Obj.lookup (assign row set_) c = Obj.lookup row c.
Proof.
  unfold assign, Obj.entries. revert row.
  induction set_ as [|[k v] s IH]; intros row Hn; simpl; [reflexivity|].
  simpl in Hn. rewrite IH by tauto. apply lookup_set_other. intuition.
Qed.

Lemma assign_keys (row : TableRow) (set_ : Obj.t Value) (k : string) :
  In k (Obj.keys (assign row set_)) <->
  In k (Obj.keys row) \/ (In k (Obj.keys set_) /\ k <> "__proto__").
Proof.
  unfold assign, Obj.entries. revert row.
  induction set_ as [|[k0 v0] s IH]; intros row; simpl; [tauto|].
  rewrite IH, keys_set. split.
  - intros [[[-> H]|H]|[H1 H2]]; auto.
  - intros [H|[[->|H1] H2]]; auto.
Qed.

(** Every entry of [set] is on the row after the assignment, save an entry
    [__proto__] on a row without such a property. *)
Lemma assign_entry (row : TableRow) (set_ : Obj.t Value) (c : string) (v : Value) :
  NoDup (Obj.keys set_) -> In (c, v) set_ ->
  c <> "__proto__" \/ In c (Obj.keys row) ->
  Obj.lookup (assign row set_) c = Some v.
Proof.
  revert row. induction set_ as [|[k v0] s IH]; intros row Hnd Hin Hc; [destruct Hin|].
  simpl in Hnd. inversion Hnd as [|? ? Hk Hnd']; subst.
  destruct Hin as [E|Hin].
  - injection E as -> ->.
    change (assign row ((c, v) :: s)) with (assign (Obj.set row c v) s).
    rewrite assign_other by exact Hk. now apply lookup_set_same.
  - change (assign row ((k, v0) :: s)) with (assign (Obj.set row k v0) s).
    apply IH; try assumption.
    destruct Hc as [Hc|Hc]; [now left|right]. apply keys_set. now right.
Qed.

(** An assignment never makes a property [__proto__]. *)
Lemma assign_proto (row : TableRow) (set_ : Obj.t Value) :
  Obj.lookup row "__proto__" = None -> Obj.lookup (assign row set_) "__proto__" = None.
Proof.
  intros H. apply lookup_None_keys. apply lookup_None_keys in H.
  rewrite assign_keys. tauto.
Qed.

Lemma updateTableRows_matchesAll (aoa : Aoa) (where_ : WhereCondition)
  (set_ : Obj.t Value) :
  updateTableRows aoa where_ set_ =
  (bs <- matchesAll (rows (sheetToTable aoa)) where_ ;;
   let rs := assignWhere bs (rows (sheetToTable aoa)) set_ in
   Ok (mkUpdateResult (mkTable (headers (sheetToTable aoa)) rs)
         (toAoa (headers (sheetToTable aoa)) rs) (countTrue bs))).
Proof.
  unfold updateTableRows. rewrite updateLoop_matchesAll.
  destruct (matchesAll _ where_); reflexivity.
Qed.

(** C2, as the code has it.  [Update] never fails with a column-not-found
    error, whatever the table, the condition and the [set] mapping: its only
    failure is an unknown operator in the condition, and with the six known
    operators it succeeds.  On success the headers written are exactly the
    input headers, the rows are the input rows with [set] assigned on each
    matching row, and every entry of [set] is then on that row's cell map,
    also when its column is not among the headers, save an entry named
    [__proto__]: assigning to that name makes no property. *)
Theorem updateTableRows_accepts_unknown_column :
  forall (aoa : Aoa) (where_ : WhereCondition) (set_ : Obj.t Value),
    let t := sheetToTable aoa in
    (forall col available,
        updateTableRows aoa where_ set_ <> Throw (ColumnNotFound col available))
    /\ (wellFormedWhere where_ = true ->
        exists res, updateTableRows aoa where_ set_ = Ok res)
    /\ (forall res,
          updateTableRows aoa where_ set_ = Ok res ->
          headers (ur_table res) = headers t
          /\ hd [] (ur_newAoa res) = map VStr (headers t)
          /\ rows (ur_table res) =
               map (fun row => if matchesB where_ row then assign row set_ else row)
                   (rows t)
          /\ updatedCount res = List.length (filter (matchesB where_) (rows t))
          /\ (NoDup (Obj.keys set_) ->
              forall i row c v,
                nth_error (rows t) i = Some row -> matchesB where_ row = true ->
                In (c, v) set_ -> c <> "__proto__" ->
                exists row', nth_error (rows (ur_table res)) i = Some row'
                             /\ Obj.lookup row' c = Some v)
          /\ (forall i row,
                nth_error (rows t) i = Some row ->
                Obj.lookup row "__proto__" = None ->
                exists row', nth_error (rows (ur_table res)) i = Some row'
                             /\ Obj.lookup row' "__proto__" = None)).
Proof.
  intros aoa where_ set_ t. split; [|split].
  - intros col available H. rewrite updateTableRows_matchesAll in H.
    destruct (matchesAll _ where_) as [bs|e] eqn:E; simpl in H; [discriminate|].
    injection H as ->. apply matchesAll_throws in E. destruct E as [op E]. discriminate.
  - intros Hwf. rewrite updateTableRows_matchesAll.
    destruct (matchesAll_wellFormed (rows (sheetToTable aoa)) where_ Hwf) as [bs ->].
    simpl. eauto.
  - intros res H. rewrite updateTableRows_matchesAll in H. fold t in H.
    destruct (matchesAll (rows t) where_) as [bs|e] eqn:E; simpl in H; [|discriminate].
    injection H as <-. simpl. apply matchesAll_Ok in E. subst bs.
    rewrite assignWhere_map, countTrue_map.
    split; [reflexivity|]. split; [reflexivity|]. split; [reflexivity|].
    split; [reflexivity|]. split.
    + intros Hnd i row c v Hi Hm Hin Hc.
      exists (assign row set_). split.
      * rewrite nth_error_map, Hi. simpl. now rewrite Hm.
      * apply assign_entry; auto.
    + intros i row Hi Hp. eexists. split.
      * rewrite nth_error_map, Hi. reflexivity.
      * destruct (matchesB where_ row); [now apply assign_proto|exact Hp].
Qed.

Lemma updateTableRows_accepts_unknown_column_witness :
  exists res,
    updateTableRows [[VStr "id"; VStr "status"]; [VNum 1; VStr "Done"]]
      [("id", Literal (VNum 1))] [("owner", VStr "ann")] = Ok res
    /\ headers (ur_table res) = ["id"; "status"]
    /\ exists row', nth_error (rows (ur_table res)) 0 = Some row'
                    /\ Obj.lookup row' "owner" = Some (VStr "ann").
Proof.
  destruct (updateTableRows_accepts_unknown_column
              [[VStr "id"; VStr "status"]; [VNum 1; VStr "Done"]]
              [("id", Literal (VNum 1))] [("owner", VStr "ann")])
    as (_ & Hok & Hres).
  destruct (Hok eq_refl) as [res E]. exists res. split; [exact E|].
  destruct (Hres res E) as (Hh & _ & _ & _ & Hset & _). split; [exact Hh|].
  assert (Hnd : NoDup (Obj.keys [("owner", VStr "ann")])).
  { repeat constructor. simpl. tauto. }
  apply (Hset Hnd 0 [("id", VNum 1); ("status", VStr "Done")] "owner" (VStr "ann")).
  - reflexivity.
  - reflexivity.
  - now left.
  - discriminate.
Defined.

(** C2 fails as stated: the [set] entry [__proto__] is written on no row,
    though the row matches and is counted. *)
Lemma updateTableRows_proto_counterexample :
  updateTableRows [[VStr "id"]; [VNum 1]]
    [("id", Literal (VNum 1))] [("__proto__", VStr "x"); ("owner", VStr "ann")]
  = Ok (mkUpdateResult
          (mkTable ["id"] [[("id", VNum 1); ("owner", VStr "ann")]])
          [[VStr "id"]; [VNum 1]] 1).
Proof. vm_compute. reflexivity. Qed.

(** The AppleScript transport of the same update addresses cells by header
    index and does reject a column that is no header. *)
Lemma updateRowsViaAppleScript_rejects_unknown_column :
  updateRowsViaAppleScript [[VStr "id"; VStr "status"]; [VNum 1; VStr "Done"]]
    [("id", Literal (VNum 1))] [("owner", VStr "ann")]
  = Throw (ColumnNotFound "owner" ["id"; "status"]).
Proof. reflexivity. Qed.

Lemma batchUpdateTableRows_foldPairs (aoa : Aoa) (updates : list Update) :
  batchUpdateTableRows aoa updates =
  (q <- foldPairs (rows (sheetToTable aoa)) updates ;;
   Ok (mkBatchResult (mkTable (headers (sheetToTable aoa)) (fst q))
         (toAoa (headers (sheetToTable aoa)) (fst q))
         (list_sum (snd q)) (detailsOf updates (snd q)))).
Proof.
  unfold batchUpdateTableRows. rewrite batchLoop_foldPairs.
  destruct (foldPairs _ updates); reflexivity.
Qed.

(** [batchUpdateTableRows] is a fold over the pairs in array order: the
    first pair is applied to the loaded rows and every later pair to the rows
    as the earlier pairs left them, its [where] being judged on those mutated
    rows.  One pair assigns its [set] on each row it matches; [details]
    lists, per pair and in input order, the number of rows it matched;
    [updatedCount] is the sum of these counts; and a row assigned by two
    pairs ends with the later pair's value on every column the later pair
    sets, a column [__proto__] the row has no property for apart. *)
Theorem batchUpdate_sequential_fold :
  forall (aoa : Aoa) (updates : list Update),
    let t := sheetToTable aoa in
    batchUpdateTableRows aoa updates =
      (q <- foldPairs (rows t) updates ;;
       Ok (mkBatchResult (mkTable (headers t) (fst q)) (toAoa (headers t) (fst q))
             (list_sum (snd q)) (detailsOf updates (snd q))))
    /\ (forall rs us u,
          foldPairs rs (us ++ [u]) =
          (q <- foldPairs rs us ;;
           p <- applyPair (fst q) u ;;
           Ok (fst p, snd q ++ [snd p])%list))
    /\ (forall rs u p,
          applyPair rs u = Ok p ->
          fst p = map (fun row => if matchesB (u_where u) row
                                  then assign row (u_set u) else row) rs
          /\ snd p = List.length (filter (matchesB (u_where u)) rs))
    /\ (forall res,
          batchUpdateTableRows aoa updates = Ok res ->
          map d_where (br_details res) = map u_where updates
          /\ br_updatedCount res = list_sum (map matched (br_details res)))
    /\ (forall row s1 s2 c v,
          NoDup (Obj.keys s2) -> In (c, v) s2 ->
          c <> "__proto__" \/ In c (Obj.keys row) ->
          Obj.lookup (assign (assign row s1) s2) c = Some v).
Proof.
  intros aoa updates t. split; [apply batchUpdateTableRows_foldPairs|].
  split; [apply foldPairs_snoc|]. split; [|split].
  - intros rs u p H. unfold applyPair in H.
    destruct (matchesAll rs (u_where u)) as [bs|e] eqn:E; simpl in H; [|discriminate].
    injection H as <-. simpl. apply matchesAll_Ok in E. subst bs.
    now rewrite assignWhere_map, countTrue_map.
  - intros res H. rewrite batchUpdateTableRows_foldPairs in H.
    destruct (foldPairs _ updates) as [q|e] eqn:E; simpl in H; [|discriminate].
    injection H as <-. simpl.
    destruct (detailsOf_where updates (snd q) (foldPairs_counts _ _ _ E)) as [-> ->].
    tauto.
  - intros row s1 s2 c v Hnd Hin Hc. apply assign_entry; try assumption.
    destruct Hc as [Hc|Hc]; [now left|right]. apply assign_keys. now left.
Qed.

Lemma batchUpdate_sequential_fold_witness :
  exists res,
    batchUpdateTableRows
      [[VStr "id"; VStr "p"]; [VNum 1; VNull]; [VNum 2; VNull]]
      [mkUpdate [("id", Literal (VNum 1))] [("p", VStr "P0")];
       mkUpdate [("p", Literal (VStr "P0"))] [("p", VStr "P1")]] = Ok res
    /\ rows (br_table res) =
         [[("id", VNum 1); ("p", VStr "P1")]; [("id", VNum 2); ("p", VNull)]]
    /\ map matched (br_details res) = [1; 1]
    /\ br_updatedCount res = 2.
Proof.
  eexists. split.
  - rewrite (proj1 (batchUpdate_sequential_fold _ _)). reflexivity.
  - repeat split.
Defined.

(** C1.  The batch the tool runs, [batchUpdateRowsViaAppleScript], is no
    fold: it judges every [where] on the rows as loaded.  On a sheet of two
    rows, the pair that sets [p] to [P0] on row [1] followed by the pair that
    sets [p] to [P1] where [p] is [P0] gives the details [1; 0], the count
    [1] and the one cell command [P0]; the in-memory [batchUpdateTableRows]
    gives on the same input the fold of the claim, the details [1; 1], the
    count [2] and [P1] on row [1]. *)
Theorem batch_transport_judges_loaded_rows :
  (exists res,
      batchUpdateRowsViaAppleScript chainedSheet chainedUpdates = Ok res
      /\ map matched (btr_details res) = [1; 0]
      /\ btr_updatedCount res = 1
      /\ btr_cells res = [mkCellUpdate 2 2 (VStr "P0")])
  /\ (exists res,
        batchUpdateTableRows chainedSheet chainedUpdates = Ok res
        /\ map matched (br_details res) = [1; 1]
        /\ br_updatedCount res = 2
        /\ rows (br_table res) =
             [[("id", VNum 1); ("p", VStr "P1")]; [("id", VNum 2); ("p", VNull)]]).
Proof.
  split; eexists; (split; [vm_compute; reflexivity|]); repeat split.
Qed.

(** ** Colour inference *)

Section MapFacts.
Context {V : Type}.
Implicit Types (m : JsMap.t V) (k : string) (v : V).

Lemma map_get_set_same m k v : JsMap.get (JsMap.set m k v) k = Some v.
Proof.
  unfold JsMap.get, JsMap.set, Obj.has. destruct (Obj.lookup m k) eqn:E.
  - apply lookup_replace_same. congruence.
  - rewrite lookup_app, E. simpl. now rewrite String.eqb_refl.
Qed.

Lemma map_get_set_other m k v k' :
  k' <> k -> JsMap.get (JsMap.set m k v) k' = JsMap.get m k'.
Proof.
  intros Hne. unfold JsMap.get, JsMap.set, Obj.has. destruct (Obj.lookup m k) eqn:E.
  - now apply lookup_replace_other.
  - rewrite lookup_app. destruct (Obj.lookup m k'); [reflexivity|].
    simpl. apply String.eqb_neq in Hne. rewrite String.eqb_sym in Hne. now rewrite Hne.
Qed.

Lemma map_has_get m k : JsMap.has m k = true <-> JsMap.get m k <> None.
Proof.
  unfold JsMap.has, JsMap.get, Obj.has. destruct (Obj.lookup m k); split;
    congruence.
Qed.

Lemma map_keys_get m k : In k (JsMap.keys m) <-> JsMap.get m k <> None.
Proof.
  unfold JsMap.get. rewrite (lookup_None_keys (V := V) m k). unfold JsMap.keys, Obj.keys.
  destruct (in_dec string_dec k (map fst m)); tauto.
Qed.

End MapFacts.

Lemma coloredOf_app (v : string) (a b : list (string * option RGBColor)) :
  coloredOf v (a ++ b) = (coloredOf v a ++ coloredOf v b)%list.
Proof.
  induction a as [|[x [c|]] a IH]; simpl; [reflexivity| |exact IH].
  destruct (String.eqb x v); simpl; now rewrite IH.
Qed.

Lemma uncoloredOf_app (v : string) (a b : list (string * option RGBColor)) :
  uncoloredOf v (a ++ b) = uncoloredOf v a + uncoloredOf v b.
Proof.
  induction a as [|[x [c|]] a IH]; simpl; [reflexivity|exact IH|].
  destruct (String.eqb x v); simpl; now rewrite IH.
Qed.

Lemma tallyStep_tallyOf (st : Tally) (obs : list (string * option RGBColor))
  (value : string) (c : option RGBColor) :
  tallyOf st obs -> tallyOf (tallyStep st value c) (obs ++ [(value, c)]).
Proof.
  intros (Hc & Hn & Hr). destruct c as [c|]; unfold tallyStep; simpl.
  - split; [|split].
    + intros v. rewrite coloredOf_app. simpl.
      destruct (String.eqb value v) eqn:E.
      * apply String.eqb_eq in E. subst v. rewrite map_get_set_same.
        destruct (JsMap.has (valueColors st) value) eqn:Hh.
        -- rewrite Hc. destruct (coloredOf value obs); reflexivity.
        -- rewrite map_get_set_same. simpl.
           assert (Hg : JsMap.get (valueColors st) value = None).
           { destruct (JsMap.get (valueColors st) value) eqn:G; [|reflexivity].
             assert (JsMap.has (valueColors st) value = true)
               by (apply map_has_get; congruence). congruence. }
           rewrite Hc in Hg. destruct (coloredOf value obs); [reflexivity|discriminate].
      * apply String.eqb_neq in E. rewrite app_nil_r.
        rewrite map_get_set_other by congruence.
        destruct (JsMap.has (valueColors st) value).
        -- apply Hc.
        -- rewrite map_get_set_other by congruence. apply Hc.
    + intros v. rewrite uncoloredOf_app. simpl. rewrite Nat.add_0_r. apply Hn.
    + rewrite filter_app, length_app. simpl. lia.
  - split; [|split].
    + intros v. rewrite coloredOf_app. simpl. rewrite app_nil_r. apply Hc.
    + intros v. rewrite uncoloredOf_app. simpl.
      destruct (String.eqb value v) eqn:E.
      * apply String.eqb_eq in E. subst v. rewrite map_get_set_same, Hn.
        destruct (uncoloredOf value obs); simpl; f_equal; lia.
      * apply String.eqb_neq in E. rewrite map_get_set_other by congruence.
        rewrite Nat.add_0_r. apply Hn.
    + rewrite filter_app, length_app. simpl. lia.
Qed.

Lemma tallyLoop_fold (values : list string) (colors : list (option RGBColor))
  (i : nat) (st : Tally) :
  tallyLoop values colors i st =
  fold_left (fun st o => tallyStep st (fst o) (snd o)) (observeFrom values colors i) st.
Proof.
  revert i st. induction values as [|v values IH]; intros i st; simpl; [reflexivity|].
  apply IH.
Qed.

Lemma fold_tallyStep_tallyOf (more obs : list (string * option RGBColor)) (st : Tally) :
  tallyOf st obs ->
  tallyOf (fold_left (fun st o => tallyStep st (fst o) (snd o)) more st) (obs ++ more).
Proof.
  revert st obs. induction more as [|[v c] more IH]; intros st obs H; simpl.
  - now rewrite app_nil_r.
  - replace (obs ++ (v, c) :: more)%list with ((obs ++ [(v, c)]) ++ more)%list
      by now rewrite <- app_assoc.
    apply IH. now apply tallyStep_tallyOf.
Qed.

Lemma tallyLoop_tallyOf (values : list string) (colors : list (option RGBColor)) :
  tallyOf (tallyLoop values colors 0 (mkTally [] [] 0)) (observe values colors).
Proof.
  rewrite tallyLoop_fold.
  apply (fold_tallyStep_tallyOf (observe values colors) [] (mkTally [] [] 0)).
  repeat split.
Qed.

Lemma observeFrom_values (values : list string) (colors : list (option RGBColor))
  (i : nat) : map fst (observeFrom values colors i) = values.
Proof.
  revert i. induction values as [|v values IH]; intros i; simpl; [reflexivity|].
  now rewrite IH.
Qed.

(** A value occurs exactly when it has a coloured or an uncoloured position. *)
Lemma observed_value (v : string) (obs : list (string * option RGBColor)) :
  In v (map fst obs) <-> coloredOf v obs <> [] \/ uncoloredOf v obs <> 0.
Proof.
  induction obs as [|[x [c|]] obs IH]; simpl.
  - intuition congruence.
  - destruct (String.eqb x v) eqn:E.
    + apply String.eqb_eq in E. split; [intros _; left; discriminate|auto].
    + apply String.eqb_neq in E. rewrite IH. intuition.
  - destruct (String.eqb x v) eqn:E.
    + apply String.eqb_eq in E. split; [intros _; right; discriminate|auto].
    + apply String.eqb_neq in E. rewrite IH. intuition.
Qed.

(** *** The histogram of one value's colours *)

Section BucketFacts.
Variable key : RGBColor -> string.

Lemma bucketSize_snoc (cs : list RGBColor) (c : RGBColor) (k : string) :
  bucketSizeBy key (cs ++ [c]) k =
  bucketSizeBy key cs k + (if String.eqb (key c) k then 1 else 0).
Proof.
  unfold bucketSizeBy. rewrite filter_app, length_app. simpl.
  now destruct (String.eqb (key c) k).
Qed.

Lemma bucketSize_zero (cs : list RGBColor) (k : string) :
  ~ In k (map key cs) -> bucketSizeBy key cs k = 0.
Proof.
  unfold bucketSizeBy. induction cs as [|c cs IH]; simpl; [reflexivity|].
  intros Hn. destruct (String.eqb (key c) k) eqn:E.
  - apply String.eqb_eq in E. tauto.
  - apply IH. tauto.
Qed.

Lemma bucketSize_pos (cs : list RGBColor) (c : RGBColor) :
  In c cs -> 0 < bucketSizeBy key cs (key c).
Proof.
  unfold bucketSizeBy. induction cs as [|c0 cs IH]; simpl; [tauto|].
  intros [->|Hin].
  - rewrite String.eqb_refl. simpl. lia.
  - destruct (String.eqb (key c0) (key c)); simpl; auto with arith.
Qed.

Lemma bucketHeads_incl (seen : list string) (cs : list RGBColor) (c : RGBColor) :
  In c (bucketHeadsBy key seen cs) -> In c cs.
Proof.
  revert seen. induction cs as [|c0 cs IH]; intros seen; simpl; [tauto|].
  destruct (existsb _ seen); simpl; [eauto|]. intros [->|H]; eauto.
Qed.

Lemma bucketHeads_keys (seen : list string) (cs : list RGBColor) :
  map key (bucketHeadsBy key seen cs) = firstSeen seen (map key cs).
Proof.
  revert seen. induction cs as [|c cs IH]; intros seen; simpl; [reflexivity|].
  destruct (existsb _ seen); simpl; now rewrite IH.
Qed.

Lemma bucketHeads_snoc (seen : list string) (cs : list RGBColor) (c : RGBColor) :
  bucketHeadsBy key seen (cs ++ [c]) =
  (bucketHeadsBy key seen cs ++
   if existsb (String.eqb (key c)) (seen ++ map key cs) then [] else [c])%list.
Proof.
  revert seen. induction cs as [|c0 cs IH]; intros seen; simpl.
  - rewrite app_nil_r. now destruct (existsb _ seen).
  - destruct (existsb (String.eqb (key c0)) seen) eqn:E.
    + rewrite IH.
      assert (Hb : existsb (String.eqb (key c)) (seen ++ map key cs) =
                   existsb (String.eqb (key c)) (seen ++ key c0 :: map key cs)).
      { apply eq_true_iff_eq. rewrite !existsb_eqb_In, !in_app_iff. simpl.
        apply existsb_eqb_In in E. split; [tauto|].
        intros [H|[H|H]]; [tauto| |tauto]. left. rewrite <- H. exact E. }
      now rewrite Hb.
    + simpl. rewrite IH. rewrite <- app_assoc. reflexivity.
Qed.

Lemma histogram_replace (heads cs : list RGBColor) (c : RGBColor) (bk : Bucket) :
  NoDup (map key heads) ->
  Obj.lookup (map (fun h => (key h, mkBucket (bucketSizeBy key cs (key h)) h)) heads)
             (key c) = Some bk ->
  Obj.replace (map (fun h => (key h, mkBucket (bucketSizeBy key cs (key h)) h)) heads)
              (key c) (mkBucket (S (count bk)) (color bk)) =
  map (fun h => (key h, mkBucket (bucketSizeBy key (cs ++ [c]) (key h)) h)) heads.
Proof.
  induction heads as [|h heads IH]; simpl; [discriminate|].
  intros Hnd Hl. inversion Hnd as [|? ? Hh Hnd']; subst.
  rewrite bucketSize_snoc. rewrite (String.eqb_sym (key c)).
  destruct (String.eqb (key h) (key c)) eqn:E.
  - injection Hl as <-. simpl. apply String.eqb_eq in E.
    rewrite <- E, Nat.add_1_r. f_equal.
    apply map_ext_in. intros h' Hin. rewrite bucketSize_snoc.
    destruct (String.eqb (key c) (key h')) eqn:E'; [|now rewrite Nat.add_0_r].
    apply String.eqb_eq in E'. exfalso. apply Hh. rewrite E, E'. now apply in_map.
  - rewrite Nat.add_0_r. f_equal. now apply IH.
Qed.

Lemma replace_absent_app {V} (m : Obj.t V) (k : string) (v0 v : V) :
  Obj.lookup m k = None ->
  Obj.replace (m ++ [(k, v0)])%list k v = (m ++ [(k, v)])%list.
Proof.
  induction m as [|[k' v'] m IH]; simpl; intros H.
  - now rewrite String.eqb_refl.
  - destruct (String.eqb k' k); [discriminate|]. now rewrite IH.
Qed.

Lemma histogram_keys_lookup (cs : list RGBColor) (k : string) :
  Obj.lookup (histogramBy key cs) k = None <-> ~ In k (map key cs).
Proof.
  rewrite lookup_None_keys. unfold histogramBy, Obj.keys. rewrite map_map. simpl.
  change (map (fun x => key x) (bucketHeadsBy key [] cs))
    with (map key (bucketHeadsBy key [] cs)).
  rewrite bucketHeads_keys, firstSeen_In. simpl. tauto.
Qed.

Lemma countStep_histogram (cs : list RGBColor) (c : RGBColor) :
  countStepBy key (histogramBy key cs) c = histogramBy key (cs ++ [c]).
Proof.
  unfold countStepBy, JsMap.has, JsMap.get, JsMap.set, Obj.has.
  destruct (Obj.lookup (histogramBy key cs) (key c)) as [bk|] eqn:E.
  - rewrite E.
    assert (Hin : In (key c) (map key cs)).
    { destruct (in_dec string_dec (key c) (map key cs)) as [H|H]; [exact H|].
      apply histogram_keys_lookup in H. congruence. }
    unfold histogramBy in *. rewrite bucketHeads_snoc. simpl.
    apply existsb_eqb_In in Hin. rewrite Hin, app_nil_r.
    apply histogram_replace; [|exact E].
    rewrite bucketHeads_keys. apply firstSeen_NoDup.
  - rewrite lookup_app, E. simpl. rewrite String.eqb_refl.
    rewrite replace_absent_app by exact E.
    apply histogram_keys_lookup in E.
    unfold histogramBy. rewrite bucketHeads_snoc. simpl.
    destruct (existsb (String.eqb (key c)) (map key cs)) eqn:Hex.
    { apply existsb_eqb_In in Hex. contradiction. }
    rewrite map_app. simpl. rewrite bucketSize_snoc, String.eqb_refl.
    rewrite (bucketSize_zero cs) by exact E. simpl. f_equal.
    apply map_ext_in. intros h Hh. rewrite bucketSize_snoc.
    destruct (String.eqb (key c) (key h)) eqn:E'; [|now rewrite Nat.add_0_r].
    apply String.eqb_eq in E'. exfalso. apply E. rewrite E'.
    apply in_map. eapply bucketHeads_incl; eauto.
Qed.

Lemma fold_countStep_histogram (cs : list RGBColor) :
  fold_left (countStepBy key) cs [] = histogramBy key cs.
Proof.
  induction cs as [|c cs IH] using rev_ind; [reflexivity|].
  rewrite fold_left_app. simpl. rewrite IH. apply countStep_histogram.
Qed.

End BucketFacts.

(** The scan keeps the first bucket of the largest size. *)
Lemma dominantOf_from (bs : list Bucket) (n : nat) (oc : option RGBColor) :
  fold_left (fun acc bk =>
               if (fst acc <? count bk)%nat then (count bk, Some (color bk)) else acc)
            bs (n, oc) =
  if (n <? list_max (map count bs))%nat
  then (list_max (map count bs),
        option_map color
          (find (fun bk => (count bk =? list_max (map count bs))%nat) bs))
  else (n, oc).
Proof.
  revert n oc. induction bs as [|bk bs IH]; intros n oc; [reflexivity|].
  cbn [fold_left map list_max fold_right fst find].
  fold (list_max (map count bs)).
  destruct (Nat.ltb_spec n (count bk)) as [Hlt|Hge]; rewrite IH.
  - destruct (Nat.ltb_spec (count bk) (list_max (map count bs))) as [Hlt'|Hge'].
    + rewrite Nat.max_r by lia.
      destruct (Nat.ltb_spec n (list_max (map count bs))) as [_|?]; [|lia].
      destruct (Nat.eqb_spec (count bk) (list_max (map count bs))) as [?|_]; [lia|].
      reflexivity.
    + rewrite Nat.max_l by lia.
      destruct (Nat.ltb_spec n (count bk)) as [_|?]; [|lia].
      now rewrite Nat.eqb_refl.
  - destruct (Nat.ltb_spec n (list_max (map count bs))) as [Hlt'|Hge'].
    + rewrite Nat.max_r by lia.
      destruct (Nat.ltb_spec n (list_max (map count bs))) as [_|?]; [|lia].
      destruct (Nat.eqb_spec (count bk) (list_max (map count bs))) as [?|_]; [lia|].
      reflexivity.
    + destruct (Nat.ltb_spec n (Nat.max (count bk) (list_max (map count bs))))
        as [?|_]; [lia|reflexivity].
Qed.

Lemma dominantOf_first_max (bs : list Bucket) :
  (forall bk, In bk bs -> 0 < count bk) ->
  dominantOf bs =
  (list_max (map count bs),
   option_map color (find (fun bk => (count bk =? list_max (map count bs))%nat) bs)).
Proof.
  intros Hpos. unfold dominantOf. rewrite dominantOf_from.
  destruct (Nat.ltb_spec 0 (list_max (map count bs))) as [_|Hz]; [reflexivity|].
  destruct bs as [|bk bs]; [reflexivity|].
  exfalso. specialize (Hpos bk (or_introl eq_refl)).
  cbn [map list_max fold_right] in Hz. lia.
Qed.

Lemma find_map {A B} (f : B -> bool) (g : A -> B) (l : list A) :
  find f (map g l) = option_map g (find (fun a => f (g a)) l).
Proof.
  induction l as [|a l IH]; simpl; [reflexivity|].
  destruct (f (g a)); [reflexivity|exact IH].
Qed.

Lemma list_max_cons (n : nat) (l : list nat) :
  list_max (n :: l) = Nat.max n (list_max l).
Proof. reflexivity. Qed.

Section HeadsFacts.
Variable key : RGBColor -> string.

(** A test on keys finds the same first colour among the bucket heads. *)
Lemma find_heads (p : string -> bool) (seen : list string) (cs : list RGBColor) :
  (forall k, In k seen -> p k = false) ->
  find (fun c => p (key c)) (bucketHeadsBy key seen cs) = find (fun c => p (key c)) cs.
Proof.
  revert seen. induction cs as [|c cs IH]; intros seen Hseen; simpl; [reflexivity|].
  destruct (existsb (String.eqb (key c)) seen) eqn:E.
  - apply existsb_eqb_In in E. rewrite (Hseen _ E). now apply IH.
  - simpl. destruct (p (key c)) eqn:Hp; [reflexivity|].
    apply IH. intros k Hk. apply in_app_iff in Hk.
    destruct Hk as [Hk|[<-|[]]]; [now apply Hseen|exact Hp].
Qed.

Lemma max_heads (h : string -> nat) (seen : list string) (cs : list RGBColor) (s : nat) :
  (forall k, In k seen -> h k <= s) ->
  Nat.max s (list_max (map (fun c => h (key c)) (bucketHeadsBy key seen cs))) =
  Nat.max s (list_max (map (fun c => h (key c)) cs)).
Proof.
  revert seen s. induction cs as [|c cs IH]; intros seen s Hseen; [reflexivity|].
  cbn [bucketHeadsBy map]. rewrite list_max_cons.
  destruct (existsb (String.eqb (key c)) seen) eqn:E.
  - apply existsb_eqb_In in E. specialize (IH seen s Hseen).
    pose proof (Hseen _ E). lia.
  - cbn [map]. rewrite list_max_cons.
    assert (Hs : forall k, In k (seen ++ [key c]) -> h k <= Nat.max s (h (key c))).
    { intros k Hk. apply in_app_iff in Hk. destruct Hk as [Hk|[<-|[]]]; [|lia].
      pose proof (Hseen _ Hk). lia. }
    specialize (IH (seen ++ [key c])%list (Nat.max s (h (key c))) Hs). lia.
Qed.

Lemma dominantOf_histogramBy (cs : list RGBColor) :
  dominantOf (JsMap.values (histogramBy key cs)) = (maxBucketBy key cs, dominantBy key cs).
Proof.
  unfold JsMap.values, histogramBy. rewrite map_map. cbn [snd].
  rewrite dominantOf_first_max.
  - rewrite map_map. cbn [count].
    assert (Hmax : list_max (map (fun c => bucketSizeBy key cs (key c))
                                 (bucketHeadsBy key [] cs)) = maxBucketBy key cs).
    { pose proof (max_heads (bucketSizeBy key cs) [] cs 0) as H.
      simpl in H. apply H. tauto. }
    rewrite Hmax. f_equal. rewrite find_map. cbn [count].
    rewrite (find_heads (fun k => (bucketSizeBy key cs k =? maxBucketBy key cs)%nat))
      by (simpl; tauto).
    unfold dominantBy.
    destruct (find _ cs); reflexivity.
  - intros bk Hin. apply in_map_iff in Hin. destruct Hin as (c & <- & Hc).
    cbn [count]. apply bucketSize_pos. eapply bucketHeads_incl; eauto.
Qed.

(** What [dominantBy] returns: a colour of a largest bucket, with only
    smaller buckets before it. *)
Lemma dominantBy_Some (cs : list RGBColor) (c : RGBColor) :
  dominantBy key cs = Some c ->
  exists before after,
    cs = (before ++ c :: after)%list
    /\ bucketSizeBy key cs (key c) = maxBucketBy key cs
    /\ forall c', In c' before -> bucketSizeBy key cs (key c') < maxBucketBy key cs.
Proof.
  unfold dominantBy.
  assert (Hle : forall c', In c' cs -> bucketSizeBy key cs (key c') <= maxBucketBy key cs).
  { intros c' Hc'. unfold maxBucketBy.
    assert (H : list_max (map (fun c0 => bucketSizeBy key cs (key c0)) cs)
                <= list_max (map (fun c0 => bucketSizeBy key cs (key c0)) cs))
      by apply Nat.le_refl.
    rewrite list_max_le in H. rewrite Forall_forall in H.
    apply H. apply in_map_iff. eauto. }
  revert Hle. generalize (maxBucketBy key cs) as M. generalize (bucketSizeBy key cs) as h.
  intros h M. induction cs as [|c0 cs IH]; simpl; intros Hle; [discriminate|].
  destruct (Nat.eqb_spec (h (key c0)) M) as [E|Hne].
  - intros H. injection H as <-. exists [], cs. simpl. tauto.
  - intros H. destruct IH as (before & after & -> & Hm & Hb); [auto|exact H|].
    exists (c0 :: before), after. split; [reflexivity|]. split; [exact Hm|].
    intros c' [<-|Hc'].
    + specialize (Hle c0 (or_introl eq_refl)). lia.
    + now apply Hb.
Qed.

Lemma list_max_attained (l : list nat) : l <> [] -> In (list_max l) l.
Proof.
  induction l as [|n l IH]; [congruence|]. intros _. rewrite list_max_cons.
  destruct l as [|m l].
  - left. simpl. lia.
  - destruct (Nat.max_spec n (list_max (m :: l))) as [[_ ->]|[_ ->]].
    + right. apply IH. discriminate.
    + now left.
Qed.

Lemma dominantBy_nonempty (c0 : RGBColor) (cs : list RGBColor) :
  dominantBy key (c0 :: cs) <> None.
Proof.
  unfold dominantBy. intros H.
  assert (Hin : In (maxBucketBy key (c0 :: cs))
                   (map (fun c => bucketSizeBy key (c0 :: cs) (key c)) (c0 :: cs))).
  { unfold maxBucketBy. apply list_max_attained. discriminate. }
  apply in_map_iff in Hin. destruct Hin as (c & Hc & Hin).
  eapply find_none in H; [|exact Hin]. cbn beta in H.
  rewrite Hc, Nat.eqb_refl in H. discriminate.
Qed.

End HeadsFacts.

Lemma dominantOf_colorCounts (cs : list RGBColor) :
  dominantOf (JsMap.values (colorCountsOf cs)) = (maxBucket cs, dominantColor cs).
Proof.
  change (colorCountsOf cs) with (fold_left (countStepBy colorKey) cs []).
  rewrite fold_countStep_histogram. apply dominantOf_histogramBy.
Qed.

(** *** The second loop: one entry and one verdict per distinct value *)

Lemma mappingStep_tallyOf (st : Tally) (obs : list (string * option RGBColor))
  (acc : Mappings) (v : string) :
  tallyOf st obs ->
  mappingStep st acc v =
  mkMappings (Obj.set (m_colorMap acc) v (dominantColor (coloredOf v obs)))
             (consistentMappings acc + (if consistent obs v then 1 else 0))
             (S (totalMappings acc)).
Proof.
  intros (Hc & Hn & _). unfold mappingStep, consistent. rewrite Hc, Hn.
  destruct (coloredOf v obs) as [|c0 cs] eqn:E; cbn [orEmpty].
  - rewrite Nat.add_1_r. reflexivity.
  - rewrite dominantOf_colorCounts.
    assert (Hz : orZero (match uncoloredOf v obs with
                         | 0 => None
                         | S n => Some (S n)
                         end) = uncoloredOf v obs)
      by (destruct (uncoloredOf v obs); reflexivity).
    rewrite Hz.
    destruct (PrimFloat.leb _ _); rewrite ?Nat.add_1_r, ?Nat.add_0_r; reflexivity.
Qed.

Lemma fold_mappingStep (st : Tally) (obs : list (string * option RGBColor))
  (l : list string) (acc : Mappings) :
  tallyOf st obs ->
  (forall v,
      v <> "__proto__" ->
      Obj.lookup (m_colorMap (fold_left (mappingStep st) l acc)) v =
      if existsb (String.eqb v) l then Some (dominantColor (coloredOf v obs))
      else Obj.lookup (m_colorMap acc) v)
  /\ (Obj.lookup (m_colorMap acc) "__proto__" = None ->
      Obj.lookup (m_colorMap (fold_left (mappingStep st) l acc)) "__proto__" = None)
  /\ consistentMappings (fold_left (mappingStep st) l acc) =
       consistentMappings acc + List.length (filter (consistent obs) l)
  /\ totalMappings (fold_left (mappingStep st) l acc) =
       totalMappings acc + List.length l.
Proof.
  intros Ht. revert acc. induction l as [|x l IH]; intros acc.
  - cbn [fold_left existsb filter List.length]. rewrite !Nat.add_0_r.
    repeat split; auto.
  - cbn [fold_left]. destruct (IH (mappingStep st acc x)) as (Hl & Hp & Hc & Hn).
    rewrite (mappingStep_tallyOf st obs acc x Ht) in *.
    cbn [m_colorMap consistentMappings totalMappings] in *.
    split; [|split; [|split]].
    + intros v Hv. rewrite (Hl v Hv). cbn [existsb].
      destruct (existsb (String.eqb v) l) eqn:El.
      * now rewrite Bool.orb_true_r.
      * rewrite Bool.orb_false_r. destruct (String.eqb v x) eqn:Ex.
        -- apply String.eqb_eq in Ex. subst x. apply lookup_set_same. now left.
        -- apply String.eqb_neq in Ex. now apply lookup_set_other.
    + intros Hacc. apply Hp. apply lookup_None_keys. apply lookup_None_keys in Hacc.
      rewrite keys_set. intros [[E H]|H]; [congruence|contradiction].
    + rewrite Hc. cbn [filter]. destruct (consistent obs x); cbn [List.length]; lia.
    + rewrite Hn. cbn [List.length]. lia.
Qed.

Lemma filter_length_Permutation {A} (f : A -> bool) (l l' : list A) :
  Permutation l l' -> List.length (filter f l) = List.length (filter f l').
Proof.
  induction 1 as [|x l l' _ IH|x y l|l l' l'' _ IH1 _ IH2]; simpl.
  - reflexivity.
  - destruct (f x); simpl; now rewrite IH.
  - destruct (f x), (f y); reflexivity.
  - now rewrite IH1.
Qed.

(** The distinct values the second loop visits are those of the column. *)
Lemma allValues_Permutation (st : Tally) (values : list string)
  (colors : list (option RGBColor)) :
  tallyOf st (observe values colors) ->
  Permutation
    (Set_of (JsMap.keys (valueColors st) ++ JsMap.keys (valueNullCount st))%list)
    (nodup string_dec values).
Proof.
  intros (Hc & Hn & _). apply NoDup_Permutation.
  - apply Set_of_NoDup.
  - apply NoDup_nodup.
  - intros v. rewrite Set_of_In, in_app_iff, nodup_In, !map_keys_get, Hc, Hn.
    rewrite <- (observeFrom_values values colors 0) at 3.
    fold (observe values colors). rewrite observed_value.
    destruct (coloredOf v (observe values colors));
      destruct (uncoloredOf v (observe values colors));
      intuition congruence.
Qed.

(** On channels that are whole numbers of [0..255] the key of a colour is
    made of the nearest multiples of ten. *)
Lemma channel_quantized (n : nat) :
  n <= 255 ->
  Number_toString (PrimFloat.mul (Math_round (PrimFloat.div (nat2float n) 10)) 10) =
  string_of_nat (quantize n).
Proof.
  intros Hn.
  assert (H : forallb
                (fun n => String.eqb
                   (Number_toString
                      (PrimFloat.mul (Math_round (PrimFloat.div (nat2float n) 10)) 10))
                   (string_of_nat (quantize n)))
                (seq 0 256) = true) by (vm_compute; reflexivity).
  rewrite forallb_forall in H. apply String.eqb_eq. apply H.
  apply in_seq. lia.
Qed.

Lemma observe_combine (values : list string) (colors : list (option RGBColor)) :
  List.length colors = List.length values ->
  observe values colors = combine values colors.
Proof.
  unfold observe.
  assert (H : forall skipped,
             List.length colors = List.length values ->
             observeFrom values (skipped ++ colors) (List.length skipped) =
             combine values colors).
  { revert colors. induction values as [|v values IH]; intros [|c colors] skipped Hlen;
      try discriminate; [reflexivity|].
    cbn [observeFrom combine]. rewrite app_nth2 by lia. rewrite Nat.sub_diag. cbn [nth].
    f_equal.
    replace (skipped ++ c :: colors)%list with ((skipped ++ [c]) ++ colors)%list
      by now rewrite <- app_assoc.
    replace (S (List.length skipped)) with (List.length (skipped ++ [c]))
      by (rewrite length_app; simpl; lia).
    apply IH. simpl in Hlen. lia. }
  intros Hlen. exact (H [] Hlen).
Qed.

Lemma maxBucketBy_le_length (key : RGBColor -> string) (cs : list RGBColor) :
  maxBucketBy key cs <= List.length cs.
Proof.
  unfold maxBucketBy. apply list_max_le. apply Forall_forall.
  intros n Hn. apply in_map_iff in Hn. destruct Hn as (c & <- & _).
  unfold bucketSizeBy. apply filter_length_le.
Qed.

Lemma threshold_exact (m t : nat) :
  1 <= t -> m <= t -> t <= 100 ->
  PrimFloat.leb 0.8 (PrimFloat.div (nat2float m) (nat2float t)) = (4 * t <=? 5 * m)%nat.
Proof.
  intros H1 Hm Ht.
  assert (H : forallb
                (fun t => forallb
                   (fun m => Bool.eqb
                      (PrimFloat.leb 0.8 (PrimFloat.div (nat2float m) (nat2float t)))
                      (4 * t <=? 5 * m)%nat)
                   (seq 0 (S t)))
                (seq 1 100) = true) by (vm_compute; reflexivity).
  rewrite forallb_forall in H.
  assert (Hin : In t (seq 1 100)) by (apply in_seq; lia).
  specialize (H t Hin). rewrite forallb_forall in H.
  apply Bool.eqb_prop. apply H. apply in_seq. lia.
Qed.

Lemma confidence_exact (k d : nat) :
  k <= d -> d <= 39 ->
  confidenceOf k d = PrimFloat.div (nat2float (exactHundredths k d)) 100.
Proof.
  intros Hk Hd.
  assert (H : forallb
                (fun d => forallb
                   (fun k => PrimFloat.Leibniz.eqb
                      (confidenceOf k d)
                      (PrimFloat.div (nat2float (exactHundredths k d)) 100))
                   (seq 0 (S d)))
                (seq 0 40) = true) by (vm_compute; reflexivity).
  rewrite forallb_forall in H.
  assert (Hin : In d (seq 0 40)) by (apply in_seq; lia).
  specialize (H d Hin). rewrite forallb_forall in H.
  apply FloatAxioms.Leibniz.eqb_spec. apply H. apply in_seq. lia.
Qed.

Lemma confidence_exact_100 (k d : nat) :
  k <= d -> d <= 100 ->
  confidenceOf k d =
  if ((0 <? d) && (40 * k =? 23 * d))%nat then 0.57%float
  else PrimFloat.div (nat2float (exactHundredths k d)) 100.
Proof.
  intros Hk Hd.
  assert (H : forallb
                (fun d => forallb
                   (fun k => PrimFloat.Leibniz.eqb
                      (confidenceOf k d)
                      (if ((0 <? d) && (40 * k =? 23 * d))%nat then 0.57%float
                       else PrimFloat.div (nat2float (exactHundredths k d)) 100))
                   (seq 0 (S d)))
                (seq 0 101) = true) by (vm_compute; reflexivity).
  rewrite forallb_forall in H.
  assert (Hin : In d (seq 0 101)) by (apply in_seq; lia).
  specialize (H d Hin). rewrite forallb_forall in H.
  apply FloatAxioms.Leibniz.eqb_spec. apply H. apply in_seq. lia.
Qed.

(** C8, as the code has it.  Colour inference, for the column's values and
    the row colours ([observe] pairs them by position; for lists of one
    length it is [combine]).  [colorMap] has an entry for each distinct value
    other than [__proto__], for which the assignment makes none, and no other
    entry: [null] for a value with no coloured position, which counts as
    consistent; otherwise the first-seen colour of the largest bucket under
    [colorKey] (the first such bucket on a tie), the value being consistent
    exactly when that bucket's size divided by the number of the value's
    positions, coloured or not, is at least 0.8 (on floats; for up to 100
    positions this is the exact ratio).  [confidence] is the number of
    consistent values over the number of distinct values put through
    [Math.round(x * 100) / 100], and [0] without values: for up to 100
    distinct values this is the ratio rounded to two decimals, a tie going
    up, unless the ratio is 23/40, where the float product falls under the
    tie and the result is 0.57.  [colorKey] rounds whole channels of
    [0..255] to the nearest multiple of ten.  On values A, A, A, B with
    colours red, red, blue, none the map sends A to red and B to [null], and
    the confidence is 0.5. *)
Theorem colorMapping_per_value_majority :
  forall (values : list string) (colors : list (option RGBColor)),
    let obs := observe values colors in
    let res := colorMappingOf values colors in
    let distinct := nodup string_dec values in
    let agreeing := List.length (filter (consistent obs) distinct) in
    (List.length colors = List.length values -> obs = combine values colors)
    /\ (forall v,
          v <> "__proto__" ->
          Obj.lookup (colorMap res) v =
          if existsb (String.eqb v) values
          then Some (dominantColor (coloredOf v obs)) else None)
    /\ Obj.lookup (colorMap res) "__proto__" = None
    /\ (forall v,
          coloredOf v obs = [] ->
          dominantColor (coloredOf v obs) = None /\ consistent obs v = true)
    /\ (forall v c0 cs,
          coloredOf v obs = c0 :: cs ->
          (exists c before after,
              dominantColor (c0 :: cs) = Some c
              /\ c0 :: cs = (before ++ c :: after)%list
              /\ bucketSize (c0 :: cs) (colorKey c) = maxBucket (c0 :: cs)
              /\ (forall c', In c' before ->
                             bucketSize (c0 :: cs) (colorKey c') < maxBucket (c0 :: cs)))
          /\ consistent obs v =
               PrimFloat.leb 0.8
                 (PrimFloat.div (nat2float (maxBucket (c0 :: cs)))
                    (nat2float (List.length (c0 :: cs) + uncoloredOf v obs)))
          /\ (List.length (c0 :: cs) + uncoloredOf v obs <= 100 ->
              consistent obs v =
              (4 * (List.length (c0 :: cs) + uncoloredOf v obs)
               <=? 5 * maxBucket (c0 :: cs))%nat))
    /\ confidence res = confidenceOf agreeing (List.length distinct)
    /\ (List.length distinct <= 100 ->
        40 * agreeing <> 23 * List.length distinct ->
        confidence res =
        PrimFloat.div (nat2float (exactHundredths agreeing (List.length distinct))) 100)
    /\ (List.length distinct <= 100 -> distinct <> [] ->
        40 * agreeing = 23 * List.length distinct ->
        confidence res = 0.57%float
        /\ exactHundredths agreeing (List.length distinct) = 58)
    /\ (values = [] -> confidence res = zero)
    /\ (forall r g b : nat,
          r <= 255 -> g <= 255 -> b <= 255 ->
          colorKey (mkRGB (nat2float r) (nat2float g) (nat2float b)) =
          string_of_nat (quantize r) ++ "," ++ string_of_nat (quantize g) ++ ","
            ++ string_of_nat (quantize b))
    /\ (let ex := colorMappingOf ["A"; "A"; "A"; "B"]
                    [Some (mkRGB 255 0 0); Some (mkRGB 255 0 0);
                     Some (mkRGB 0 0 255); None] in
        Obj.lookup (colorMap ex) "A" = Some (Some (mkRGB 255 0 0))
        /\ Obj.lookup (colorMap ex) "B" = Some None
        /\ confidence ex = 0.5%float).
Proof.
  intros values colors obs res distinct agreeing.
  pose proof (tallyLoop_tallyOf values colors) as Ht. fold obs in Ht.
  pose proof (allValues_Permutation _ values colors Ht) as Hperm.
  destruct (fold_mappingStep _ obs
              (Set_of (JsMap.keys (valueColors (tallyLoop values colors 0 (mkTally [] [] 0)))
                       ++ JsMap.keys (valueNullCount
                                        (tallyLoop values colors 0 (mkTally [] [] 0))))%list)
              (mkMappings [] 0 0) Ht) as (Hl & Hp & Hc & Hn).
  cbn [m_colorMap consistentMappings totalMappings] in Hl, Hp, Hc, Hn.
  rewrite (filter_length_Permutation _ _ _ Hperm) in Hc.
  rewrite (Permutation_length Hperm) in Hn.
  fold distinct in Hc, Hn. fold agreeing in Hc.
  assert (Hconf : confidence res = confidenceOf agreeing (List.length distinct)).
  { unfold res, colorMappingOf. cbn [confidence]. rewrite Hc, Hn. reflexivity. }
  assert (Hle : agreeing <= List.length distinct) by apply filter_length_le.
  split; [apply observe_combine|].
  split; [|split; [|split; [|split; [|split; [|split; [|split; [|split; [|split]]]]]]]].
  - intros v Hv. unfold res, colorMappingOf. cbn [colorMap]. rewrite (Hl v Hv).
    assert (Hb : existsb (String.eqb v)
                   (Set_of (JsMap.keys (valueColors (tallyLoop values colors 0 (mkTally [] [] 0)))
                            ++ JsMap.keys (valueNullCount
                                             (tallyLoop values colors 0 (mkTally [] [] 0))))%list)
                 = existsb (String.eqb v) values).
    { apply eq_true_iff_eq. rewrite !existsb_eqb_In. split; intros H.
      - apply (Permutation_in _ Hperm) in H. now apply nodup_In in H.
      - apply (Permutation_in _ (Permutation_sym Hperm)). now apply nodup_In. }
    rewrite Hb. reflexivity.
  - unfold res, colorMappingOf. cbn [colorMap]. now apply Hp.
  - intros v E. unfold consistent. rewrite E. split; reflexivity.
  - intros v c0 cs E. split; [|split].
    + destruct (dominantColor (c0 :: cs)) as [c|] eqn:Ed.
      * destruct (dominantBy_Some colorKey (c0 :: cs) c Ed)
          as (before & after & Hs & Hm & Hb).
        exists c, before, after. repeat split; assumption.
      * exfalso. exact (dominantBy_nonempty colorKey c0 cs Ed).
    + unfold consistent. rewrite E. reflexivity.
    + intros Htot. unfold consistent. rewrite E. apply threshold_exact.
      * cbn [List.length]. lia.
      * pose proof (maxBucketBy_le_length colorKey (c0 :: cs)) as Hm.
        unfold maxBucket. lia.
      * exact Htot.
  - exact Hconf.
  - intros Hd Hne. rewrite Hconf, (confidence_exact_100 _ _ Hle Hd).
    destruct (0 <? List.length distinct)%nat; [|reflexivity].
    destruct (Nat.eqb_spec (40 * agreeing) (23 * List.length distinct));
      [contradiction|reflexivity].
  - intros Hd Hne Heq. rewrite Hconf, (confidence_exact_100 _ _ Hle Hd).
    assert (Hpos : 0 < List.length distinct)
      by (destruct distinct; [congruence|simpl; lia]).
    clearbody agreeing.
    assert (Hcases : (agreeing = 23 /\ List.length distinct = 40)
                     \/ (agreeing = 46 /\ List.length distinct = 80)).
    { remember (List.length distinct) as d. clear - Hd Hle Hpos Heq. lia. }
    destruct Hcases as [[-> ->]|[-> ->]]; split; reflexivity.
  - intros Hv. unfold res. rewrite Hv. reflexivity.
  - intros r0 g0 b0 Hr Hg Hb. unfold colorKey. cbn [r g b].
    now rewrite !channel_quantized.
  - vm_compute. repeat split.
Qed.

Lemma colorMapping_per_value_majority_witness :
  Obj.lookup
    (colorMap (colorMappingOf ["A"; "A"; "A"; "B"]
                 [Some (mkRGB 255 0 0); Some (mkRGB 255 0 0);
                  Some (mkRGB 0 0 255); None])) "B" = Some None
  /\ consistent
       (observe ["A"; "A"; "A"; "B"]
          [Some (mkRGB 255 0 0); Some (mkRGB 255 0 0); Some (mkRGB 0 0 255); None])
       "B" = true
  /\ confidence
       (colorMappingOf ["A"; "A"; "A"; "B"]
          [Some (mkRGB 255 0 0); Some (mkRGB 255 0 0); Some (mkRGB 0 0 255); None])
     = 0.5%float.
Proof.
  pose proof (colorMapping_per_value_majority ["A"; "A"; "A"; "B"]
                [Some (mkRGB 255 0 0); Some (mkRGB 255 0 0);
                 Some (mkRGB 0 0 255); None]) as H.
  cbv zeta in H. destruct H as (_ & Hl & _ & Hz & _ & _ & Hr & _).
  destruct (Hz "B" eq_refl) as [Hd Hcs].
  split; [|split; [exact Hcs|]].
  - rewrite Hl by discriminate. rewrite Hd. reflexivity.
  - rewrite Hr; [vm_compute; reflexivity|vm_compute; lia|vm_compute; lia].
Defined.

(** C8 fails as stated: of the 40 distinct values of [driftValues] the 23
    uncoloured ones are consistent and the 17 half-coloured ones are not, so
    the ratio is 0.575, which rounds to 0.58; the confidence reported is
    0.57.  And a cell text [__proto__] gets no entry in [colorMap]. *)
Lemma colorMapping_rounding_counterexample :
  List.length (nodup string_dec driftValues) = 40
  /\ List.length (filter (consistent (observe driftValues driftColors))
                         (nodup string_dec driftValues)) = 23
  /\ confidence (colorMappingOf driftValues driftColors) = 0.57%float
  /\ colorMap (colorMappingOf ["__proto__"; "B"] [None; None]) = [("B", None)].
Proof. vm_compute. repeat split. Qed.

(** * Further properties of the code *)

(** ** The matcher: conjunction, missing columns, errors *)

Lemma matchesCondition_cons (row : TableRow) (clause : string * Condition)
  (rest : WhereCondition) :
  matchesCondition row (clause :: rest) =
  (b <- matchesCondition row [clause] ;;
   if b then matchesCondition row rest else Ok false).
Proof.
  destruct clause as [c [lit|op v]]; simpl.
  - now destruct (negb _).
  - repeat match goal with
           | |- context [if String.eqb op ?s then _ else _] =>
               destruct (String.eqb op s)
           | |- context [if negb ?t then _ else _] => destruct (negb t)
           | |- context [if strict_eq ?a ?b then _ else _] => destruct (strict_eq a b)
           end; reflexivity.
Qed.

(** A condition is the conjunction of its clauses, judged in key order and
    cut short at the first clause that fails: the clauses after a failing one
    are not looked at, not even for an unknown operator.  The empty condition
    matches every row, and a row matching a condition matches each part. *)
Theorem matchesCondition_short_circuit :
  forall (row : TableRow) (w1 w2 : WhereCondition),
    matchesCondition row (w1 ++ w2)%list =
      (b <- matchesCondition row w1 ;;
       if b then matchesCondition row w2 else Ok false)
    /\ matchesCondition row [] = Ok true
    /\ (matchesCondition row (w1 ++ w2)%list = Ok true ->
        matchesCondition row w1 = Ok true /\ matchesCondition row w2 = Ok true)
    /\ (matchesCondition row w1 = Ok false ->
        matchesCondition row (w1 ++ w2)%list = Ok false).
Proof.
  intros row w1 w2.
  assert (E : matchesCondition row (w1 ++ w2)%list =
              (b <- matchesCondition row w1 ;;
               if b then matchesCondition row w2 else Ok false)).
  { induction w1 as [|clause w1 IH]; [reflexivity|].
    rewrite <- app_comm_cons, matchesCondition_cons, (matchesCondition_cons row clause w1).
    destruct (matchesCondition row [clause]) as [[|]|e]; simpl; [exact IH| |]; reflexivity. }
  split; [exact E|]. split; [reflexivity|]. split.
  - rewrite E. destruct (matchesCondition row w1) as [[|]|e]; simpl;
      intros H; try discriminate. tauto.
  - intros H. now rewrite E, H.
Qed.

Lemma matchesCondition_short_circuit_witness :
  matchesCondition [("status", VStr "Done")]
    ([("status", Literal (VStr "Todo"))] ++ [("id", Operator "like" (VStr "x"))])%list
  = Ok false.
Proof.
  apply (proj2 (proj2 (proj2 (matchesCondition_short_circuit
                                [("status", VStr "Done")]
                                [("status", Literal (VStr "Todo"))]
                                [("id", Operator "like" (VStr "x"))])))).
  reflexivity.
Defined.

Lemma matchesCondition_contains (row : TableRow) (c : string) (v : Value) :
  matchesCondition row [(c, Operator "contains" v)] =
  Ok (includes (toLowerCase (ToString (Obj.get row c))) (toLowerCase (ToString v))).
Proof. simpl. now destruct (includes _ _). Qed.

(** A clause on a column the row does not have reads what the prototype
    holds under that name.  For an ordinary name that is [undefined]: a
    literal other than [undefined] never matches, [ne] against it always
    does, and [contains] looks the operand up in the word "undefined".  For
    the name of a member of [Object.prototype] it is that member: a
    primitive literal never matches, [ne] against a primitive always does,
    and [contains] looks the operand up in the member's source text.  The
    four numeric operators never match either way. *)
Theorem condition_on_missing_column :
  forall (row : TableRow) (c : string) (v : Value),
    Obj.lookup row c = None ->
    (Obj.inPrototype c = false -> v <> VUndefined ->
     matchesCondition row [(c, Literal v)] = Ok false
     /\ matchesCondition row [(c, Operator "ne" v)] = Ok true
     /\ matchesCondition row [(c, Operator "contains" v)] =
          Ok (includes "undefined" (toLowerCase (ToString v))))
    /\ (Obj.inPrototype c = true -> (forall name, v <> VBuiltin name) ->
        matchesCondition row [(c, Literal v)] = Ok false
        /\ matchesCondition row [(c, Operator "ne" v)] = Ok true
        /\ matchesCondition row [(c, Operator "contains" v)] =
             Ok (includes (toLowerCase (ToString (VBuiltin c)))
                          (toLowerCase (ToString v))))
    /\ (forall op, In op numericOps ->
                   matchesCondition row [(c, Operator op v)] = Ok false).
Proof.
  intros row c v Habs.
  pose proof (get_absent _ _ Habs) as Hget.
  split; [|split].
  - intros Hp Hv. rewrite (inherited_plain _ Hp) in Hget. repeat split.
    + simpl. rewrite Hget. destruct v; try reflexivity. congruence.
    + simpl. rewrite Hget. destruct v; try reflexivity. congruence.
    + rewrite matchesCondition_contains, Hget. reflexivity.
  - intros Hp Hv. rewrite (inherited_member _ Hp) in Hget. repeat split.
    + simpl. rewrite Hget. destruct v; try reflexivity. now elim (Hv name).
    + simpl. rewrite Hget. destruct v; try reflexivity. now elim (Hv name).
    + now rewrite matchesCondition_contains, Hget.
  - intros op Hop. rewrite matchesCondition_numeric by exact Hop.
    rewrite numericCompare_nan; [reflexivity|]. left. rewrite Hget.
    apply inherited_nan.
Qed.

Lemma condition_on_missing_column_witness :
  matchesCondition [("id", VNum 1)] [("owner", Operator "ne" VNull)] = Ok true
  /\ matchesCondition [("id", VNum 1)] [("owner", Literal VNull)] = Ok false
  /\ matchesCondition [("id", VNum 1)] [("toString", Operator "contains" (VStr "Native"))]
     = Ok true.
Proof.
  assert (Hv : VNull <> VUndefined) by discriminate.
  destruct (condition_on_missing_column [("id", VNum 1)] "owner" VNull eq_refl)
    as (Hplain & _).
  destruct (Hplain eq_refl Hv) as (Hlit & Hne & _).
  destruct (condition_on_missing_column [("id", VNum 1)] "toString" (VStr "Native")
              eq_refl) as (_ & Hmember & _).
  assert (Hs : forall name, VStr "Native" <> VBuiltin name) by discriminate.
  destruct (Hmember eq_refl Hs) as (_ & _ & Hc).
  split; [exact Hne|]. split; [exact Hlit|].
  rewrite Hc. vm_compute. reflexivity.
Defined.

Lemma knownOps_not_thrown (op : string) :
  existsb (String.eqb op) knownOps = false ->
  forall row c v rest,
    matchesCondition row ((c, Operator op v) :: rest) = Throw (UnknownOperator op).
Proof.
  intros H row c v rest. simpl in H.
  repeat match type of H with
         | (String.eqb op ?s || _)%bool = false =>
             apply Bool.orb_false_iff in H; destruct H as [? H]
         end.
  simpl.
  repeat match goal with
         | E : String.eqb op ?s = false |- context [String.eqb op ?s] => rewrite E
         end.
  reflexivity.
Qed.

(** The matcher's only exception is the unknown operator.  It is raised for
    the first clause, in key order, whose operator is none of the six, and
    only when every clause before it passed; its message names that
    operator.  A condition whose operators are all known never throws. *)
Theorem matchesCondition_errors :
  forall (row : TableRow) (where_ : WhereCondition),
    (forall e,
        matchesCondition row where_ = Throw e ->
        exists before c op v after,
          where_ = (before ++ (c, Operator op v) :: after)%list
          /\ e = UnknownOperator op
          /\ message e = "Unknown operator: " ++ op
          /\ existsb (String.eqb op) knownOps = false
          /\ matchesCondition row before = Ok true)
    /\ (wellFormedWhere where_ = true ->
        exists b, matchesCondition row where_ = Ok b).
Proof.
  intros row where_. split; [|apply matchesCondition_wellFormed].
  induction where_ as [|[c cond] rest IH]; intros e H; [discriminate|].
  rewrite matchesCondition_cons in H.
  destruct (matchesCondition row [(c, cond)]) as [[|]|e'] eqn:E; simpl in H.
  - destruct (IH e H) as (before & c' & op & v & after & -> & He & Hm & Hk & Hb).
    exists ((c, cond) :: before), c', op, v, after.
    repeat split; try assumption.
    rewrite matchesCondition_cons, E. simpl. exact Hb.
  - discriminate.
  - injection H as <-. destruct cond as [lit|op v].
    + simpl in E. destruct (negb _); discriminate.
    + exists [], c, op, v, rest.
      destruct (existsb (String.eqb op) knownOps) eqn:Hk.
      * exfalso.
        assert (Hwf : wellFormedWhere [(c, Operator op v)] = true)
          by (unfold wellFormedWhere; cbn [forallb snd]; now rewrite Hk).
        destruct (matchesCondition_wellFormed row _ Hwf) as [b Hb]. congruence.
      * rewrite (knownOps_not_thrown op Hk) in E. injection E as <-.
        repeat split.
Qed.

Lemma matchesCondition_errors_witness :
  exists b,
    matchesCondition [("qty", VStr "abc")]
      [("qty", Operator "gt" (VNum 1)); ("name", Operator "contains" VNull)] = Ok b.
Proof.
  exact (proj2 (matchesCondition_errors [("qty", VStr "abc")]
                  [("qty", Operator "gt" (VNum 1)); ("name", Operator "contains" VNull)])
               eq_refl).
Defined.

(** ** Queries *)

Lemma findRows_Ok (rs : list TableRow) (where_ : WhereCondition) (l : list TableRow) :
  findRows rs where_ = Ok l -> l = filter (matchesB where_) rs.
Proof.
  revert l. induction rs as [|row rs IH]; simpl; intros l H.
  - now injection H as <-.
  - unfold matchesB at 1.
    destruct (matchesCondition row where_) as [b|e]; simpl in H; [|discriminate].
    destruct (findRows rs where_) as [l'|e]; simpl in H; [|discriminate].
    injection H as <-. rewrite (IH l' eq_refl). now destruct b.
Qed.

Lemma findRows_Throw (rs : list TableRow) (where_ : WhereCondition) (e : Error) :
  findRows rs where_ = Throw e ->
  exists row, In row rs /\ matchesCondition row where_ = Throw e.
Proof.
  induction rs as [|row rs IH]; simpl; [discriminate|].
  destruct (matchesCondition row where_) as [b|e'] eqn:E; simpl.
  - destruct (findRows rs where_) as [l'|e'']; simpl; [discriminate|].
    intros H. injection H as <-. destruct (IH eq_refl) as (row' & Hin & Hr). eauto.
  - intros H. injection H as <-. eauto.
Qed.

Lemma findRows_wellFormed (rs : list TableRow) (where_ : WhereCondition) :
  wellFormedWhere where_ = true -> exists l, findRows rs where_ = Ok l.
Proof.
  intros H. induction rs as [|row rs [l IH]]; simpl; [eauto|].
  destruct (matchesCondition_wellFormed row where_ H) as [b ->]. rewrite IH.
  simpl. eauto.
Qed.

(** [findRows] returns the matching rows, all of them and in table order; it
    fails exactly when the matcher throws on some row, and never for a
    condition whose operators are known. *)
Theorem findRows_is_filter :
  forall (rs : list TableRow) (where_ : WhereCondition),
    (forall l, findRows rs where_ = Ok l -> l = filter (matchesB where_) rs)
    /\ (forall e, findRows rs where_ = Throw e ->
                  exists row, In row rs /\ matchesCondition row where_ = Throw e)
    /\ (wellFormedWhere where_ = true ->
        findRows rs where_ = Ok (filter (matchesB where_) rs)).
Proof.
  intros rs where_. split; [apply findRows_Ok|]. split; [apply findRows_Throw|].
  intros H. destruct (findRows_wellFormed rs where_ H) as [l E].
  rewrite E. f_equal. now apply findRows_Ok.
Qed.

Lemma findRows_is_filter_witness :
  findRows [[("id", VNum 1); ("status", VStr "Done")];
            [("id", VNum 2); ("status", VStr "Todo")]]
           [("status", Literal (VStr "Done"))]
  = Ok [[("id", VNum 1); ("status", VStr "Done")]].
Proof.
  exact (proj2 (proj2 (findRows_is_filter
                         [[("id", VNum 1); ("status", VStr "Done")];
                          [("id", VNum 2); ("status", VStr "Todo")]]
                         [("status", Literal (VStr "Done"))])) eq_refl).
Defined.

Lemma slice_length {A} (l : list A) (s e : Z) :
  List.length (slice l s e) <= List.length l.
Proof.
  unfold slice. rewrite length_firstn, length_skipn. lia.
Qed.

Lemma slice_In {A} (l : list A) (s e : Z) (x : A) : In x (slice l s e) -> In x l.
Proof.
  unfold slice. intros H.
  set (k := Z.to_nat _) in H. set (j := Z.to_nat _) in H.
  rewrite <- (firstn_skipn j l). apply in_or_app. right.
  rewrite <- (firstn_skipn k (skipn j l)). apply in_or_app. now left.
Qed.

Lemma filterColumns_length (rs : list TableRow) (cols : list string) :
  List.length (filterColumns rs cols) = List.length rs.
Proof. unfold filterColumns. apply length_map. Qed.

(** [findTableRows]: [totalMatches] is the number of matching rows of the
    sheet, whatever the columns, limit and offset are; [count] is the number
    of rows returned and never exceeds [totalMatches]; every row returned is
    a matching row of the sheet, projected on the columns when a non-empty
    column list is given. *)
Theorem findTableRows_counts :
  forall (aoa : Aoa) (where_ : WhereCondition) (options : Options) (res : FindResult),
    findTableRows aoa where_ options = Ok res ->
    fr_totalMatches res =
      List.length (filter (matchesB where_) (rows (sheetToTable aoa)))
    /\ fr_count res = List.length (fr_rows res)
    /\ fr_count res <= fr_totalMatches res
    /\ (forall row',
          In row' (fr_rows res) ->
          exists row,
            In row (rows (sheetToTable aoa)) /\ matchesB where_ row = true
            /\ row' = match columnsGiven options with
                      | Some cols => projectRow row cols
                      | None => row
                      end).
Proof.
  intros aoa where_ options res H. unfold findTableRows in H.
  destruct (findRows (rows (sheetToTable aoa)) where_) as [matched|e] eqn:E;
    simpl in H; [|discriminate].
  injection H as <-. cbn [fr_totalMatches fr_count fr_rows].
  apply findRows_Ok in E. subst matched.
  split; [reflexivity|]. split; [reflexivity|]. split.
  - unfold paginate. cbn [items]. etransitivity; [apply slice_length|].
    destruct (columnsGiven options); [rewrite filterColumns_length|]; apply Nat.le_refl.
  - intros row' Hin. unfold paginate in Hin. cbn [items] in Hin.
    apply slice_In in Hin. destruct (columnsGiven options) as [cols|].
    + unfold filterColumns in Hin. apply in_map_iff in Hin.
      destruct Hin as (row & <- & Hrow). apply filter_In in Hrow.
      exists row. tauto.
    + apply filter_In in Hin. exists row'. tauto.
Qed.

Lemma findTableRows_counts_witness :
  exists res,
    findTableRows [[VStr "id"; VStr "status"]; [VNum 1; VStr "Done"];
                   [VNum 2; VStr "Done"]; [VNum 3; VStr "Todo"]]
      [("status", Literal (VStr "Done"))] (mkOptions (Some ["id"]) (Some 1%Z) None)
    = Ok res
    /\ fr_totalMatches res = 2 /\ fr_count res = 1.
Proof.
  eexists. split; [reflexivity|].
  destruct (findTableRows_counts
              [[VStr "id"; VStr "status"]; [VNum 1; VStr "Done"];
               [VNum 2; VStr "Done"]; [VNum 3; VStr "Todo"]]
              [("status", Literal (VStr "Done"))]
              (mkOptions (Some ["id"]) (Some 1%Z) None) _ eq_refl) as (Ht & Hc & _).
  split; [exact Ht|exact Hc].
Defined.

Lemma paginate_window {A} (l : list A) (n o : Z) :
  (0 < n)%Z -> (0 <= o)%Z ->
  items (paginate l (Some n) (Some o)) = firstn (Z.to_nat n) (skipn (Z.to_nat o) l)
  /\ hasMore (paginate l (Some n) (Some o)) = (o + n <? Z.of_nat (List.length l))%Z.
Proof.
  intros Hn Ho. unfold paginate. simpl.
  destruct (Z.eqb_spec n 0) as [?|_]; [lia|].
  destruct (Z.eqb_spec o 0) as [->|_]; simpl; (split; [|reflexivity]);
    rewrite slice_window by lia; do 2 f_equal; lia.
Qed.

Lemma firstn_plus {A} (n m : nat) (l : list A) :
  (firstn n l ++ firstn m (skipn n l))%list = firstn (n + m) l.
Proof.
  revert l. induction n as [|n IH]; intros l; [reflexivity|].
  destruct l as [|x l]; simpl.
  - now rewrite firstn_nil.
  - f_equal. apply IH.
Qed.

(** Consecutive pages join up: the page of [n] rows at offset [o] followed by
    the page of [m] rows at offset [o + n] is the page of [n + m] rows at
    offset [o]. *)
Theorem paginate_pages_compose :
  forall (A : Type) (l : list A) (o n m : Z),
    (0 <= o)%Z -> (0 < n)%Z -> (0 < m)%Z ->
    (items (paginate l (Some n) (Some o)) ++
     items (paginate l (Some m) (Some (o + n)%Z)))%list =
    items (paginate l (Some (n + m)%Z) (Some o)).
Proof.
  intros A l o n m Ho Hn Hm.
  rewrite (proj1 (paginate_window l n o Hn Ho)).
  rewrite (proj1 (paginate_window l m (o + n) Hm ltac:(lia))).
  rewrite (proj1 (paginate_window l (n + m) o ltac:(lia) Ho)).
  replace (Z.to_nat (o + n)) with (Z.to_nat n + Z.to_nat o) by lia.
  rewrite <- skipn_skipn.
  replace (Z.to_nat (n + m)) with (Z.to_nat n + Z.to_nat m) by lia.
  apply firstn_plus.
Qed.

Lemma paginate_pages_compose_witness :
  (items (paginate [10; 20; 30; 40; 50] (Some 2%Z) (Some 1%Z)) ++
   items (paginate [10; 20; 30; 40; 50] (Some 1%Z) (Some 3%Z)))%list =
  [20; 30; 40].
Proof.
  exact (paginate_pages_compose nat [10; 20; 30; 40; 50] 1 2 1
           ltac:(lia) ltac:(lia) ltac:(lia)).
Defined.

Lemma slice_from {A} (l : list A) (o : Z) :
  (0 <= o)%Z -> slice l o (Z.of_nat (List.length l)) = skipn (Z.to_nat o) l.
Proof.
  intros Ho. destruct (Z.le_gt_cases (Z.of_nat (List.length l)) o) as [Hbig|Hsmall].
  - rewrite slice_past_end by exact Hbig. now rewrite skipn_all2 by lia.
  - rewrite slice_window by lia. apply firstn_all2. rewrite length_skipn. lia.
Qed.

(** With an offset [o >= 0] and a limit [n > 0], [hasMore] is [true] exactly
    when rows remain after the page returned.  Without a limit, or with the
    limit [0] that the code takes for none, the page is everything after the
    first [o] rows and [hasMore] is [false]. *)
Theorem paginate_hasMore_exact :
  forall (A : Type) (l : list A) (o : Z),
    (0 <= o)%Z ->
    (forall n,
        (0 < n)%Z ->
        (hasMore (paginate l (Some n) (Some o)) = true <->
         (o + Z.of_nat (List.length (items (paginate l (Some n) (Some o))))
          < Z.of_nat (List.length l))%Z))
    /\ (forall limit,
          limit = None \/ limit = Some 0%Z ->
          items (paginate l limit (Some o)) = skipn (Z.to_nat o) l
          /\ hasMore (paginate l limit (Some o)) = false).
Proof.
  intros A l o Ho. split.
  - intros n Hn. destruct (paginate_window l n o Hn Ho) as [-> ->].
    rewrite Z.ltb_lt, length_firstn, length_skipn. lia.
  - intros limit [-> | ->]; unfold paginate; simpl;
      (split; [|apply Z.ltb_irrefl]);
      (destruct (Z.eqb_spec o 0) as [->|_]; simpl; now apply slice_from).
Qed.

Lemma paginate_hasMore_exact_witness :
  hasMore (paginate [10; 20; 30] (Some 2%Z) (Some 1%Z)) = false
  /\ items (paginate [10; 20; 30] (Some 0%Z) (Some 1%Z)) = [20; 30].
Proof.
  destruct (paginate_hasMore_exact nat [10; 20; 30] 1 ltac:(lia)) as [Hm Hall].
  split.
  - destruct (hasMore (paginate [10; 20; 30] (Some 2%Z) (Some 1%Z))) eqn:E; [|reflexivity].
    apply (Hm 2%Z ltac:(lia)) in E. simpl in E. lia.
  - exact (proj1 (Hall (Some 0%Z) (or_intror eq_refl))).
Defined.

(** ** Loading a sheet and writing it back *)






(** [getTableData]: [totalRows] counts the data rows of the sheet, whatever
    the options; [rowCount] is the number of rows returned and never exceeds
    it; every header returned is a header of the sheet.  With no column list,
    or an empty one, headers and rows are those of the sheet.  With a
    non-empty column list the headers returned are the listed columns that
    the sheet has, while every row returned has all the listed columns as
    keys, the unknown ones included and [__proto__] alone left out. *)
Theorem getTableData_shape :
  forall (aoa : Aoa) (options : Options),
    let t := sheetToTable aoa in
    let d := getTableData aoa options in
    td_totalRows d = List.length aoa - 1
    /\ td_rowCount d = List.length (td_rows d)
    /\ td_rowCount d <= td_totalRows d
    /\ (forall h, In h (td_headers d) -> In h (headers t))
    /\ (columns options = None \/ columns options = Some [] ->
        td_headers d = headers t
        /\ td_rows d = items (paginate (rows t) (limit options) (offset options)))
    /\ (forall c cs,
          columns options = Some (c :: cs) ->
          td_headers d = filter (fun x => existsb (String.eqb x) (headers t)) (c :: cs)
          /\ forall row x,
              In row (td_rows d) ->
              (In x (Obj.keys row) <-> In x (c :: cs) /\ x <> "__proto__")).
Proof.
  intros aoa options t d.
  assert (Hlen : List.length (rows t) = List.length aoa - 1).
  { destruct aoa as [|first rest]; [reflexivity|].
    cbn [t sheetToTable rows List.length]. rewrite length_map. lia. }
  unfold d, getTableData. fold t.
  destruct (columnsGiven options) as [cols|] eqn:Eg;
    cbn [td_totalRows td_rowCount td_rows td_headers].
  - assert (Ec : columns options = Some cols /\ cols <> []).
    { unfold columnsGiven in Eg. destruct (columns options) as [[|c cs]|];
        try discriminate. injection Eg as <-. split; [reflexivity|discriminate]. }
    destruct Ec as [Ec Hne].
    split; [exact Hlen|]. split; [reflexivity|]. split; [|split; [|split]].
    + unfold paginate. cbn [items]. etransitivity; [apply slice_length|].
      rewrite filterColumns_length. apply Nat.le_refl.
    + intros h Hh. apply filter_In in Hh. destruct Hh as [_ Hh].
      now apply existsb_eqb_In in Hh.
    + intros [H|H]; rewrite H in Ec; [discriminate|]. injection Ec as <-. congruence.
    + intros c cs H. rewrite H in Ec. injection Ec as <-.
      split; [reflexivity|]. intros row x Hrow.
      unfold paginate in Hrow. cbn [items] in Hrow. apply slice_In in Hrow.
      unfold filterColumns in Hrow. apply in_map_iff in Hrow.
      destruct Hrow as (src & <- & _).
      rewrite (project_keys_in src (c :: cs) [] x). simpl. tauto.
  - split; [exact Hlen|]. split; [reflexivity|]. split; [|split; [|split]].
    + unfold paginate. cbn [items]. apply slice_length.
    + tauto.
    + intros _. split; reflexivity.
    + intros c cs H. unfold columnsGiven in Eg. rewrite H in Eg. discriminate.
Qed.

Lemma getTableData_shape_witness :
  td_headers (getTableData [[VStr "id"; VStr "status"]; [VNum 1; VStr "Done"]]
                (mkOptions (Some ["status"; "owner"]) None None)) = ["status"]
  /\ td_rows (getTableData [[VStr "id"; VStr "status"]; [VNum 1; VStr "Done"]]
                (mkOptions (Some []) None None))
     = [[("id", VNum 1); ("status", VStr "Done")]]
  /\ td_rows (getTableData [[VStr "id"; VStr "status"]; [VNum 1; VStr "Done"]]
                (mkOptions (Some ["__proto__"; "owner"]) None None))
     = [[("owner", VUndefined)]].
Proof.
  destruct (getTableData_shape [[VStr "id"; VStr "status"]; [VNum 1; VStr "Done"]]
              (mkOptions (Some ["status"; "owner"]) None None))
    as (_ & _ & _ & _ & _ & Hcols).
  destruct (getTableData_shape [[VStr "id"; VStr "status"]; [VNum 1; VStr "Done"]]
              (mkOptions (Some []) None None))
    as (_ & _ & _ & _ & Hall & _).
  split; [|split].
  - exact (proj1 (Hcols "status" ["owner"] eq_refl)).
  - exact (proj2 (Hall (or_intror eq_refl))).
  - vm_compute. reflexivity.
Defined.

(** ** Delete *)

Lemma remainingRows_Ok (rs : list TableRow) (where_ : WhereCondition)
  (l : list TableRow) :
  remainingRows rs where_ = Ok l ->
  l = filter (fun row => negb (matchesB where_ row)) rs.
Proof.
  revert l. induction rs as [|row rs IH]; simpl; intros l H.
  - now injection H as <-.
  - unfold matchesB at 1.
    destruct (matchesCondition row where_) as [b|e]; simpl in H; [|discriminate].
    destruct (remainingRows rs where_) as [l'|e]; simpl in H; [|discriminate].
    injection H as <-. rewrite (IH l' eq_refl). now destruct b.
Qed.

(** [Delete] removes exactly the matching rows: the rows written are the
    non-matching rows in their order under the unchanged header row,
    [deletedCount] is the number of rows [findRows] returns for the same
    condition, [deletedCount] and [remainingRows] add up to the original row
    count, and no remaining row matches the condition. *)
Theorem deleteTableRows_partition :
  forall (aoa : Aoa) (where_ : WhereCondition) (res : DeleteResult),
    deleteTableRows aoa where_ = Ok res ->
    let t := sheetToTable aoa in
    let kept := filter (fun row => negb (matchesB where_ row)) (rows t) in
    dr_newAoa res = toAoa (headers t) kept
    /\ dr_remainingRows res = List.length kept
    /\ findRows (rows t) where_ = Ok (filter (matchesB where_) (rows t))
    /\ deletedCount res = List.length (filter (matchesB where_) (rows t))
    /\ deletedCount res + dr_remainingRows res = List.length (rows t)
    /\ (forall row, In row kept -> matchesCondition row where_ = Ok false).
Proof.
  intros aoa where_ res H t kept. unfold deleteTableRows in H. fold t in H.
  destruct (remainingRows (rows t) where_) as [remaining|e] eqn:E;
    simpl in H; [|discriminate].
  injection H as <-. cbn [dr_newAoa dr_remainingRows deletedCount].
  assert (Hall : forall row, In row (rows t) -> exists b, matchesCondition row where_ = Ok b).
  { clear kept. revert remaining E. induction (rows t) as [|r0 rs IH]; intros remaining E row Hin;
      [destruct Hin|].
    simpl in E. destruct (matchesCondition r0 where_) as [b|e] eqn:Eb; simpl in E;
      [|discriminate].
    destruct (remainingRows rs where_) as [l'|e]; simpl in E; [|discriminate].
    destruct Hin as [<-|Hin]; [eauto|]. eapply IH; eauto. }
  apply remainingRows_Ok in E. subst remaining. fold kept.
  pose proof (filter_length (matchesB where_) (rows t)) as Hlen. fold kept in Hlen.
  split; [reflexivity|]. split; [reflexivity|]. split; [|split; [|split]].
  - destruct (findRows (rows t) where_) as [l|e] eqn:Ef.
    + f_equal. now apply findRows_Ok.
    + apply findRows_Throw in Ef. destruct Ef as (row & Hin & Hr).
      destruct (Hall row Hin) as [b Hb]. congruence.
  - lia.
  - lia.
  - intros row Hin. apply filter_In in Hin. destruct Hin as [Hin Hm].
    destruct (Hall row Hin) as [b Hb]. unfold matchesB in Hm. rewrite Hb in *.
    destruct b; [discriminate|reflexivity].
Qed.

Lemma deleteTableRows_partition_witness :
  exists res,
    deleteTableRows [[VStr "id"; VStr "status"]; [VNum 1; VStr "Done"];
                     [VNum 2; VStr "Todo"]]
      [("status", Literal (VStr "Todo"))] = Ok res
    /\ dr_newAoa res = [[VStr "id"; VStr "status"]; [VNum 1; VStr "Done"]]
    /\ dr_remainingRows res = 1.
Proof.
  eexists. split; [reflexivity|].
  destruct (deleteTableRows_partition
              [[VStr "id"; VStr "status"]; [VNum 1; VStr "Done"]; [VNum 2; VStr "Todo"]]
              [("status", Literal (VStr "Todo"))] _ eq_refl) as (Ha & Hr & _).
  split; [exact Ha|exact Hr].
Defined.

(** ** What the mutations write *)






(** The sheet [Insert] writes is rectangular and free of [undefined]: under
    the final header row there is one row per table row, each with one cell
    per final header, holding what the row reads at that header, [null] in
    place of [undefined].  The loaded rows come first; in a new column they
    are [null], unless the column is named like a member of
    [Object.prototype], which is what the row reads and what is written. *)
Theorem addTableRows_written_sheet :
  forall (aoa : Aoa) (newRows : TableRow + list TableRow),
    let t := sheetToTable aoa in
    let res := addTableRows aoa newRows in
    List.length (ar_newAoa res) = S (totalRows res)
    /\ (forall cells,
          In cells (tl (ar_newAoa res)) ->
          List.length cells = List.length (headers (ar_table res))
          /\ forall cell, In cell cells -> cell <> VUndefined)
    /\ (forall i row,
          nth_error (rows (ar_table res)) i = Some row ->
          nth_error (tl (ar_newAoa res)) i =
          Some (map (fun h => nullish (Obj.get row h) VNull) (headers (ar_table res))))
    /\ (forall i row,
          nth_error (rows t) i = Some row ->
          nth_error (tl (ar_newAoa res)) i =
          Some (map (fun h => if existsb (String.eqb h) (headers t)
                              then nullish (Obj.get row h) VNull
                              else if Obj.inPrototype h then VBuiltin h else VNull)
                    (headers (ar_table res)))).
Proof.
  intros aoa newRows t res. unfold res, addTableRows. fold t.
  cbn [ar_newAoa ar_table headers totalRows tl List.length].
  rewrite length_map. split; [reflexivity|]. split; [|split].
  - intros cells Hin. apply in_map_iff in Hin. destruct Hin as (row & <- & _).
    rewrite length_map. split; [reflexivity|].
    intros cell Hc. apply in_map_iff in Hc. destruct Hc as (h & <- & _).
    apply nullish_null_defined.
  - intros i row Hi.
    exact (map_nth_error
             (fun row0 : TableRow =>
                map (fun h => nullish (Obj.get row0 h) VNull)
                    (fold_left (fun all row1 => fold_left set_add (Obj.keys row1) all)
                       (match newRows with inl r0 => [r0] | inr l => l end)
                       (Set_of (headers t))))
             i _ Hi).
  - intros i row Hi. rewrite nth_error_map, nth_error_app1
      by (apply nth_error_Some; congruence).
    rewrite Hi. cbn [option_map]. f_equal. apply map_ext. intros h.
    destruct (existsb (String.eqb h) (headers t)) eqn:E; [reflexivity|].
    assert (Hn : ~ In h (Obj.keys row)).
    { intros Hk.
      assert (Hrow : In row (rows t)) by (eapply nth_error_In; eauto).
      assert (Hh : In h (headers t)).
      { destruct aoa as [|first rest]; [destruct Hrow|].
        cbn [t sheetToTable rows headers] in *.
        apply in_map_iff in Hrow. destruct Hrow as (cells & <- & _).
        apply rowOfCells_keys in Hk. simpl in Hk. tauto. }
      apply existsb_eqb_In in Hh. congruence. }
    apply lookup_None_keys in Hn. rewrite (get_absent _ _ Hn).
    unfold Obj.inherited. now destruct (Obj.inPrototype h).
Qed.

Lemma addTableRows_written_sheet_witness :
  nth_error (tl (ar_newAoa (addTableRows
      [[VStr "id"]; [VNum 1]]
      (inl [("owner", VStr "ann"); ("constructor", VStr "x")])))) 0
  = Some [VNum 1; VNull; VBuiltin "constructor"].
Proof.
  exact (proj2 (proj2 (proj2 (addTableRows_written_sheet
                         [[VStr "id"]; [VNum 1]]
                         (inl [("owner", VStr "ann"); ("constructor", VStr "x")]))))
               0 [("id", VNum 1)] eq_refl).
Defined.




(** An empty batch changes nothing and reports zero; a batch of one pair is
    the single update with that pair, its one detail carrying the update's
    count. *)
Theorem batch_of_one_is_update :
  forall (aoa : Aoa) (where_ : WhereCondition) (set_ : Obj.t Value),
    batchUpdateTableRows aoa [mkUpdate where_ set_] =
      (r <- updateTableRows aoa where_ set_ ;;
       Ok (mkBatchResult (ur_table r) (ur_newAoa r) (updatedCount r)
             [mkDetail where_ (updatedCount r)]))
    /\ batchUpdateTableRows aoa [] =
         Ok (mkBatchResult (sheetToTable aoa)
               (toAoa (headers (sheetToTable aoa)) (rows (sheetToTable aoa))) 0 []).
Proof.
  intros aoa where_ set_. split.
  - rewrite batchUpdateTableRows_foldPairs, updateTableRows_matchesAll.
    cbn [foldPairs]. unfold applyPair. cbn [u_where u_set].
    destruct (matchesAll (rows (sheetToTable aoa)) where_) as [bs|e]; [|reflexivity].
    cbn. now rewrite Nat.add_0_r.
  - unfold batchUpdateTableRows. cbn. now destruct (sheetToTable aoa).
Qed.

(** ** The AppleScript transports of update and batch update *)

Lemma indexOf_None (l : list string) (k : string) :
  indexOf l k = None <-> ~ In k l.
Proof.
  induction l as [|x l IH]; simpl; [tauto|].
  destruct (String.eqb x k) eqn:E.
  - apply String.eqb_eq in E. split; [discriminate|intuition].
  - apply String.eqb_neq in E. destruct (indexOf l k); simpl.
    + split; [discriminate|]. intros H. exfalso. apply H. right.
      destruct (in_dec string_dec k l) as [Hin|Hn]; [exact Hin|].
      apply IH in Hn. discriminate.
    + split; [|reflexivity]. intros _ [H|H]; [congruence|]. now apply IH in H.
Qed.


Lemma columnIndices_result (hs cols : list string) (acc : Obj.t nat) :
  match columnIndices hs cols acc with
  | Ok ci =>
      (forall c, In c cols -> In c hs)
      /\ forall c, Obj.lookup ci c =
                   if existsb (String.eqb c) cols
                   then option_map (fun i => i + 1) (indexOf hs c)
                   else Obj.lookup acc c
  | Throw e =>
      exists c, In c cols /\ ~ In c hs /\ e = ColumnNotFound c hs
  end.
Proof.
  revert acc. induction cols as [|col cols IH]; intros acc; simpl.
  - split; [tauto|reflexivity].
  - destruct (indexOf hs col) as [idx|] eqn:E.
    + specialize (IH (Obj.put acc col (idx + 1))).
      destruct (columnIndices hs cols (Obj.put acc col (idx + 1))) as [ci|e].
      * destruct IH as [Hall Hl]. split.
        -- intros c [<-|Hc]; [|auto].
           destruct (in_dec string_dec col hs) as [H|H]; [exact H|].
           apply indexOf_None in H. congruence.
        -- intros c. rewrite Hl. destruct (existsb (String.eqb c) cols) eqn:Ex.
           ++ now rewrite Bool.orb_true_r.
           ++ rewrite Bool.orb_false_r. destruct (String.eqb c col) eqn:Ec.
              ** apply String.eqb_eq in Ec. subst c. now rewrite lookup_put_same, E.
              ** apply String.eqb_neq in Ec. now apply lookup_put_other.
      * destruct IH as (c & Hc & Hn & He). exists c. tauto.
    + exists col. split; [now left|]. split; [now apply indexOf_None|reflexivity].
Qed.

Lemma transportLoop_matchesAll (rs : list TableRow) (i : nat) (where_ : WhereCondition)
  (set_ : Obj.t Value) (ci : Obj.t nat) (updates : list CellUpdate) (n : nat) :
  transportLoop rs i where_ set_ ci updates n =
  (bs <- matchesAll rs where_ ;;
   Ok ((updates ++ cellsOf bs i ci set_)%list, n + countTrue bs)).
Proof.
  revert i updates n. induction rs as [|row rs IH]; intros i updates n; simpl.
  - now rewrite app_nil_r, Nat.add_0_r.
  - destruct (matchesCondition row where_) as [b|e]; simpl; [|reflexivity].
    rewrite IH. destruct (matchesAll rs where_) as [bs|e]; simpl; [|reflexivity].
    rewrite countTrue_cons. destruct b; simpl; rewrite <- ?app_assoc;
      do 2 f_equal; lia.
Qed.





Lemma batchTransportLoop_details (rs : list TableRow) (us : list Update)
  (ci : Obj.t nat) (cells : list CellUpdate) (ds : list Detail) (total : nat)
  (p : list CellUpdate * (list Detail * nat)) :
  batchTransportLoop rs us ci cells ds total = Ok p ->
  fst (snd p) =
    (ds ++ map (fun u => mkDetail (u_where u)
                           (List.length (filter (matchesB (u_where u)) rs))) us)%list
  /\ snd (snd p) =
       total + list_sum (map (fun u => List.length (filter (matchesB (u_where u)) rs)) us).
Proof.
  revert cells ds total. induction us as [|u us IH]; intros cells ds total; simpl.
  - intros H. injection H as <-. simpl. now rewrite app_nil_r, Nat.add_0_r.
  - rewrite transportLoop_matchesAll.
    destruct (matchesAll rs (u_where u)) as [bs|e] eqn:E; simpl; [|discriminate].
    intros H. apply IH in H. destruct H as [-> ->].
    apply matchesAll_Ok in E. subst bs. rewrite countTrue_map, <- app_assoc.
    split; [reflexivity|lia].
Qed.

(** [batchUpdateRowsViaAppleScript] judges every pair on the rows as loaded:
    each detail is the number of loaded rows its [where] matches, whatever
    the earlier pairs set, and [updatedCount] is the sum.  It succeeds only
    when every [set] column of every pair is a header. *)
Theorem batchUpdateRowsViaAppleScript_independent :
  forall (aoa : Aoa) (updatesList : list Update) (res : BatchTransportResult),
    batchUpdateRowsViaAppleScript aoa updatesList = Ok res ->
    let t := sheetToTable aoa in
    btr_details res =
      map (fun u => mkDetail (u_where u)
                      (List.length (filter (matchesB (u_where u)) (rows t))))
          updatesList
    /\ btr_updatedCount res = list_sum (map matched (btr_details res))
    /\ (forall u c, In u updatesList -> In c (Obj.keys (u_set u)) -> In c (headers t)).
Proof.
  intros aoa us res H t. unfold batchUpdateRowsViaAppleScript in H. fold t in H.
  pose proof (columnIndices_result (headers t)
                (fold_left (fun all u => fold_left set_add (Obj.keys (u_set u)) all) us [])
                []) as Hci.
  destruct (columnIndices (headers t) _ []) as [ci|e]; cbn [bind] in H; [|discriminate].
  destruct (batchTransportLoop (rows t) us ci [] [] 0) as [p|e] eqn:E;
    cbn [bind] in H; [|discriminate].
  injection H as <-. cbn [btr_details btr_updatedCount].
  apply batchTransportLoop_details in E. destruct E as [-> ->]. cbn [app Nat.add].
  split; [reflexivity|]. split.
  - rewrite map_map. reflexivity.
  - intros u c Hu Hc. apply (proj1 Hci).
    assert (Hfold : forall l s k,
               In k (fold_left (fun all u0 => fold_left set_add (Obj.keys (u_set u0)) all)
                               l s)
               <-> In k s \/ exists u0, In u0 l /\ In k (Obj.keys (u_set u0))).
    { clear. induction l as [|u0 l IH]; intros s k; simpl.
      - split; [tauto|]. intros [H|(u0 & [] & _)]. exact H.
      - rewrite IH, fold_set_add, in_app_iff, firstSeen_In. split.
        + intros [[H|[H _]]|(u1 & H1 & H2)]; eauto.
        + intros [H|(u1 & [<-|H1] & H2)]; eauto.
          destruct (in_dec string_dec k s); tauto. }
    apply Hfold. right. eauto.
Qed.

Lemma batchUpdateRowsViaAppleScript_independent_witness :
  exists res,
    batchUpdateRowsViaAppleScript
      [[VStr "id"; VStr "p"]; [VNum 1; VNull]; [VNum 2; VNull]]
      [mkUpdate [("id", Literal (VNum 1))] [("p", VStr "P0")];
       mkUpdate [("p", Literal (VStr "P0"))] [("p", VStr "P1")]] = Ok res
    /\ map matched (btr_details res) = [1; 0].
Proof.
  eexists. split; [reflexivity|].
  destruct (batchUpdateRowsViaAppleScript_independent
              [[VStr "id"; VStr "p"]; [VNum 1; VNull]; [VNum 2; VNull]]
              [mkUpdate [("id", Literal (VNum 1))] [("p", VStr "P0")];
               mkUpdate [("p", Literal (VStr "P0"))] [("p", VStr "P1")]] _ eq_refl)
    as (Hd & _).
  rewrite Hd. reflexivity.
Defined.

(** ** Colours *)

Lemma channel_to_numbers (n : nat) :
  n <= 255 ->
  Math_round (PrimFloat.mul (PrimFloat.div (nat2float n) 255) 65535)
  = nat2float (257 * n).
Proof.
  intros Hn.
  assert (H : forallb
                (fun n => PrimFloat.Leibniz.eqb
                   (Math_round (PrimFloat.mul (PrimFloat.div (nat2float n) 255) 65535))
                   (nat2float (257 * n)))
                (seq 0 256) = true) by (vm_compute; reflexivity).
  rewrite forallb_forall in H. apply FloatAxioms.Leibniz.eqb_spec. apply H.
  apply in_seq. lia.
Qed.

Lemma channel_from_numbers (n : nat) :
  n <= 255 ->
  Math_round (PrimFloat.mul (PrimFloat.div (nat2float (257 * n)) 65535) 255)
  = nat2float n.
Proof.
  intros Hn.
  assert (H : forallb
                (fun n => PrimFloat.Leibniz.eqb
                   (Math_round
                      (PrimFloat.mul (PrimFloat.div (nat2float (257 * n)) 65535) 255))
                   (nat2float n))
                (seq 0 256) = true) by (vm_compute; reflexivity).
  rewrite forallb_forall in H. apply FloatAxioms.Leibniz.eqb_spec. apply H.
  apply in_seq. lia.
Qed.

Lemma channel_near_white (n : nat) :
  n <= 255 -> PrimFloat.leb 250 (nat2float n) = (250 <=? n)%nat.
Proof.
  intros Hn.
  assert (H : forallb
                (fun n => Bool.eqb (PrimFloat.leb 250 (nat2float n)) (250 <=? n)%nat)
                (seq 0 256) = true) by (vm_compute; reflexivity).
  rewrite forallb_forall in H. apply Bool.eqb_prop. apply H. apply in_seq. lia.
Qed.

Lemma scale_round_trip (cr cg cb : nat) :
  cr <= 255 -> cg <= 255 -> cb <= 255 ->
  let c := mkRGB (nat2float cr) (nat2float cg) (nat2float cb) in
  toNumbersColor c =
    mkRGB (nat2float (257 * cr)) (nat2float (257 * cg)) (nat2float (257 * cb))
  /\ fromNumbersColor (r (toNumbersColor c)) (g (toNumbersColor c))
                      (b (toNumbersColor c)) = c.
Proof.
  intros Hr Hg Hb c.
  assert (E : toNumbersColor c =
              mkRGB (nat2float (257 * cr)) (nat2float (257 * cg)) (nat2float (257 * cb))).
  { unfold toNumbersColor, c. cbn [r g b]. now rewrite !channel_to_numbers. }
  split; [exact E|]. rewrite E. unfold fromNumbersColor, c. cbn [r g b].
  now rewrite !channel_from_numbers.
Qed.

(** The two colour scales are inverse on whole channels: a channel of
    [0..255] goes to 257 times its value on the application's [0..65535]
    scale, and comes back unchanged. *)
Theorem color_scale_round_trip :
  forall (cr cg cb : nat),
    cr <= 255 -> cg <= 255 -> cb <= 255 ->
    let c := mkRGB (nat2float cr) (nat2float cg) (nat2float cb) in
    toNumbersColor c =
      mkRGB (nat2float (257 * cr)) (nat2float (257 * cg)) (nat2float (257 * cb))
    /\ fromNumbersColor (r (toNumbersColor c)) (g (toNumbersColor c))
                        (b (toNumbersColor c)) = c.
Proof.
  intros cr cg cb Hr Hg Hb. now apply scale_round_trip.
Qed.

Lemma color_scale_round_trip_witness :
  toNumbersColor (mkRGB (nat2float 144) (nat2float 238) (nat2float 144)) =
  mkRGB 37008 61166 37008.
Proof.
  rewrite (proj1 (color_scale_round_trip 144 238 144 ltac:(lia) ltac:(lia) ltac:(lia))).
  vm_compute. reflexivity.
Defined.

Lemma rowColorsLoop_rowColorsOf (rs : list TableRow) (i : nat) (column : string)
  (colorMap : Obj.t RGBColor) (acc : list RowColor) :
  rowColorsLoop rs i column colorMap acc = (acc ++ rowColorsOf rs i column colorMap)%list.
Proof.
  revert i acc. induction rs as [|row rs IH]; intros i acc; simpl.
  - now rewrite app_nil_r.
  - rewrite IH. unfold cellString.
    destruct (mappedColor colorMap _); [now rewrite <- app_assoc|reflexivity].
Qed.

Lemma rowColorsOf_In (rs : list TableRow) (i0 : nat) (column : string)
  (colorMap : Obj.t RGBColor) (cmd : RowColor) :
  In cmd (rowColorsOf rs i0 column colorMap) <->
  exists i row c,
    nth_error rs i = Some row /\ mappedColor colorMap (cellString column row) = Some c
    /\ cmd = mkRowColor (i0 + i + 2) (toNumbersColor c).
Proof.
  revert i0. induction rs as [|row rs IH]; intros i0; simpl.
  - split; [tauto|]. intros (i & r0 & c & Hi & _). destruct i; discriminate.
  - split.
    + intros H.
      assert (Hrest : In cmd (rowColorsOf rs (S i0) column colorMap) ->
                      exists i r0 c,
                        nth_error (row :: rs) i = Some r0
                        /\ mappedColor colorMap (cellString column r0) = Some c
                        /\ cmd = mkRowColor (i0 + i + 2) (toNumbersColor c)).
      { intros Hin. apply IH in Hin. destruct Hin as (i & r0 & c & Hi & Hl & ->).
        exists (S i), r0, c. repeat split; try assumption. f_equal. lia. }
      destruct (mappedColor colorMap (cellString column row)) as [c|] eqn:E; [|auto].
      destruct H as [<-|H]; [|auto].
      exists 0, row, c. repeat split; try assumption. f_equal. lia.
    + intros (i & r0 & c & Hi & Hl & ->). destruct i as [|i]; simpl in Hi.
      * injection Hi as ->. rewrite Hl. left. f_equal. lia.
      * assert (Hin : In (mkRowColor (i0 + S i + 2) (toNumbersColor c))
                         (rowColorsOf rs (S i0) column colorMap)).
        { apply IH. exists i, r0, c. repeat split; try assumption. f_equal. lia. }
        destruct (mappedColor colorMap (cellString column row)); [now right|exact Hin].
Qed.

Lemma rowColorsOf_length (rs : list TableRow) (i : nat) (column : string)
  (colorMap : Obj.t RGBColor) :
  List.length (rowColorsOf rs i column colorMap) =
  List.length (filter (fun row => Obj.has colorMap (cellString column row)
                                  || Obj.inPrototype (cellString column row)) rs).
Proof.
  revert i. induction rs as [|row rs IH]; intros i; simpl; [reflexivity|].
  unfold mappedColor, Obj.has.
  destruct (Obj.lookup colorMap (cellString column row)); simpl;
    [now rewrite IH|].
  destruct (Obj.inPrototype (cellString column row)); simpl; now rewrite IH.
Qed.

Lemma rowColorsOf_sorted (rs : list TableRow) (i : nat) (column : string)
  (colorMap : Obj.t RGBColor) :
  StronglySorted lt (map rc_rowIndex (rowColorsOf rs i column colorMap)).
Proof.
  revert i. induction rs as [|row rs IH]; intros i; simpl; [constructor|].
  destruct (mappedColor colorMap (cellString column row)) as [c0|]; [|apply IH].
  simpl. constructor; [apply IH|].
  apply Forall_forall. intros n Hn. apply in_map_iff in Hn.
  destruct Hn as (cmd & <- & Hin). apply rowColorsOf_In in Hin.
  destruct Hin as (j & row' & c & _ & _ & ->). simpl. lia.
Qed.

(** [colorRowsByValue] throws column-not-found when the column is no header.
    Otherwise it colours the rows for whose cell, as a string (an empty cell
    as the empty string), [colorMap] reads something: one command per such
    row, in row order, addressed to sheet row [i + 2] for data row [i].
    Where the string is a key of [colorMap] the command carries the entry's
    colour on the application's scale; where it is not, but names a member
    of [Object.prototype], the row is coloured all the same, with
    not-a-number in the three channels.  [coloredCount] is the number of
    these rows. *)
Theorem colorRowsByValue_commands :
  forall (aoa : Aoa) (column : string) (colorMap : Obj.t RGBColor),
    let t := sheetToTable aoa in
    (~ In column (headers t) ->
     colorRowsByValue aoa column colorMap = Throw (ColumnNotFound column (headers t)))
    /\ (In column (headers t) ->
        exists res,
          colorRowsByValue aoa column colorMap = Ok res
          /\ coloredCount res = List.length (cr_commands res)
          /\ coloredCount res =
               List.length
                 (filter (fun row => Obj.has colorMap (cellString column row)
                                     || Obj.inPrototype (cellString column row))
                         (rows t))
          /\ StronglySorted lt (map rc_rowIndex (cr_commands res))
          /\ forall cmd,
              In cmd (cr_commands res) <->
              exists i row,
                nth_error (rows t) i = Some row
                /\ ((exists c,
                       Obj.lookup colorMap (cellString column row) = Some c
                       /\ cmd = mkRowColor (i + 2) (toNumbersColor c))
                    \/ (Obj.lookup colorMap (cellString column row) = None
                        /\ Obj.inPrototype (cellString column row) = true
                        /\ cmd = mkRowColor (i + 2) (mkRGB nan nan nan)))).
Proof.
  intros aoa column colorMap t. unfold colorRowsByValue. fold t. split.
  - intros Hn. apply indexOf_None in Hn. now rewrite Hn.
  - intros Hin. destruct (indexOf (headers t) column) as [idx|] eqn:E.
    + eexists. split; [reflexivity|]. cbn [coloredCount cr_commands].
      rewrite rowColorsLoop_rowColorsOf. cbn [app].
      split; [reflexivity|]. split; [apply rowColorsOf_length|].
      split; [apply rowColorsOf_sorted|].
      intros cmd. rewrite rowColorsOf_In. cbn [Nat.add].
      assert (Hnan : toNumbersColor (mkRGB nan nan nan) = mkRGB nan nan nan)
        by (vm_compute; reflexivity).
      split.
      * intros (i & row & c & Hi & Hm & ->). exists i, row. split; [exact Hi|].
        unfold mappedColor in Hm.
        destruct (Obj.lookup colorMap (cellString column row)) as [c'|].
        -- injection Hm as ->. left. eauto.
        -- destruct (Obj.inPrototype (cellString column row)); [|discriminate].
           injection Hm as <-. right. now rewrite Hnan.
      * intros (i & row & Hi & [(c & Hl & ->)|(Hl & Hp & ->)]).
        -- exists i, row, c. unfold mappedColor. rewrite Hl. auto.
        -- exists i, row, (mkRGB nan nan nan). unfold mappedColor.
           rewrite Hl, Hp, Hnan. auto.
    + apply indexOf_None in E. contradiction.
Qed.

Lemma colorRowsByValue_commands_witness :
  exists res,
    colorRowsByValue [[VStr "status"]; [VStr "Done"]; [VNull]; [VStr "constructor"]]
      "status" [("Done", mkRGB 255 0 0)] = Ok res
    /\ coloredCount res = 2
    /\ map rc_rowIndex (cr_commands res) = [2; 4].
Proof.
  destruct (colorRowsByValue_commands
              [[VStr "status"]; [VStr "Done"]; [VNull]; [VStr "constructor"]]
              "status" [("Done", mkRGB 255 0 0)]) as [_ H].
  destruct (H (or_introl eq_refl)) as (res & E & _ & Hc & _).
  exists res. split; [exact E|]. split; [exact Hc|].
  vm_compute in E. injection E as <-. reflexivity.
Defined.

(** A colour written by [colorRowsByValue] and read back by [getRowColors]
    comes back unchanged, unless its three channels are all 250 or more:
    such a near-white colour reads back as no colour, like the white that
    stands in for a row whose colour could not be read. *)
Theorem near_white_reads_as_uncolored :
  forall (cr cg cb : nat),
    cr <= 255 -> cg <= 255 -> cb <= 255 ->
    let c := mkRGB (nat2float cr) (nat2float cg) (nat2float cb) in
    let sent := toNumbersColor c in
    readColor (r sent) (g sent) (b sent) =
      (if ((250 <=? cr) && (250 <=? cg) && (250 <=? cb))%nat then None else Some c)
    /\ readColor 65535 65535 65535 = None.
Proof.
  intros cr cg cb Hr Hg Hb c sent. split; [|vm_compute; reflexivity].
  pose proof (proj2 (scale_round_trip cr cg cb Hr Hg Hb)) as Hback.
  cbv zeta in Hback. fold c in Hback. fold sent in Hback.
  unfold readColor. rewrite Hback.
  unfold isWhiteOrDefault, c. cbn [r g b].
  now rewrite !channel_near_white.
Qed.

Lemma near_white_reads_as_uncolored_witness :
  readColor 64250 65535 64507 = None
  /\ readColor 65535 0 0 = Some (mkRGB 255 0 0).
Proof.
  split.
  - exact (proj1 (near_white_reads_as_uncolored 250 255 251
                    ltac:(lia) ltac:(lia) ltac:(lia))).
  - vm_compute. reflexivity.
Defined.

(** The consistency test [maxCount / totalForValue >= 0.8] on floats decides
    the exact ratio: for a value with up to 100 rows, of which at least one
    is coloured, the value is consistent exactly when its largest bucket
    holds at least four fifths of its rows, coloured or not.  A value with
    no coloured row is always consistent. *)
Theorem consistency_threshold :
  forall (obs : list (string * option RGBColor)) (v : string),
    let cs := coloredOf v obs in
    let total := List.length cs + uncoloredOf v obs in
    total <= 100 ->
    (cs = [] -> consistent obs v = true)
    /\ (cs <> [] -> consistent obs v = (4 * total <=? 5 * maxBucket cs)%nat).
Proof.
  intros obs v cs total. subst total cs. unfold consistent.
  destruct (coloredOf v obs) as [|c0 cs'] eqn:E; intros Ht.
  - split; [reflexivity|congruence].
  - split; [discriminate|]. intros _. apply threshold_exact.
    + cbn [List.length]. lia.
    + pose proof (maxBucketBy_le_length colorKey (c0 :: cs')) as Hle.
      unfold maxBucket. lia.
    + exact Ht.
Qed.

Lemma consistency_threshold_witness :
  consistent [("A", Some (mkRGB 255 0 0)); ("A", Some (mkRGB 255 0 0));
              ("A", Some (mkRGB 255 0 0)); ("A", Some (mkRGB 255 0 0)); ("A", None)] "A"
  = true.
Proof.
  rewrite (proj2 (consistency_threshold
                    [("A", Some (mkRGB 255 0 0)); ("A", Some (mkRGB 255 0 0));
                     ("A", Some (mkRGB 255 0 0)); ("A", Some (mkRGB 255 0 0));
                     ("A", None)] "A" ltac:(simpl; lia)));
    [vm_compute; reflexivity|discriminate].
Defined.

(** The reported confidence is the share of consistent values in hundredths,
    rounded to the nearest hundredth with a tie going up, for up to 39
    distinct values.  From 40 distinct values on the float product
    [confidence * 100] can fall just under a tie: 23 consistent values of 40
    give 0.57, not 0.58. *)
Theorem confidence_rounding :
  forall (k d : nat),
    k <= d -> d <= 39 ->
    confidenceOf k d = PrimFloat.div (nat2float (exactHundredths k d)) 100
    /\ confidenceOf 23 40 = 0.57%float
    /\ exactHundredths 23 40 = 58.
Proof.
  intros k d Hk Hd. split; [now apply confidence_exact|].
  split; vm_compute; reflexivity.
Qed.

Lemma confidence_rounding_witness :
  confidenceOf 1 8 = 0.13%float.
Proof.
  rewrite (proj1 (confidence_rounding 1 8 ltac:(lia) ltac:(lia))).
  vm_compute. reflexivity.
Defined.

Lemma observeFrom_colored (values : list string) (colors : list (option RGBColor))
  (i : nat) :
  List.length (filter (fun o => match snd o with Some _ => true | None => false end)
                      (observeFrom values colors i)) =
  List.length (filter (fun j => isColored (nth j colors None))
                      (seq i (List.length values))).
Proof.
  revert i. induction values as [|v values IH]; intros i; [reflexivity|].
  cbn [observeFrom List.length seq filter snd]. unfold isColored at 1.
  destruct (nth i colors None); cbn [List.length]; now rewrite IH.
Qed.

(** [detectColorMapping] throws column-not-found when the column is no
    header.  Otherwise [sampleSize] is the number of rows that have a colour
    at their own position in what was read back, colours past the last row
    being ignored and rows past the last colour counting as uncoloured, and
    [colorMap] has an entry exactly for the strings of the column's cells
    (an empty cell as the empty string), the string [__proto__] apart, which
    gets none. *)
Theorem detectColorMapping_sample :
  forall (aoa : Aoa) (column : string) (colors : list (option RGBColor)),
    let t := sheetToTable aoa in
    (~ In column (headers t) ->
     detectColorMapping aoa column colors = Throw (ColumnNotFound column (headers t)))
    /\ (In column (headers t) ->
        exists res,
          detectColorMapping aoa column colors = Ok res
          /\ sampleSize res =
               List.length (filter (fun i => isColored (nth i colors None))
                                   (seq 0 (List.length (rows t))))
          /\ sampleSize res <= List.length (rows t)
          /\ forall v,
              Obj.has (colorMap res) v = true <->
              v <> "__proto__"
              /\ exists row, In row (rows t) /\ cellString column row = v).
Proof.
  intros aoa column colors t. unfold detectColorMapping. fold t. split.
  - intros Hn. destruct (existsb (String.eqb column) (headers t)) eqn:E.
    + apply existsb_eqb_In in E. contradiction.
    + reflexivity.
  - intros Hin. apply existsb_eqb_In in Hin. rewrite Hin. cbn [negb].
    eexists. split; [reflexivity|].
    change (map (fun row => ToString (nullish (Obj.get row column) (VStr ""))) (rows t))
      with (map (cellString column) (rows t)).
    set (values := map (cellString column) (rows t)).
    pose proof (tallyLoop_tallyOf values colors) as Ht.
    assert (Hsize : sampleSize (colorMappingOf values colors) =
                    List.length (filter (fun i => isColored (nth i colors None))
                                        (seq 0 (List.length (rows t))))).
    { unfold colorMappingOf. cbn [sampleSize].
      destruct Ht as (_ & _ & ->). unfold observe. rewrite observeFrom_colored.
      unfold values. now rewrite length_map. }
    split; [exact Hsize|]. split.
    + rewrite Hsize.
      etransitivity; [apply filter_length_le|]. now rewrite length_seq.
    + intros v.
      pose proof (allValues_Permutation _ values colors Ht) as Hperm.
      destruct (fold_mappingStep _ (observe values colors)
                  (Set_of (JsMap.keys (valueColors
                                         (tallyLoop values colors 0 (mkTally [] [] 0)))
                           ++ JsMap.keys (valueNullCount
                                            (tallyLoop values colors 0 (mkTally [] [] 0))))%list)
                  (mkMappings [] 0 0) Ht) as (Hl & Hp & _ & _).
      assert (Hvals : In v (Set_of (JsMap.keys (valueColors
                                         (tallyLoop values colors 0 (mkTally [] [] 0)))
                           ++ JsMap.keys (valueNullCount
                                            (tallyLoop values colors 0 (mkTally [] [] 0))))%list)
                      <-> exists row, In row (rows t) /\ cellString column row = v).
      { split.
        - intros E. apply (Permutation_in _ Hperm) in E. apply nodup_In in E.
          unfold values in E. apply in_map_iff in E.
          destruct E as (row & <- & Hr). now exists row.
        - intros (row & Hr & <-). apply (Permutation_in _ (Permutation_sym Hperm)).
          apply nodup_In. unfold values. now apply in_map. }
      unfold colorMappingOf. cbn [colorMap]. unfold Obj.has.
      destruct (string_dec v "__proto__") as [->|Hv].
      * rewrite (Hp eq_refl). split; [discriminate|]. intros [H _]. congruence.
      * rewrite (Hl v Hv). cbn [m_colorMap Obj.lookup]. rewrite <- Hvals.
        rewrite <- existsb_eqb_In.
        destruct (existsb (String.eqb v) _); split; auto; intros [_ H]; auto.
Qed.

Lemma detectColorMapping_sample_witness :
  exists res,
    detectColorMapping [[VStr "status"]; [VStr "Done"]; [VNull]; [VStr "Done"]]
      "status" [Some (mkRGB 0 255 0); Some (mkRGB 0 255 0)] = Ok res
    /\ sampleSize res = 2
    /\ Obj.keys (colorMap res) = ["Done"; ""].
Proof.
  destruct (detectColorMapping_sample
              [[VStr "status"]; [VStr "Done"]; [VNull]; [VStr "Done"]]
              "status" [Some (mkRGB 0 255 0); Some (mkRGB 0 255 0)]) as [_ H].
  destruct (H (or_introl eq_refl)) as (res & E & Hs & _).
  exists res. split; [exact E|]. split; [exact Hs|].
  vm_compute in E. injection E as <-. reflexivity.
Defined.

(** ** Cell values in a script *)

Lemma escapeQuotes_head (s : string) (rest : string) :
  escapeQuotes s <> String dquote rest.
Proof.
  destruct s as [|c s]; [discriminate|]. simpl.
  destruct (Ascii.eqb c dquote) eqn:E.
  - intros H. injection H as H _. discriminate.
  - intros H. injection H as H _. subst c. now rewrite Ascii.eqb_refl in E.
Qed.

Lemma unescape_escape (s : string) : unescapeQuotes (escapeQuotes s) = s.
Proof.
  induction s as [|c s IH]; [reflexivity|].
  cbn [escapeQuotes]. destruct (Ascii.eqb c dquote) eqn:E.
  - apply Ascii.eqb_eq in E. subst c.
    cbn [unescapeQuotes]. rewrite !Ascii.eqb_refl. cbn [andb]. now rewrite IH.
  - cbn [unescapeQuotes]. destruct (escapeQuotes s) as [|c' body] eqn:Eb.
    + destruct s as [|c1 s1]; [reflexivity|].
      simpl in Eb. destruct (Ascii.eqb c1 dquote); discriminate.
    + destruct (Ascii.eqb c' dquote) eqn:E'.
      * apply Ascii.eqb_eq in E'. subst c'. exfalso.
        exact (escapeQuotes_head s body Eb).
      * rewrite Bool.andb_false_r. now rewrite IH.
Qed.

Lemma escapeQuotes_length (s : string) :
  String.length (escapeQuotes s) = String.length s + quoteCount s.
Proof.
  induction s as [|c s IH]; [reflexivity|].
  cbn [escapeQuotes quoteCount]. destruct (Ascii.eqb c dquote); simpl; rewrite IH; lia.
Qed.

Lemma escapeQuotes_plain (s : string) :
  quoteCount s = 0 <-> escapeQuotes s = s.
Proof.
  split.
  - induction s as [|c s IH]; [reflexivity|].
    cbn [escapeQuotes quoteCount]. destruct (Ascii.eqb c dquote); [discriminate|].
    intros H. now rewrite IH.
  - intros H. pose proof (escapeQuotes_length s) as Hl. rewrite H in Hl. lia.
Qed.

(** An empty cell value ([null] or [undefined]) is written into the script as
    the empty text, exactly like the empty string.  A text value is written
    between double quotes, a backslash going before each of its double
    quotes and every other character, a backslash included, staying as it
    is: the body is one character longer per quote, is the value itself
    exactly when the value has no quote, and gives the value back when each
    backslash-quote pair is turned into a quote again. *)
Theorem formattedValue_quoting :
  formattedValue VNull = formattedValue (VStr EmptyString)
  /\ formattedValue VUndefined = formattedValue (VStr EmptyString)
  /\ forall s : string,
      exists body,
        formattedValue (VStr s) = String dquote (body ++ String dquote EmptyString)
        /\ unescapeQuotes body = s
        /\ String.length body = String.length s + quoteCount s
        /\ (quoteCount s = 0 <-> body = s).
Proof.
  split; [reflexivity|]. split; [reflexivity|].
  intros s. exists (escapeQuotes s). split; [reflexivity|].
  split; [apply unescape_escape|]. split; [apply escapeQuotes_length|].
  apply escapeQuotes_plain.
Qed.
